(** * MultiPartUploader: resumable multi-part upload

    A shallow embedding of the Dart class [MultiPartUploader]
    (the second document of [src/components/CollectionShare.tsx]) and the
    properties of its part planning, part loop, completion step and
    resume entry point; then its two methods on key material, and the
    handler of the share form of the component [CollectionShare]
    (the first document of that file). *)

From Stdlib Require Import ZArith Lia Floats.SpecFloat.
From stdpp Require Import gmap strings list fin_maps.

(** * The model *)

(** ** Dart primitives *)

Module Dart.

(** Exceptions the modelled code can raise or let through. *)
Inductive Exception :=
| Exception_ (message : string)          (* [Exception('...')] *)
| DioException (message : string)        (* transport failure of a Dio call *)
| IntegerDivisionByZeroException         (* [x % 0] on ints *)
| UnsupportedError (message : string)    (* [.ceil()] of Infinity or NaN *)
| StateError (message : string).         (* no row for a looked-up session *)

Inductive Result (A : Type) :=
| Ok (a : A)
| Throw (e : Exception).
Arguments Ok {A} a.
Arguments Throw {A} e.

Local Open Scope Z_scope.

(** Dart's native [int] is a 64-bit two's complement integer. *)
Definition int_min : Z := - 2 ^ 63.
Definition int_max : Z := 2 ^ 63 - 1.
Definition wrap64 (z : Z) : Z := (z + 2 ^ 63) mod 2 ^ 64 - 2 ^ 63.
Definition clamp64 (z : Z) : Z := Z.max int_min (Z.min int_max z).

(** [a % b] on ints: Euclidean remainder, raising on a zero divisor. *)
Definition int_mod (a b : Z) : Result Z :=
  if b =? 0 then Throw IntegerDivisionByZeroException
  else Ok (a mod Z.abs b).

(** *** Doubles

    A binary64 value is kept as [m * 2 ^ e].  Quotients of 64-bit integers
    lie between [2 ^ -63] and [2 ^ 63] in magnitude, so neither the
    subnormal range nor overflow is reachable from [int / int]; the sign
    of zero does not influence [ceil] and is not kept. *)
Inductive double :=
| Finite (m e : Z)
| Infinity (negative : bool)
| NaN.

(** Nearest integer to [n / d] for [0 <= n], [0 < d], ties to even. *)
Definition rne_div (n d : Z) : Z :=
  let q := n / d in
  let r := n mod d in
  match 2 * r ?= d with
  | Lt => q
  | Gt => q + 1
  | Eq => if Z.even q then q else q + 1
  end.

(** Numerator and denominator of [n / (d * 2 ^ e)]. *)
Definition scaled (n d e : Z) : Z * Z :=
  (n * 2 ^ Z.max 0 (- e), d * 2 ^ Z.max 0 e).

(** The exponent [e] with [2 ^ 52 <= n / (d * 2 ^ e) < 2 ^ 53]. *)
Definition exponent_of (n d : Z) : Z :=
  let e0 := Z.log2 n - Z.log2 d - 53 in
  let '(n0, d0) := scaled n d e0 in
  if n0 / d0 <? 2 ^ 53 then e0 else e0 + 1.

(** Round-to-nearest-even of the positive rational [n / d] to a 53-bit
    significand. *)
Definition round_pos (n d : Z) : Z * Z :=
  let e := exponent_of n d in
  let '(n', d') := scaled n d e in
  (rne_div n' d', e).

Definition round_ratio (negative : bool) (n d : Z) : double :=
  let '(m, e) := round_pos n d in
  Finite (if negative then - m else m) e.

(** [int.toDouble()]. *)
Definition toDouble (a : Z) : double :=
  if a =? 0 then Finite 0 0
  else round_ratio (a <? 0) (Z.abs a) 1.

(** [x / y] on doubles. *)
Definition double_div (x y : double) : double :=
  match x, y with
  | NaN, _ | _, NaN => NaN
  | Infinity _, Infinity _ => NaN
  | Infinity s, Finite m _ => Infinity (xorb s (m <? 0))
  | Finite _ _, Infinity _ => Finite 0 0
  | Finite m1 e1, Finite m2 e2 =>
      if m2 =? 0 then
        if m1 =? 0 then NaN else Infinity (m1 <? 0)
      else if m1 =? 0 then Finite 0 0
      else
        round_ratio (xorb (m1 <? 0) (m2 <? 0))
          (Z.abs m1 * 2 ^ Z.max 0 (e1 - e2))
          (Z.abs m2 * 2 ^ Z.max 0 (e2 - e1))
  end.

(** [a / b] on ints is a double division of the converted operands. *)
Definition int_div (a b : Z) : double := double_div (toDouble a) (toDouble b).

(** [x.ceil()]: the least integer not below [x], saturated to the [int]
    range; raises on a non-finite value. *)
Definition double_ceil (x : double) : Result Z :=
  match x with
  | Finite m e =>
      Ok (clamp64 (if 0 <=? e then m * 2 ^ e else - ((- m) / 2 ^ (- e))))
  | Infinity _ => Throw (UnsupportedError "Infinity or NaN toInt")
  | NaN => Throw (UnsupportedError "Infinity or NaN toInt")
  end.

(** The same quotient computed with the Standard Library's executable
    IEEE-754 specification, used to test [int_div]. *)
Definition of_spec_float (x : spec_float) : double :=
  match x with
  | S754_zero _ => Finite 0 0
  | S754_infinity s => Infinity s
  | S754_nan => NaN
  | S754_finite s m e => Finite (if s then Z.neg m else Z.pos m) e
  end.

Definition ieee_int_div (a b : Z) : double :=
  of_spec_float
    (SFdiv 53 1024 (binary_normalize 53 1024 a 0 false)
                   (binary_normalize 53 1024 b 0 false)).

End Dart.

Import Dart.

(** ** Data model *)

(** Modelled from the spec: the enum [MultipartStatus] of
    [model/multipart.dart], which is not part of the sources; its three
    values are the states of a session. *)
Inductive MultipartStatus := pending | uploaded | completed.

Global Instance MultipartStatus_eq_dec : EqDecision MultipartStatus.
Proof. solve_decision. Defined.

(** Position of a status on the path pending, uploaded, completed. *)
Definition status_rank (s : MultipartStatus) : nat :=
  match s with pending => 0 | uploaded => 1 | completed => 2 end.

Definition status_le (s1 s2 : MultipartStatus) : Prop :=
  (status_rank s1 <= status_rank s2)%nat.

(** Modelled from the spec: the class [MultipartUploadURLs] of
    [model/multipart.dart], which is not part of the sources; the fields are
    those the uploader reads. *)
Record MultipartUploadURLs := {
  objectKey : string;
  partsURLs : list string;
  completeURL : string
}.

(** A Dart [Map<int, String>] literal is a [LinkedHashMap]: its entries are
    iterated in insertion order, and assigning to a present key keeps the
    key's position.  Part indices are list positions, kept as [nat]. *)
Definition ETagMap := list (nat * string).

Fixpoint etag_put (k : nat) (v : string) (m : ETagMap) : ETagMap :=
  match m with
  | [] => [(k, v)]
  | (k', v') :: m' =>
      if (k =? k')%nat then (k, v) :: m' else (k', v') :: etag_put k v m'
  end.

Fixpoint etag_get (k : nat) (m : ETagMap) : option string :=
  match m with
  | [] => None
  | (k', v') :: m' => if (k =? k')%nat then Some v' else etag_get k m'
  end.

(** Modelled from the spec: the class [MultipartInfo] of
    [model/multipart.dart], which is not part of the sources; the fields are
    those the uploader reads.  The nullable fields are options, and the
    constructor call [MultipartInfo(urls: urls)] leaves them null with the
    status [pending] of a session that has uploaded nothing. *)
Record MultipartInfo := {
  partUploadStatus : option (list bool);
  partETags : option ETagMap;
  partSize : option Z;
  urls : MultipartUploadURLs;
  status : MultipartStatus
}.

Definition MultipartInfo_of_urls (u : MultipartUploadURLs) : MultipartInfo :=
  {| partUploadStatus := None; partETags := None; partSize := None;
     urls := u; status := pending |}.

(** Modelled from the spec: the class [PartETag] of [model/xml.dart], which
    is not part of the sources, built as [PartETag(partNumber, eTag)]. *)
Record PartETag := { partNumber : nat; eTag : string }.

(** The encrypted file on disk; only its length is read besides its bytes. *)
Record File := { lengthSync : Z }.

(** ** The tracking store *)

Abbreviation SessionKey := (string * string * Z)%type.

(** Modelled from the spec: a row of [UploadLocksDB]
    ([db/upload_locks_db.dart]), which is not part of the sources.  It holds
    the persisted session schema without the wrapped file key; one row is
    kept per (local id, file hash, collection id). *)
Record TrackUploadsEntry := {
  entry_urls : MultipartUploadURLs;
  entry_partSize : Z;
  entry_status : MultipartStatus;
  entry_partUploadStatus : list bool;
  entry_partETags : ETagMap
}.

Abbreviation UploadLocksDB := (gmap SessionKey TrackUploadsEntry).

(** Modelled from the spec: the update operations of the store address
    rows by object key, and rewrite every row that carries it. *)
Definition entry_of_key (key : string) (e : TrackUploadsEntry) : bool :=
  bool_decide (objectKey (entry_urls e) = key).

(** Modelled from the spec: recording part [i] sets its flag, when the row
    has one, and stores its identifier. *)
Definition entry_set_part (i : nat) (etag : string) (e : TrackUploadsEntry)
  : TrackUploadsEntry :=
  {| entry_urls := entry_urls e;
     entry_partSize := entry_partSize e;
     entry_status := entry_status e;
     entry_partUploadStatus := <[i := true]> (entry_partUploadStatus e);
     entry_partETags := etag_put i etag (entry_partETags e) |}.

(** Modelled from the spec: setting the status of a row. *)
Definition entry_set_status (s : MultipartStatus) (e : TrackUploadsEntry)
  : TrackUploadsEntry :=
  {| entry_urls := entry_urls e;
     entry_partSize := entry_partSize e;
     entry_status := s;
     entry_partUploadStatus := entry_partUploadStatus e;
     entry_partETags := entry_partETags e |}.

(** Modelled from the spec: an update of the rows of an object key. *)
Definition db_update (key : string) (f : TrackUploadsEntry -> TrackUploadsEntry)
    (d : UploadLocksDB) : UploadLocksDB :=
  (fun e => if entry_of_key key e then f e else e) <$> d.

(** Modelled from the spec: the session a row is loaded as. *)
Definition entry_info (e : TrackUploadsEntry) : MultipartInfo :=
  {| partUploadStatus := Some (entry_partUploadStatus e);
     partETags := Some (entry_partETags e);
     partSize := Some (entry_partSize e);
     urls := entry_urls e;
     status := entry_status e |}.

(** Modelled from the spec: the row of a session as created, pending with
    no part recorded. *)
Definition new_entry (u : MultipartUploadURLs) (size : Z) : TrackUploadsEntry :=
{| entry_urls := u;
   entry_partSize := size;
   entry_status := pending;
   entry_partUploadStatus := replicate (length (partsURLs u)) false;
   entry_partETags := [] |}.

(** ** Network and effects *)

Record PutRequest := {
  put_url : string;
  data_start : Z;                 (* [openRead(start, end)] *)
  data_end : option Z;
  contentLength : Z               (* the declared Content-Length header *)
}.

Inductive PutResponse :=
| PutOk (etag : option string)    (* [response.headers.value("etag")] *)
| PutFailed (e : Exception).

Record PostRequest := { post_url : string; post_body : string; contentType : string }.

Inductive PostResponse :=
| PostOk
| PostFailed (e : Exception).

Inductive Event :=
| DbGetCachedLinks (k : SessionKey)
| DbUpdateLastAttempted (k : SessionKey)
| DbUpdatePartStatus (key : string) (i : nat) (etag : string)
| DbUpdateTrackUploadStatus (key : string) (s : MultipartStatus)
| S3Put (i : nat) (req : PutRequest) (resp : PutResponse)
| S3Post (req : PostRequest) (resp : PostResponse).

(** The storage endpoint answers each request as a function of everything
    that happened before it. *)
Record Network := {
  s3_put : list Event -> PutRequest -> PutResponse;
  s3_post : list Event -> PostRequest -> PostResponse
}.

(** The store and the chronological log of effects. *)
Record World := { db : UploadLocksDB; trace : list Event }.

Definition log_event (ev : Event) (w : World) : World :=
  {| db := db w; trace := trace w ++ [ev] |}.

(** State that survives an exception, and a result or an exception. *)
Definition M (A : Type) : Type := World -> Result A * World.

Definition ret {A} (a : A) : M A := fun w => (Ok a, w).
Definition throw {A} (e : Exception) : M A := fun w => (Throw e, w).
Definition bind {A B} (c : M A) (k : A -> M B) : M B :=
  fun w =>
    match c w with
    | (Ok a, w') => k a w'
    | (Throw e, w') => (Throw e, w')
    end.
Definition lift {A} (r : Result A) : M A := fun w => (r, w).

Declare Scope upload_scope.
Delimit Scope upload_scope with upload.
Notation "x <- c ;; k" := (bind c (fun x => k))
  (at level 100, c at next level, right associativity) : upload_scope.
Notation "c ;;; k" := (bind c (fun _ => k))
  (at level 100, right associativity) : upload_scope.
Local Open Scope upload_scope.

Module UploadLocksDBOps.

(** Modelled from the spec: [getCachedLinks] of the store, which is not part
    of the sources; it loads the session of a tuple or fails when there is
    none. *)
Definition getCachedLinks (k : SessionKey) : M MultipartInfo :=
  fun w =>
    let w' := log_event (DbGetCachedLinks k) w in
    match db w !! k with
    | Some e => (Ok (entry_info e), w')
    | None => (Throw (StateError "No cached links found"), w')
    end.

(** Modelled from the spec: [updateLastAttempted] of the store touches the
    row's last-attempt time, a liveness hint that the row does not keep. *)
Definition updateLastAttempted (k : SessionKey) : M unit :=
  fun w => (Ok tt, log_event (DbUpdateLastAttempted k) w).

(** Modelled from the spec: [updatePartStatus] of the store records one
    part of the sessions of an object key. *)
Definition updatePartStatus (key : string) (i : nat) (etag : string) : M unit :=
  fun w =>
    (Ok tt,
     {| db := db_update key (entry_set_part i etag) (db w);
        trace := trace w ++ [DbUpdatePartStatus key i etag] |}).

(** Modelled from the spec: [updateTrackUploadStatus] of the store sets the
    status of the sessions of an object key. *)
Definition updateTrackUploadStatus (key : string) (s : MultipartStatus) : M unit :=
  fun w =>
    (Ok tt,
     {| db := db_update key (entry_set_status s) (db w);
        trace := trace w ++ [DbUpdateTrackUploadStatus key s] |}).

End UploadLocksDBOps.
Import UploadLocksDBOps.

(** ** String helpers *)

(** [s.replaceAll(from, to)] for a non-empty pattern. *)
Fixpoint replaceAll_from (skip : nat) (from to s : string) : string :=
  match s with
  | EmptyString => EmptyString
  | String c s' =>
      match skip with
      | S k => replaceAll_from k from to s'
      | O =>
          if Stdlib.Strings.String.prefix from s
          then to +:+ replaceAll_from (Stdlib.Strings.String.length from - 1) from to s'
          else String c (replaceAll_from 0 from to s')
      end
  end.

Definition replaceAll (from to s : string) : string := replaceAll_from 0 from to s.

Definition double_quote : string := String (Ascii.ascii_of_nat 34) EmptyString.

(** [eTag?.isEmpty ?? true] *)
Definition etag_missing (eTag : option string) : bool :=
  match eTag with
  | Some s => bool_decide (s = EmptyString)
  | None => true
  end.

(** ** The uploader *)

(** The fields of a [MultiPartUploader] instance that the modelled methods
    read: the storage client and the feature flag.  The store [_db] is the
    [db] of the [World]. *)
Record MultiPartUploader := {
  _s3Dio : Network;
  internalUser : bool               (* [_featureFlagService.internalUser] *)
}.

Section Uploader.

(** Constants of [core/constants.dart] and the XML serializer of the
    [xml] model, none of which is part of the sources. *)
Variable multipartPartSize : Z.
Variable multipartPartSizeInternal : Z.
Variable convertJs2Xml : list (string * list PartETag) -> string.

Variable this : MultiPartUploader.

Definition multipartPartSizeForUpload : Z :=
  if internalUser this then multipartPartSizeInternal else multipartPartSize.

Definition calculatePartCount (fileSize : Z) : Result Z :=
  if negb (internalUser this) then Ok 1%Z
  else double_ceil (int_div fileSize multipartPartSizeForUpload).

Definition put (i : nat) (req : PutRequest) : M (option string) :=
  fun w =>
    let resp := s3_put (_s3Dio this) (trace w) req in
    let w' := log_event (S3Put i req resp) w in
    match resp with
    | PutOk etag => (Ok etag, w')
    | PutFailed e => (Throw e, w')
    end.

Definition post (req : PostRequest) : M unit :=
  fun w =>
    let resp := s3_post (_s3Dio this) (trace w) req in
    let w' := log_event (S3Post req resp) w in
    match resp with
    | PostOk => (Ok tt, w')
    | PostFailed e => (Throw e, w')
    end.

(** The loop "Go to the first part that is not uploaded". *)
Fixpoint firstNotUploaded (fuel : nat) (partUploadStatus : option (list bool))
    (i : nat) : nat :=
  match fuel with
  | O => i
  | S fuel' =>
      if (i <? default 0%nat (length <$> partUploadStatus))%nat
         && default false (partUploadStatus ≫= (.!! i))
      then firstNotUploaded fuel' partUploadStatus (S i)
      else i
  end.

(** One iteration of the loop "Start parts upload": the body for part [i],
    returning the updated [etags].  The call of [_logger.info] has no effect
    on the upload and is left out. *)
Definition uploadPart (key : string) (partsURLs : list string)
    (partSize : Z) (encryptedFile : File) (i : nat) (etags : ETagMap)
    : M ETagMap :=
  let partsLength := length partsURLs in
  match partsURLs !! i with
  | None => throw (Exception_ "RangeError")
  | Some partURL =>
      let isLastPart := (i =? partsLength - 1)%nat in
      fileSize <-
        (if isLastPart
         then lift (int_mod (lengthSync encryptedFile) partSize)
         else ret partSize) ;;
      eTag <-
        put i
          {| put_url := partURL;
             data_start := wrap64 (Z.of_nat i * partSize);
             data_end :=
               if isLastPart then None
               else Some (wrap64 ((Z.of_nat i + 1) * partSize));
             contentLength := fileSize |} ;;
      if etag_missing eTag then throw (Exception_ "ETAG_MISSING")
      else
        let eTag := default EmptyString eTag in
        let etags := etag_put i eTag etags in
        updatePartStatus key i eTag ;;;
        ret etags
  end.

(** The loop itself, [while (i < partsLength) { ...; i++; }]; [fuel] is
    the number of iterations left, [partsLength - i]. *)
Fixpoint uploadLoop (fuel : nat) (key : string) (partsURLs : list string)
    (partSize : Z) (encryptedFile : File) (i : nat) (etags : ETagMap)
    : M ETagMap :=
  match fuel with
  | O => ret etags
  | S fuel' =>
      if (i <? length partsURLs)%nat then
        etags <- uploadPart key partsURLs partSize encryptedFile i etags ;;
        uploadLoop fuel' key partsURLs partSize encryptedFile (S i) etags
      else ret etags
  end.

Definition _uploadParts (partInfo : MultipartInfo) (encryptedFile : File)
    : M ETagMap :=
  let partsURLs := partsURLs (urls partInfo) in
  let partUploadStatus := partUploadStatus partInfo in
  let partsLength := length partsURLs in
  let etags := default [] (partETags partInfo) in
  let partSize := default multipartPartSizeForUpload (partSize partInfo) in
  let i :=
    firstNotUploaded (default 0%nat (length <$> partUploadStatus))
      partUploadStatus 0 in
  etags <-
    uploadLoop (partsLength - i) (objectKey (urls partInfo)) partsURLs
      partSize encryptedFile i etags ;;
  updateTrackUploadStatus (objectKey (urls partInfo)) uploaded ;;;
  ret etags.

(** The list handed to the serializer. *)
Definition completionParts (partEtags : ETagMap) : list PartETag :=
  map (fun e => {| partNumber := e.1 + 1; eTag := e.2 |}) partEtags.

Definition completionBody (partEtags : ETagMap) : string :=
  replaceAll "&quot;" EmptyString
    (replaceAll double_quote EmptyString
       (convertJs2Xml [("CompleteMultipartUpload", completionParts partEtags)])).

Definition _completeMultipartUpload (key : string) (partEtags : ETagMap)
    (completeURL : string) : M unit :=
  let body := completionBody partEtags in
  (* try ... catch (e) { log; rethrow; } *)
  post {| post_url := completeURL; post_body := body;
          contentType := "text/xml" |} ;;;
  updateTrackUploadStatus key completed.

Definition putExistingMultipartFile (encryptedFile : File) (localId : string)
    (fileHash : string) (collectionID : Z) : M string :=
  multipartInfo <- getCachedLinks (localId, fileHash, collectionID) ;;
  updateLastAttempted (localId, fileHash, collectionID) ;;;
  let etags := default [] (partETags multipartInfo) in
  etags <-
    (if decide (status multipartInfo = pending)
     then _uploadParts multipartInfo encryptedFile
     else ret etags) ;;
  (if decide (status multipartInfo ≠ completed)
   then _completeMultipartUpload (objectKey (urls multipartInfo)) etags
          (completeURL (urls multipartInfo))
   else ret tt) ;;;
  ret (objectKey (urls multipartInfo)).

Definition putMultipartFile (urls : MultipartUploadURLs) (encryptedFile : File)
    : M string :=
  etags <- _uploadParts (MultipartInfo_of_urls urls) encryptedFile ;;
  _completeMultipartUpload (objectKey urls) etags (completeURL urls) ;;;
  ret (objectKey urls).

End Uploader.

(** * Lemmas *)

(** ** Rounding and the ceiling of a quotient *)

Section RoundingFacts.
Local Open Scope Z_scope.

(** The exact ceiling of [s / p], in the spec's words. *)
Definition ceil_div (s p : Z) : Z := - ((- s) / p).

Lemma ceil_div_spec s p c :
  0 < p -> (c - 1) * p < s <= c * p -> ceil_div s p = c.
Proof.
  intros Hp [Hlo Hhi]. unfold ceil_div.
  assert (- s / p = - c); [|lia].
  symmetry. apply Z.div_unique with (r := c * p - s); lia.
Qed.

Lemma ceil_div_bounds s p :
  0 < p -> (ceil_div s p - 1) * p < s <= ceil_div s p * p.
Proof.
  intros Hp. unfold ceil_div.
  pose proof (Z.div_mod (- s) p ltac:(lia)) as Hd.
  pose proof (Z.mod_pos_bound (- s) p Hp) as Hm.
  nia.
Qed.

(** [rne_div] is within half a unit of the exact quotient. *)
Lemma rne_div_error n d :
  0 < d -> - d <= 2 * (rne_div n d * d - n) <= d.
Proof.
  intros Hd. unfold rne_div.
  pose proof (Z.div_mod n d ltac:(lia)) as Hdm.
  pose proof (Z.mod_pos_bound n d Hd) as Hm.
  destruct (Z.compare_spec (2 * (n mod d)) d);
    [destruct (Z.even (n / d))| |]; nia.
Qed.

Lemma scaled_pos n d e :
  0 < n -> 0 < d -> 0 < (scaled n d e).1 /\ 0 < (scaled n d e).2.
Proof.
  intros Hn Hd. unfold scaled; simpl.
  assert (0 < 2 ^ Z.max 0 (- e)) by (apply Z.pow_pos_nonneg; lia).
  assert (0 < 2 ^ Z.max 0 e) by (apply Z.pow_pos_nonneg; lia).
  split; nia.
Qed.

(** After normalisation the scaled quotient is at least [2 ^ 52]. *)
Lemma exponent_of_normal n d :
  0 < n -> 0 < d ->
  2 ^ 52 * (scaled n d (exponent_of n d)).2 <= (scaled n d (exponent_of n d)).1.
Proof.
  intros Hn Hd.
  destruct (Z.log2_spec n Hn) as [Hn1 Hn2].
  destruct (Z.log2_spec d Hd) as [Hd1 Hd2].
  pose proof (Z.log2_nonneg n) as Han. pose proof (Z.log2_nonneg d) as Hbn.
  set (a := Z.log2 n) in *. set (b := Z.log2 d) in *.
  rewrite Z.pow_succ_r in Hn2, Hd2 by lia.
  assert (H0 : 2 ^ 52 * (scaled n d (a - b - 53)).2
               <= (scaled n d (a - b - 53)).1).
  { unfold scaled; simpl.
    destruct (Z.le_gt_cases 0 (a - b - 53)) as [He|He].
    - rewrite (Z.max_l 0 (- _)), (Z.max_r 0 (a - b - 53)) by lia.
      rewrite Z.pow_0_r, Z.mul_1_r.
      assert (Hs : 2 ^ a = 2 ^ 53 * 2 ^ b * 2 ^ (a - b - 53)).
      { rewrite <- !Z.pow_add_r by lia. f_equal; lia. }
      assert (0 < 2 ^ (a - b - 53)) by (apply Z.pow_pos_nonneg; lia).
      assert (0 < 2 ^ b) by (apply Z.pow_pos_nonneg; lia).
      nia.
    - rewrite (Z.max_r 0 (- _)), (Z.max_l 0 (a - b - 53)) by lia.
      rewrite Z.pow_0_r, Z.mul_1_r.
      assert (Hs : 2 ^ a * 2 ^ (- (a - b - 53)) = 2 ^ 53 * 2 ^ b).
      { rewrite <- !Z.pow_add_r by lia. f_equal; lia. }
      assert (0 < 2 ^ (- (a - b - 53))) by (apply Z.pow_pos_nonneg; lia).
      assert (0 < 2 ^ b) by (apply Z.pow_pos_nonneg; lia).
      nia. }
  unfold exponent_of. fold a b.
  destruct (scaled n d (a - b - 53)) as [n0 d0] eqn:Es.
  destruct (Z.ltb_spec (n0 / d0) (2 ^ 53)) as [|Hge]; [by rewrite Es|].
  assert (Hd0 : 0 < d0).
  { pose proof (scaled_pos n d (a - b - 53) Hn Hd) as Hp.
    rewrite Es in Hp. tauto. }
  assert (Hn0 : 2 ^ 53 * d0 <= n0).
  { pose proof (Z.mul_div_le n0 d0 Hd0). nia. }
  revert Es. unfold scaled; simpl. intros [= <- <-].
  destruct (Z.le_gt_cases 0 (a - b - 53)) as [He|He].
  - rewrite (Z.max_l 0 (- _)), (Z.max_r 0 (a - b - 53 + 1)) by lia.
    rewrite (Z.max_l 0 (- _)), (Z.max_r 0 (a - b - 53)) in Hn0 by lia.
    rewrite Z.pow_add_r by lia. lia.
  - rewrite (Z.max_r 0 (- _)), (Z.max_l 0 (a - b - 53 + 1)) by lia.
    rewrite (Z.max_r 0 (- _)), (Z.max_l 0 (a - b - 53)) in Hn0 by lia.
    replace (- (a - b - 53)) with (- (a - b - 53 + 1) + 1) in Hn0 by lia.
    rewrite Z.pow_add_r in Hn0 by lia. lia.
Qed.

(** Rounding the quotient of two integers, the numerator below [2 ^ 53],
    keeps its ceiling: the rounded value lies strictly above the integer
    below the quotient and not above the integer at or above it. *)
Lemma round_pos_ceil a b t :
  0 < a < 2 ^ 53 -> 0 < b -> 0 < t ->
  let '(m, e) := round_pos (a * t) (b * t) in
  e <= 0 /\ 0 < m /\ ceil_div m (2 ^ (- e)) = ceil_div a b.
Proof.
  intros Ha Hb Ht. unfold round_pos.
  pose proof (exponent_of_normal (a * t) (b * t) ltac:(nia) ltac:(nia)) as Hnorm.
  set (e := exponent_of (a * t) (b * t)) in *.
  pose proof (scaled_pos (a * t) (b * t) e ltac:(nia) ltac:(nia)) as [HN HD].
  destruct (scaled (a * t) (b * t) e) as [N D] eqn:Es.
  simpl in Hnorm, HN, HD.
  pose proof (rne_div_error N D HD) as Herr.
  set (m := rne_div N D) in *.
  revert Es. unfold scaled. intros [= EN ED].
  assert (He : e <= 0).
  { destruct (Z.le_gt_cases e 0) as [|Hpos]; [done|exfalso].
    rewrite (Z.max_l 0 (- e)) in EN by lia.
    rewrite (Z.max_r 0 e) in ED by lia.
    rewrite Z.pow_0_r in EN.
    assert (2 <= 2 ^ e).
    { change 2 with (2 ^ 1) at 1. apply Z.pow_le_mono_r; lia. }
    set (p := 2 ^ e) in *.
    assert (2 ^ 52 * (b * p) * t <= a * t) by lia.
    assert (2 ^ 52 * (b * p) <= a).
    { apply Z.mul_le_mono_pos_r with (p := t); lia. }
    nia. }
  rewrite (Z.max_r 0 (- e)) in EN by lia.
  rewrite (Z.max_l 0 e), Z.pow_0_r, Z.mul_1_r in ED by lia.
  set (k := 2 ^ (- e)) in *.
  assert (Hk : 0 < k) by (apply Z.pow_pos_nonneg; lia).
  pose proof (ceil_div_bounds a b Hb) as [Hlo Hhi].
  set (c := ceil_div a b) in *.
  (* the part size is below twice the scaling factor *)
  assert (Hbk : b < 2 * k).
  { assert (2 ^ 52 * b <= a * k) by nia. nia. }
  assert (Hup : m <= c * k).
  { assert (2 * m * (b * t) <= (2 * (c * k) + 1) * (b * t)) by nia.
    assert (2 * m <= 2 * (c * k) + 1); [|lia].
    apply Z.mul_le_mono_pos_r with (p := b * t); nia. }
  assert (Hdown : (c - 1) * k < m).
  { destruct (Z.lt_ge_cases ((c - 1) * k) m) as [|Hle]; [done|exfalso].
    assert (2 * (a * k) * t <= (2 * m + 1) * b * t) by nia.
    assert (2 * (a * k) <= (2 * m + 1) * b).
    { apply Z.mul_le_mono_pos_r with (p := t); nia. }
    assert (2 * k * (a - (c - 1) * b) <= b) by nia.
    nia. }
  split; [done|]. split; [nia|].
  apply ceil_div_spec; [done|lia].
Qed.

(** Integers below [2 ^ 53] convert to doubles exactly. *)
Lemma toDouble_exact a :
  0 < a < 2 ^ 53 ->
  exists k, 0 <= k /\ toDouble a = Finite (a * 2 ^ k) (- k).
Proof.
  intros Ha. unfold toDouble.
  destruct (Z.eqb_spec a 0) as [|_]; [lia|].
  destruct (Z.ltb_spec a 0) as [|_]; [lia|].
  rewrite Z.abs_eq by lia. unfold round_ratio, round_pos.
  pose proof (exponent_of_normal a 1 ltac:(lia) ltac:(lia)) as Hnorm.
  set (e := exponent_of a 1) in *.
  destruct (scaled a 1 e) as [N D] eqn:Es. simpl in Hnorm.
  revert Es. unfold scaled. intros [= EN ED].
  assert (He : e <= 0).
  { destruct (Z.le_gt_cases e 0) as [|Hpos]; [done|exfalso].
    rewrite (Z.max_l 0 (- e)) in EN by lia.
    rewrite (Z.max_r 0 e) in ED by lia.
    rewrite Z.pow_0_r in EN.
    assert (2 <= 2 ^ e).
    { change 2 with (2 ^ 1) at 1. apply Z.pow_le_mono_r; lia. }
    nia. }
  rewrite (Z.max_r 0 (- e)) in EN by lia.
  rewrite (Z.max_l 0 e), Z.pow_0_r in ED by lia. simpl in ED.
  exists (- e). split; [lia|].
  pose proof (rne_div_error N D ltac:(lia)) as Herr.
  replace (- - e) with e by lia. f_equal. lia.
Qed.

(** [(a / b).ceil()] on ints below [2 ^ 53] is the exact ceiling. *)
Lemma int_div_ceil a b :
  0 < a < 2 ^ 53 -> 0 < b < 2 ^ 53 ->
  double_ceil (int_div a b) = Ok (ceil_div a b).
Proof.
  intros Ha Hb. unfold int_div.
  destruct (toDouble_exact a Ha) as (ka & Hka & ->).
  destruct (toDouble_exact b Hb) as (kb & Hkb & ->).
  assert (0 < 2 ^ ka) by (apply Z.pow_pos_nonneg; lia).
  assert (0 < 2 ^ kb) by (apply Z.pow_pos_nonneg; lia).
  unfold double_div.
  destruct (Z.eqb_spec (b * 2 ^ kb) 0) as [|_]; [nia|].
  destruct (Z.eqb_spec (a * 2 ^ ka) 0) as [|_]; [nia|].
  destruct (Z.ltb_spec (a * 2 ^ ka) 0) as [|_]; [nia|].
  destruct (Z.ltb_spec (b * 2 ^ kb) 0) as [|_]; [nia|].
  rewrite !Z.abs_eq by nia. simpl xorb.
  set (t := 2 ^ Z.max ka kb).
  assert (Ht : 0 < t) by (apply Z.pow_pos_nonneg; lia).
  assert (En : a * 2 ^ ka * 2 ^ Z.max 0 (- ka - - kb) = a * t).
  { rewrite <- Z.mul_assoc, <- Z.pow_add_r by lia. unfold t. do 2 f_equal. lia. }
  assert (Ed : b * 2 ^ kb * 2 ^ Z.max 0 (- kb - - ka) = b * t).
  { rewrite <- Z.mul_assoc, <- Z.pow_add_r by lia. unfold t. do 2 f_equal. lia. }
  rewrite En, Ed. unfold round_ratio.
  pose proof (round_pos_ceil a b t Ha ltac:(lia) Ht) as Hr.
  destruct (round_pos (a * t) (b * t)) as [m e].
  destruct Hr as (He & Hm & Hc). unfold double_ceil. f_equal.
  pose proof (ceil_div_bounds a b ltac:(lia)) as Hcb.
  assert (Hrange : 0 < ceil_div a b < 2 ^ 53) by nia.
  assert (Hval : (if 0 <=? e then m * 2 ^ e else - (- m / 2 ^ (- e)))
                 = ceil_div a b).
  { destruct (Z.leb_spec 0 e).
    - assert (e = 0) as -> by lia. rewrite <- Hc. unfold ceil_div. simpl.
      rewrite Z.div_1_r. lia.
    - exact Hc. }
  rewrite Hval. unfold clamp64, int_min, int_max. lia.
Qed.

End RoundingFacts.

(** ** Reading a trace *)

Definition put_index (ev : Event) : option nat :=
  match ev with S3Put i _ _ => Some i | _ => None end.

(** Part indices sent to the storage endpoint, in order. *)
Definition put_indices (tr : list Event) : list nat := omap put_index tr.

(** Declared Content-Length of each part sent, in order. *)
Definition declared_lengths (tr : list Event) : list Z :=
  omap (fun ev => match ev with
                  | S3Put _ req _ => Some (contentLength req)
                  | _ => None
                  end) tr.

Definition post_body_of (ev : Event) : option string :=
  match ev with S3Post req _ => Some (post_body req) | _ => None end.

(** Bodies of the finalize calls made, in order. *)
Definition posts (tr : list Event) : list string := omap post_body_of tr.

(** Statuses written for an object key, in order. *)
Definition status_writes (key : string) (tr : list Event) : list MultipartStatus :=
  omap (fun ev => match ev with
                  | DbUpdateTrackUploadStatus key' s =>
                      if decide (key' = key) then Some s else None
                  | _ => None
                  end) tr.

(** Index of the first [false] of a status list (its length if there is
    none). *)
Fixpoint first_false (l : list bool) : nat :=
  match l with
  | true :: l' => S (first_false l')
  | _ => 0
  end.

Lemma put_indices_app tr1 tr2 :
  put_indices (tr1 ++ tr2) = put_indices tr1 ++ put_indices tr2.
Proof. apply omap_app. Qed.

Lemma posts_app tr1 tr2 : posts (tr1 ++ tr2) = posts tr1 ++ posts tr2.
Proof. apply omap_app. Qed.

Lemma status_writes_app key tr1 tr2 :
  status_writes key (tr1 ++ tr2) = status_writes key tr1 ++ status_writes key tr2.
Proof. apply omap_app. Qed.

(** ** One part, and the loop over parts *)

Section PartLoop.

Variable this : MultiPartUploader.

Variable key : string.
Variable partsURLs : list string.
Variable partSize : Z.
Variable encryptedFile : File.

(** The request the loop body builds for part [i]. *)
Definition partRequest (i : nat) (partURL : string) : PutRequest :=
  let isLastPart := (i =? length partsURLs - 1)%nat in
  {| put_url := partURL;
     data_start := wrap64 (Z.of_nat i * partSize);
     data_end :=
       if isLastPart then None else Some (wrap64 ((Z.of_nat i + 1) * partSize));
     contentLength :=
       if isLastPart then (lengthSync encryptedFile mod Z.abs partSize)%Z
       else partSize |}.

(** The remainder of the final part can be computed. *)
Definition sendable (i : nat) : Prop :=
  i = (length partsURLs - 1)%nat -> partSize <> 0%Z.

(** The four ways one iteration can end. *)
Inductive part_outcome (i : nat) (etags : ETagMap) (w : World)
  : Result ETagMap * World -> Prop :=
| part_division_by_zero :
    i = (length partsURLs - 1)%nat -> partSize = 0%Z ->
    part_outcome i etags w (Throw IntegerDivisionByZeroException, w)
| part_put_failed partURL e :
    partsURLs !! i = Some partURL ->
    sendable i ->
    s3_put (_s3Dio this) (trace w) (partRequest i partURL) = PutFailed e ->
    part_outcome i etags w
      (Throw e, log_event (S3Put i (partRequest i partURL) (PutFailed e)) w)
| part_etag_missing partURL o :
    partsURLs !! i = Some partURL ->
    sendable i ->
    s3_put (_s3Dio this) (trace w) (partRequest i partURL) = PutOk o ->
    etag_missing o = true ->
    part_outcome i etags w
      (Throw (Exception_ "ETAG_MISSING"),
       log_event (S3Put i (partRequest i partURL) (PutOk o)) w)
| part_uploaded partURL s :
    partsURLs !! i = Some partURL ->
    sendable i ->
    s3_put (_s3Dio this) (trace w) (partRequest i partURL) = PutOk (Some s) ->
    s <> EmptyString ->
    part_outcome i etags w
      (Ok (etag_put i s etags),
       {| db := db_update key (entry_set_part i s) (db w);
          trace := trace w ++ [S3Put i (partRequest i partURL) (PutOk (Some s));
                               DbUpdatePartStatus key i s] |}).

Lemma uploadPart_outcome i etags w :
  (i < length partsURLs)%nat ->
  part_outcome i etags w
    (uploadPart this key partsURLs partSize encryptedFile i etags w).
Proof.
  intros Hi. unfold uploadPart.
  destruct (lookup_lt_is_Some_2 partsURLs i Hi) as [partURL Hurl].
  rewrite Hurl. unfold bind, lift, ret, int_mod.
  pose proof (part_put_failed i etags w partURL) as Hf.
  pose proof (part_etag_missing i etags w partURL) as Hm.
  pose proof (part_uploaded i etags w partURL) as Hu.
  unfold partRequest in Hf, Hm, Hu.
  assert (Hsend : (i =? length partsURLs - 1)%nat && (partSize =? 0)%Z = false
                  -> sendable i).
  { intros Hb Hlast. subst i. rewrite Nat.eqb_refl in Hb. simpl in Hb.
    by apply Z.eqb_neq. }
  destruct (i =? length partsURLs - 1)%nat eqn:Hlast;
    [destruct (Z.eqb_spec partSize 0) as [Hz|Hz];
       [apply Nat.eqb_eq in Hlast; by constructor|]|];
    specialize (Hsend ltac:(simpl; by try apply Z.eqb_neq));
    unfold put; simpl;
    (match goal with |- context [s3_put _ _ ?r] =>
       destruct (s3_put (_s3Dio this) (trace w) r) as [o|e] eqn:Hresp end;
     [|by apply Hf]);
    (destruct (etag_missing o) eqn:Ho; [by apply Hm|]);
    (destruct o as [s|]; [|done]); simpl in Ho;
    apply bool_decide_eq_false in Ho; simpl;
    unfold throw, updatePartStatus; simpl;
    rewrite <- app_assoc; by apply Hu.
Qed.

(** Invariant rule for the loop: an invariant kept by every successful
    iteration holds when the loop ends, and whatever holds of a failing
    iteration holds of the loop. *)
Lemma uploadLoop_rule (Inv : nat -> ETagMap -> World -> Prop)
    (Post : Result ETagMap * World -> Prop) :
  (forall i etags w,
      Inv i etags w -> (length partsURLs <= i)%nat -> Post (Ok etags, w)) ->
  (forall i etags w r w',
      Inv i etags w -> (i < length partsURLs)%nat ->
      part_outcome i etags w (r, w') ->
      match r with
      | Ok etags' => Inv (S i) etags' w'
      | Throw e => Post (Throw e, w')
      end) ->
  forall fuel i etags w,
    fuel = (length partsURLs - i)%nat ->
    Inv i etags w ->
    Post (uploadLoop this fuel key partsURLs partSize encryptedFile i etags w).
Proof.
  intros Hend Hstep fuel.
  induction fuel as [|fuel IH]; intros i etags w Hfuel HInv; simpl.
  - apply (Hend i); [done|lia].
  - destruct (Nat.ltb_spec i (length partsURLs)) as [Hi|Hi]; [|lia].
    unfold bind.
    pose proof (uploadPart_outcome i etags w Hi) as Hout.
    destruct (uploadPart this key partsURLs partSize encryptedFile i etags w)
      as [[etags'|e] w'] eqn:Hrun.
    + specialize (Hstep i etags w (Ok etags') w' HInv Hi Hout). simpl in Hstep.
      apply IH; [lia|done].
    + exact (Hstep i etags w (Throw e) w' HInv Hi Hout).
Qed.

(** *** What a run of the loop leaves behind *)

Definition url_at (i : nat) : string := default EmptyString (partsURLs !! i).

(** Recording the parts [i], [i + 1], ... with the identifiers [ss]. *)
Fixpoint record_parts (i : nat) (ss : list string) (e : TrackUploadsEntry)
  : TrackUploadsEntry :=
  match ss with
  | [] => e
  | s :: ss' => record_parts (S i) ss' (entry_set_part i s e)
  end.

Fixpoint put_etags (i : nat) (ss : list string) (m : ETagMap) : ETagMap :=
  match ss with
  | [] => m
  | s :: ss' => put_etags (S i) ss' (etag_put i s m)
  end.

(** The events of the successful uploads of parts [i], [i + 1], ... *)
Fixpoint parts_events (i : nat) (ss : list string) : list Event :=
  match ss with
  | [] => []
  | s :: ss' =>
      S3Put i (partRequest i (url_at i)) (PutOk (Some s))
      :: DbUpdatePartStatus key i s
      :: parts_events (S i) ss'
  end.

Definition after_parts (i : nat) (ss : list string) (w : World) : World :=
  {| db := db_update key (record_parts i ss) (db w);
     trace := trace w ++ parts_events i ss |}.

Lemma record_parts_snoc i ss s e :
  record_parts i (ss ++ [s]) e
  = entry_set_part (i + length ss) s (record_parts i ss e).
Proof.
  revert i e. induction ss as [|s' ss IH]; intros i e; simpl.
  - by rewrite Nat.add_0_r.
  - by rewrite IH, Nat.add_succ_r.
Qed.

Lemma put_etags_snoc i ss s m :
  put_etags i (ss ++ [s]) m = etag_put (i + length ss) s (put_etags i ss m).
Proof.
  revert i m. induction ss as [|s' ss IH]; intros i m; simpl.
  - by rewrite Nat.add_0_r.
  - by rewrite IH, Nat.add_succ_r.
Qed.

Lemma parts_events_snoc i ss s :
  parts_events i (ss ++ [s])
  = parts_events i ss
    ++ [S3Put (i + length ss) (partRequest (i + length ss) (url_at (i + length ss)))
          (PutOk (Some s));
        DbUpdatePartStatus key (i + length ss) s].
Proof.
  revert i. induction ss as [|s' ss IH]; intros i; simpl.
  - by rewrite Nat.add_0_r.
  - by rewrite IH, !Nat.add_succ_r.
Qed.

Lemma record_parts_urls i ss e : entry_urls (record_parts i ss e) = entry_urls e.
Proof.
  revert i e. induction ss as [|s ss IH]; intros i e; simpl; [done|by rewrite IH].
Qed.

Lemma record_parts_status i ss e :
  entry_status (record_parts i ss e) = entry_status e.
Proof.
  revert i e. induction ss as [|s ss IH]; intros i e; simpl; [done|by rewrite IH].
Qed.

Lemma db_update_compose (f g : TrackUploadsEntry -> TrackUploadsEntry)
    (d : UploadLocksDB) :
  (forall e, entry_urls (g e) = entry_urls e) ->
  db_update key f (db_update key g d) = db_update key (fun e => f (g e)) d.
Proof.
  intros Hg. unfold db_update. rewrite <- map_fmap_compose.
  apply map_fmap_ext. intros sk e _. simpl. unfold entry_of_key.
  destruct (bool_decide (objectKey (entry_urls e) = key)) eqn:He.
  - by rewrite Hg, He.
  - by rewrite He.
Qed.

Lemma after_parts_snoc i ss s w :
  {| db := db_update key (entry_set_part (i + length ss) s) (db (after_parts i ss w));
     trace := trace (after_parts i ss w)
              ++ [S3Put (i + length ss)
                    (partRequest (i + length ss) (url_at (i + length ss)))
                    (PutOk (Some s));
                  DbUpdatePartStatus key (i + length ss) s] |}
  = after_parts i (ss ++ [s]) w.
Proof.
  unfold after_parts. simpl. f_equal.
  - rewrite db_update_compose by apply record_parts_urls.
    unfold db_update. apply map_fmap_ext. intros sk e _. simpl.
    by rewrite record_parts_snoc.
  - by rewrite parts_events_snoc, app_assoc.
Qed.

(** How the loop ended after recording the parts [i .. i + |ss| - 1]:
    normally, or in a part that failed. *)
Definition loop_summary (i : nat) (etags : ETagMap) (w : World) (ss : list string)
    (out : Result ETagMap * World) : Prop :=
  Forall (fun s => s <> EmptyString) ss /\
  (ss = [] \/ (i + length ss <= length partsURLs)%nat) /\
  ((length partsURLs <= i + length ss)%nat /\
     out = (Ok (put_etags i ss etags), after_parts i ss w)
   \/
   (i + length ss < length partsURLs)%nat /\
     exists e w', out = (Throw e, w') /\
       part_outcome (i + length ss) (put_etags i ss etags) (after_parts i ss w)
         (Throw e, w')).

Lemma after_parts_nil i w : after_parts i [] w = w.
Proof.
  destruct w as [d tr]. unfold after_parts. simpl. f_equal.
  - unfold db_update. rewrite <- (map_fmap_id d) at 2.
    apply map_fmap_ext. intros sk e _. simpl. by destruct (entry_of_key key e).
  - apply app_nil_r.
Qed.

Lemma uploadLoop_summary i etags w :
  exists ss,
    loop_summary i etags w ss
      (uploadLoop this (length partsURLs - i) key partsURLs partSize
         encryptedFile i etags w).
Proof.
  apply (uploadLoop_rule
           (fun i' etags' w' =>
              exists ss, Forall (fun s => s <> EmptyString) ss /\
                (ss = [] \/ (i + length ss <= length partsURLs)%nat) /\
                i' = (i + length ss)%nat /\ etags' = put_etags i ss etags /\
                w' = after_parts i ss w)
           (fun out => exists ss, loop_summary i etags w ss out)).
  - intros i' etags' w' (ss & Hss & Hb & -> & -> & ->) Hend.
    exists ss. split; [done|]. split; [done|]. by left.
  - intros i' etags' w' r w'' (ss & Hss & Hb & -> & -> & ->) Hlt Hout.
    destruct r as [etags''|e].
    + inversion Hout as [| | |partURL s Hurl Hsend Hresp Hs]; subst.
      exists (ss ++ [s]). split; [apply Forall_app; by repeat constructor|].
      rewrite length_app, put_etags_snoc. simpl.
      split; [right; lia|]. split; [lia|]. split; [done|].
      rewrite <- after_parts_snoc. unfold url_at. by rewrite Hurl.
    + exists ss. split; [done|]. split; [done|]. right. split; [done|].
      by exists e, w''.
  - done.
  - exists []. rewrite after_parts_nil. simpl. rewrite Nat.add_0_r.
    repeat split; try done. by left.
Qed.

End PartLoop.

(** ** The entry points, unfolded *)

Lemma firstNotUploaded_from (l : list bool) (fuel i : nat) :
  (length l - i <= fuel)%nat ->
  firstNotUploaded fuel (Some l) i = (i + first_false (drop i l))%nat.
Proof.
  revert i. induction fuel as [|fuel IH]; intros i Hfuel; simpl.
  - rewrite drop_ge by lia. simpl. lia.
  - destruct (Nat.ltb_spec i (length l)) as [Hi|Hi]; simpl.
    + destruct (lookup_lt_is_Some_2 l i Hi) as [b Hb].
      rewrite (drop_S l b i Hb), Hb. simpl.
      destruct b; simpl; [|lia]. rewrite IH by lia. lia.
    + rewrite drop_ge by lia. simpl. lia.
Qed.

Lemma firstNotUploaded_None fuel i : firstNotUploaded fuel None i = i.
Proof. by destruct fuel. Qed.

Section EntryPoints.

Variable multipartPartSize : Z.
Variable multipartPartSizeInternal : Z.
Variable convertJs2Xml : list (string * list PartETag) -> string.
Variable this : MultiPartUploader.

(** Index at which [_uploadParts] starts, and the part size it uses. *)
Definition start_index (partInfo : MultipartInfo) : nat :=
  first_false (default [] (partUploadStatus partInfo)).

Definition part_size_of (partInfo : MultipartInfo) : Z :=
  default (multipartPartSizeForUpload multipartPartSize multipartPartSizeInternal this)
    (partSize partInfo).

Definition completionRequest (partEtags : ETagMap) (url : string) : PostRequest :=
  {| post_url := url;
     post_body := completionBody convertJs2Xml partEtags;
     contentType := "text/xml" |}.

Lemma _uploadParts_unfold partInfo encryptedFile w :
  _uploadParts multipartPartSize multipartPartSizeInternal this partInfo
    encryptedFile w
  = let key := objectKey (urls partInfo) in
    let us := partsURLs (urls partInfo) in
    match uploadLoop this (length us - start_index partInfo) key us
            (part_size_of partInfo) encryptedFile (start_index partInfo)
            (default [] (partETags partInfo)) w with
    | (Ok etags, w1) =>
        (Ok etags,
         {| db := db_update key (entry_set_status uploaded) (db w1);
            trace := trace w1 ++ [DbUpdateTrackUploadStatus key uploaded] |})
    | (Throw e, w1) => (Throw e, w1)
    end.
Proof.
  unfold _uploadParts, start_index, part_size_of, bind.
  destruct (partUploadStatus partInfo) as [l|]; simpl.
  - rewrite firstNotUploaded_from by lia.
    rewrite drop_0. simpl.
    by destruct (uploadLoop _ _ _ _ _ _ _ _ w) as [[etags|e] w1].
  - by destruct (uploadLoop _ _ _ _ _ _ _ _ w) as [[etags|e] w1].
Qed.

Lemma _completeMultipartUpload_unfold key partEtags url w :
  _completeMultipartUpload convertJs2Xml this key partEtags url w
  = match s3_post (_s3Dio this) (trace w) (completionRequest partEtags url) with
    | PostOk =>
        (Ok tt,
         {| db := db_update key (entry_set_status completed) (db w);
            trace := trace w ++ [S3Post (completionRequest partEtags url) PostOk;
                                 DbUpdateTrackUploadStatus key completed] |})
    | PostFailed e =>
        (Throw e,
         {| db := db w;
            trace := trace w ++ [S3Post (completionRequest partEtags url)
                                   (PostFailed e)] |})
    end.
Proof.
  unfold _completeMultipartUpload, bind, post, completionRequest.
  destruct (s3_post _ _ _); simpl; [|done].
  unfold updateTrackUploadStatus. simpl. by rewrite <- app_assoc.
Qed.

(** The world once the session was loaded and its last attempt touched. *)
Definition loaded (sk : SessionKey) (w : World) : World :=
  {| db := db w;
     trace := trace w ++ [DbGetCachedLinks sk; DbUpdateLastAttempted sk] |}.

Lemma putExistingMultipartFile_unfold encryptedFile localId fileHash collectionID w e :
  db w !! (localId, fileHash, collectionID) = Some e ->
  putExistingMultipartFile multipartPartSize multipartPartSizeInternal
    convertJs2Xml this encryptedFile localId fileHash collectionID w
  = let sk := (localId, fileHash, collectionID) in
    let key := objectKey (entry_urls e) in
    let complete etags w1 :=
      match _completeMultipartUpload convertJs2Xml this key etags
              (completeURL (entry_urls e)) w1 with
      | (Ok _, w2) => (Ok key, w2)
      | (Throw ex, w2) => (Throw ex, w2)
      end in
    match entry_status e with
    | completed => (Ok key, loaded sk w)
    | uploaded => complete (entry_partETags e) (loaded sk w)
    | pending =>
        match _uploadParts multipartPartSize multipartPartSizeInternal this
                (entry_info e) encryptedFile (loaded sk w) with
        | (Ok etags, w1) => complete etags w1
        | (Throw ex, w1) => (Throw ex, w1)
        end
    end.
Proof.
  intros He. unfold putExistingMultipartFile, bind, getCachedLinks.
  rewrite He. unfold updateLastAttempted, log_event, loaded. simpl.
  rewrite <- app_assoc. simpl.
  destruct (entry_status e) eqn:Hs; simpl.
  - destruct (_uploadParts _ _ _ _ _ _) as [[etags|ex] w1]; [|done].
    by destruct (_completeMultipartUpload _ _ _ _ _ _) as [[[]|ex] w2].
  - unfold ret.
    by destruct (_completeMultipartUpload _ _ _ _ _ _) as [[[]|ex] w2].
  - done.
Qed.

Lemma putExistingMultipartFile_not_found encryptedFile localId fileHash collectionID w :
  db w !! (localId, fileHash, collectionID) = None ->
  putExistingMultipartFile multipartPartSize multipartPartSizeInternal
    convertJs2Xml this encryptedFile localId fileHash collectionID w
  = (Throw (StateError "No cached links found"),
     log_event (DbGetCachedLinks (localId, fileHash, collectionID)) w).
Proof.
  intros He. unfold putExistingMultipartFile, bind, getCachedLinks. by rewrite He.
Qed.

Lemma putMultipartFile_unfold u encryptedFile w :
  putMultipartFile multipartPartSize multipartPartSizeInternal convertJs2Xml
    this u encryptedFile w
  = match _uploadParts multipartPartSize multipartPartSizeInternal this
            (MultipartInfo_of_urls u) encryptedFile w with
    | (Ok etags, w1) =>
        match _completeMultipartUpload convertJs2Xml this (objectKey u) etags
                (completeURL u) w1 with
        | (Ok _, w2) => (Ok (objectKey u), w2)
        | (Throw ex, w2) => (Throw ex, w2)
        end
    | (Throw ex, w1) => (Throw ex, w1)
    end.
Proof.
  unfold putMultipartFile, bind.
  destruct (_uploadParts _ _ _ _ _ _) as [[etags|ex] w1]; [|done].
  by destruct (_completeMultipartUpload _ _ _ _ _ _) as [[[]|ex] w2].
Qed.

End EntryPoints.

(** ** Shape of a run: parts, then completion *)

Lemma db_update_lookup (key : string) (f : TrackUploadsEntry -> TrackUploadsEntry)
    (d : UploadLocksDB) (sk : SessionKey) e :
  d !! sk = Some e ->
  objectKey (entry_urls e) = key ->
  db_update key f d !! sk = Some (f e).
Proof.
  intros He Hk. unfold db_update. rewrite lookup_fmap, He. simpl.
  unfold entry_of_key. by rewrite bool_decide_eq_true_2.
Qed.

Section Runs.

Variable multipartPartSize : Z.
Variable multipartPartSizeInternal : Z.
Variable convertJs2Xml : list (string * list PartETag) -> string.
Variable this : MultiPartUploader.

(** [_uploadParts] followed, when it returns, by [_completeMultipartUpload]:
    the body of [putMultipartFile] and of the pending case of
    [putExistingMultipartFile]. *)
Definition uploadAndComplete (partInfo : MultipartInfo) (encryptedFile : File)
    : M string :=
  fun w =>
    match _uploadParts multipartPartSize multipartPartSizeInternal this
            partInfo encryptedFile w with
    | (Ok etags, w1) =>
        match _completeMultipartUpload convertJs2Xml this
                (objectKey (urls partInfo)) etags
                (completeURL (urls partInfo)) w1 with
        | (Ok _, w2) => (Ok (objectKey (urls partInfo)), w2)
        | (Throw ex, w2) => (Throw ex, w2)
        end
    | (Throw ex, w1) => (Throw ex, w1)
    end.

Section OneRun.

Variable partInfo : MultipartInfo.
Variable encryptedFile : File.

Let key := objectKey (urls partInfo).
Let us := partsURLs (urls partInfo).
Let ps := part_size_of multipartPartSize multipartPartSizeInternal this partInfo.
Let k := start_index partInfo.
Let etags0 := default [] (partETags partInfo).

Definition recorded (ss : list string) : TrackUploadsEntry -> TrackUploadsEntry :=
  record_parts k ss.

Definition recorded_events (ss : list string) : list Event :=
  parts_events key us ps encryptedFile k ss.

Definition final_request (ss : list string) : PostRequest :=
  completionRequest convertJs2Xml (put_etags k ss etags0)
    (completeURL (urls partInfo)).

(** The three ways a run can go: a part fails after the parts [ss] were
    recorded; all parts are recorded and the finalize call fails; or the
    finalize call succeeds. *)
Inductive upload_run (w : World) : Result string * World -> Prop :=
| run_part_failed ss ex w' :
    Forall (fun s => s <> EmptyString) ss ->
    (k + length ss < length us)%nat ->
    part_outcome this key us ps encryptedFile (k + length ss)
      (put_etags k ss etags0)
      (after_parts key us ps encryptedFile k ss w) (Throw ex, w') ->
    upload_run w (Throw ex, w')
| run_completion_failed ss ex :
    Forall (fun s => s <> EmptyString) ss ->
    (ss = [] \/ (k + length ss <= length us)%nat) ->
    (length us <= k + length ss)%nat ->
    s3_post (_s3Dio this)
      (trace w ++ recorded_events ss ++ [DbUpdateTrackUploadStatus key uploaded])
      (final_request ss) = PostFailed ex ->
    upload_run w
      (Throw ex,
       {| db := db_update key (entry_set_status uploaded)
                  (db_update key (recorded ss) (db w));
          trace := trace w ++ recorded_events ss
                   ++ [DbUpdateTrackUploadStatus key uploaded;
                       S3Post (final_request ss) (PostFailed ex)] |})
| run_completed ss :
    Forall (fun s => s <> EmptyString) ss ->
    (ss = [] \/ (k + length ss <= length us)%nat) ->
    (length us <= k + length ss)%nat ->
    s3_post (_s3Dio this)
      (trace w ++ recorded_events ss ++ [DbUpdateTrackUploadStatus key uploaded])
      (final_request ss) = PostOk ->
    upload_run w
      (Ok key,
       {| db := db_update key (entry_set_status completed)
                  (db_update key (entry_set_status uploaded)
                     (db_update key (recorded ss) (db w)));
          trace := trace w ++ recorded_events ss
                   ++ [DbUpdateTrackUploadStatus key uploaded;
                       S3Post (final_request ss) PostOk;
                       DbUpdateTrackUploadStatus key completed] |}).

Lemma uploadAndComplete_run w :
  upload_run w (uploadAndComplete partInfo encryptedFile w).
Proof.
  unfold uploadAndComplete. rewrite _uploadParts_unfold. simpl.
  destruct (uploadLoop_summary this key us ps encryptedFile k etags0 w)
    as (ss & Hss & Hb & [[Hlen Hout]|(Hlen & ex & w' & Hout & Hpart)]);
    fold key us ps k etags0; rewrite Hout.
  - rewrite _completeMultipartUpload_unfold. simpl.
    fold key (final_request ss). rewrite <- !app_assoc. simpl.
    fold (recorded_events ss).
    destruct (s3_post _ _ _) as [|ex] eqn:Hpost.
    + rewrite <- ?app_assoc. simpl. by apply run_completed.
    + rewrite <- ?app_assoc. simpl. by apply run_completion_failed.
  - by eapply run_part_failed.
Qed.

End OneRun.

(** A failing part leaves the store as it was and logs at most the request
    that failed. *)
Lemma part_outcome_throw (key : string) (us : list string) (ps : Z) (f : File)
    (i : nat) (etags : ETagMap) (w : World) ex w' :
  part_outcome this key us ps f i etags w (Throw ex, w') ->
  db w' = db w /\
  (w' = w \/
   exists resp,
     trace w' = trace w ++ [S3Put i (partRequest us ps f i (url_at us i)) resp] /\
     (resp = PutFailed ex \/
      exists o, resp = PutOk o /\ etag_missing o = true
                /\ ex = Exception_ "ETAG_MISSING")).
Proof.
  inversion 1 as [|url e Hurl Hsend Hresp|url o Hurl Hsend Hresp Ho|]; subst.
  - split; [done|by left].
  - split; [done|right]. unfold url_at. rewrite Hurl. simpl. eauto.
  - split; [done|right]. unfold url_at. rewrite Hurl. simpl.
    eexists. split; [done|]. right. eauto.
Qed.

End Runs.

(** ** The order of the completion body *)

Definition part_numbers (l : list PartETag) : list nat := map partNumber l.

(** Each number is below the next one. *)
Fixpoint ascending (l : list nat) : bool :=
  match l with
  | a :: (b :: _) as l' => (a <? b)%nat && ascending l'
  | _ => true
  end.


Lemma part_numbers_completionParts m :
  part_numbers (completionParts m) = map S (map fst m).
Proof.
  unfold part_numbers, completionParts. rewrite !map_map.
  apply map_ext. intros [k v]. simpl. lia.
Qed.

Lemma etag_put_new_key (i : nat) (s : string) (m : ETagMap) :
  Forall (fun k => k <> i) (map fst m) ->
  map fst (etag_put i s m) = map fst m ++ [i].
Proof.
  induction m as [|[k v] m IH]; simpl; [done|].
  intros Hall. apply Forall_cons in Hall as [Hk Hall].
  destruct (Nat.eqb_spec i k); [congruence|]. simpl. by rewrite IH.
Qed.

(** Recording parts [i], [i + 1], ... on a map whose keys are [0 .. i - 1]
    in order leaves the keys in order. *)
Lemma put_etags_keys (i : nat) (ss : list string) (m : ETagMap) :
  map fst m = seq 0 i ->
  map fst (put_etags i ss m) = seq 0 (i + length ss).
Proof.
  revert i m. induction ss as [|s ss IH]; intros i m Hm; simpl.
  - by rewrite Nat.add_0_r.
  - rewrite (IH (S i)); [f_equal; lia|].
    rewrite etag_put_new_key, Hm, seq_S; [done|].
    rewrite Hm. apply Forall_forall. intros k Hk%elem_of_seq. lia.
Qed.

Lemma ascending_seq a n : ascending (seq a n) = true.
Proof.
  revert a. induction n as [|n IH]; intros a; [done|].
  destruct n as [|n]; [done|].
  specialize (IH (S a)). simpl in IH |- *. rewrite IH, andb_true_r.
  first [apply Nat.leb_refl | apply Nat.ltb_lt; lia].
Qed.

(** The remainder of an exact multiple is zero. *)
Lemma exact_multiple_remainder_zero (fileSize partSize n : Z) :
  fileSize = (n * partSize)%Z -> (fileSize mod Z.abs partSize)%Z = 0%Z.
Proof.
  intros ->. destruct (Z.abs_spec partSize) as [[Hs ->]|[Hs ->]].
  - destruct (Z.eq_dec partSize 0%Z) as [->|Hnz].
    + by rewrite Z.mul_0_r.
    + by apply Z.mod_mul.
  - replace (n * partSize)%Z with ((- n) * - partSize)%Z by lia.
    apply Z.mod_mul. lia.
Qed.

(** ** Events of the recorded parts *)

Section RecordedEvents.

Variable key : string.
Variable partsURLs : list string.
Variable partSize : Z.
Variable encryptedFile : File.

Local Abbreviation events := (parts_events key partsURLs partSize encryptedFile).

Lemma put_indices_parts_events (i : nat) (ss : list string) :
  put_indices (events i ss) = seq i (length ss).
Proof.
  revert i. induction ss as [|s ss IH]; intros i; simpl; [done|].
  f_equal. apply IH.
Qed.

Lemma posts_parts_events (i : nat) (ss : list string) : posts (events i ss) = [].
Proof. revert i. induction ss as [|s ss IH]; intros i; simpl; [done|apply IH]. Qed.

Lemma status_writes_parts_events (key' : string) (i : nat) (ss : list string) :
  status_writes key' (events i ss) = [].
Proof. revert i. induction ss as [|s ss IH]; intros i; simpl; [done|apply IH]. Qed.

End RecordedEvents.

(** ** Resuming an uploaded session *)

Section ResumeUploaded.

Variable multipartPartSize : Z.
Variable multipartPartSizeInternal : Z.
Variable convertJs2Xml : list (string * list PartETag) -> string.
Variable this : MultiPartUploader.

Local Abbreviation resume :=
  (putExistingMultipartFile multipartPartSize multipartPartSizeInternal
     convertJs2Xml this).

(** What resuming an uploaded session does: one finalize call, no part. *)
Lemma resume_uploaded (encryptedFile : File) (localId fileHash : string)
    (collectionID : Z) (w : World) (e : TrackUploadsEntry) :
  let sk := (localId, fileHash, collectionID) in
  let key := objectKey (entry_urls e) in
  let req := completionRequest convertJs2Xml (entry_partETags e)
               (completeURL (entry_urls e)) in
  db w !! sk = Some e ->
  entry_status e = uploaded ->
  exists resp,
    s3_post (_s3Dio this) (trace (loaded sk w)) req = resp /\
    resume encryptedFile localId fileHash collectionID w
    = match resp with
      | PostOk =>
          (Ok key,
           {| db := db_update key (entry_set_status completed) (db w);
              trace := trace w ++ [DbGetCachedLinks sk; DbUpdateLastAttempted sk;
                                   S3Post req PostOk;
                                   DbUpdateTrackUploadStatus key completed] |})
      | PostFailed ex =>
          (Throw ex,
           {| db := db w;
              trace := trace w ++ [DbGetCachedLinks sk; DbUpdateLastAttempted sk;
                                   S3Post req (PostFailed ex)] |})
      end.
Proof.
  intros sk key req He Hs. eexists. split; [done|].
  rewrite (putExistingMultipartFile_unfold _ _ _ _ _ _ _ _ _ e He), Hs. simpl.
  rewrite _completeMultipartUpload_unfold. fold req. simpl.
  destruct (s3_post _ _ _); simpl; by rewrite <- app_assoc.
Qed.

End ResumeUploaded.

(** ** Calls of the two entry points *)

Inductive Call :=
| Fresh (urls : MultipartUploadURLs) (encryptedFile : File)
| Resume (encryptedFile : File) (localId fileHash : string) (collectionID : Z).

Section Calls.

Variable multipartPartSize : Z.
Variable multipartPartSizeInternal : Z.
Variable convertJs2Xml : list (string * list PartETag) -> string.
Variable this : MultiPartUploader.

Definition run_call (c : Call) : M string :=
  match c with
  | Fresh u f =>
      putMultipartFile multipartPartSize multipartPartSizeInternal
        convertJs2Xml this u f
  | Resume f localId fileHash collectionID =>
      putExistingMultipartFile multipartPartSize multipartPartSizeInternal
        convertJs2Xml this f localId fileHash collectionID
  end.

Local Abbreviation run :=
  (uploadAndComplete multipartPartSize multipartPartSizeInternal convertJs2Xml this).

Lemma putMultipartFile_run (u : MultipartUploadURLs) (f : File) (w : World) :
  putMultipartFile multipartPartSize multipartPartSizeInternal convertJs2Xml
    this u f w
  = run (MultipartInfo_of_urls u) f w.
Proof. by rewrite putMultipartFile_unfold. Qed.

Lemma resume_pending_run (f : File) (localId fileHash : string) (collectionID : Z)
    (w : World) (e : TrackUploadsEntry) :
  db w !! (localId, fileHash, collectionID) = Some e ->
  entry_status e = pending ->
  putExistingMultipartFile multipartPartSize multipartPartSizeInternal
    convertJs2Xml this f localId fileHash collectionID w
  = run (entry_info e) f (loaded (localId, fileHash, collectionID) w).
Proof.
  intros He Hs.
  by rewrite (putExistingMultipartFile_unfold _ _ _ _ _ _ _ _ _ e He), Hs.
Qed.

(** The events a run of parts and completion appends. *)
Lemma upload_run_trace (partInfo : MultipartInfo) (f : File) (w : World) out :
  upload_run multipartPartSize multipartPartSizeInternal convertJs2Xml this
    partInfo f w out ->
  let key := objectKey (urls partInfo) in
  exists ss tail,
    Forall (fun s => s <> EmptyString) ss /\
    trace out.2
    = trace w
      ++ recorded_events multipartPartSize multipartPartSizeInternal this
           partInfo f ss
      ++ tail /\
    (tail = []
     \/ (exists i req resp,
           tail = [S3Put i req resp]
           /\ i = (start_index partInfo + length ss)%nat
           /\ (i < length (partsURLs (urls partInfo)))%nat
           /\ (forall s, resp = PutOk (Some s) -> s = EmptyString))
     \/ (exists req ex,
           tail = [DbUpdateTrackUploadStatus key uploaded;
                   S3Post req (PostFailed ex)])
     \/ (exists req,
           tail = [DbUpdateTrackUploadStatus key uploaded;
                   S3Post req PostOk;
                   DbUpdateTrackUploadStatus key completed])).
Proof.
  intros Hrun key. destruct Hrun as [ss ex w' Hss Hlen Hpart
                     |ss ex Hss Hb Hlen Hpost|ss Hss Hb Hlen Hpost].
  - exists ss. apply part_outcome_throw in Hpart as [_ [->|(resp & Htr & Hresp)]].
    + exists []. split; [done|]. split; [|by left]. simpl.
      by rewrite app_nil_r.
    + eexists. split; [done|]. simpl. rewrite Htr. simpl.
      split; [by rewrite <- app_assoc|]. right. left.
      do 3 eexists. split; [done|]. split; [done|]. split; [done|].
      intros s ->. destruct Hresp as [|(o & Ho & Hmiss & _)]; [done|].
      simplify_eq. simpl in Hmiss. by apply bool_decide_eq_true in Hmiss.
  - exists ss. eexists. split; [done|]. split; [done|]. right. right. left. eauto.
  - exists ss. eexists. split; [done|]. split; [done|]. right. right. right. eauto.
Qed.

End Calls.

(** ** Order of persistence *)

(** What must come immediately before a store write: before a part is
    recorded, the response to that part carrying the recorded, non-empty
    identifier; before the status completed is written, a finalize call that
    succeeded. *)
Definition confirmed_by (prev : option Event) (ev : Event) : Prop :=
  match ev with
  | DbUpdatePartStatus _ i etag =>
      etag <> EmptyString /\
      exists req, prev = Some (S3Put i req (PutOk (Some etag)))
  | DbUpdateTrackUploadStatus _ completed =>
      exists req, prev = Some (S3Post req PostOk)
  | _ => True
  end.

Fixpoint persistence_ordered (prev : option Event) (tr : list Event) : Prop :=
  match tr with
  | [] => True
  | ev :: tr' => confirmed_by prev ev /\ persistence_ordered (Some ev) tr'
  end.

(** Ordered whatever came before. *)
Definition self_ordered (tr : list Event) : Prop :=
  forall prev, persistence_ordered prev tr.

Lemma persistence_ordered_split prev pre ev post :
  persistence_ordered prev (pre ++ ev :: post) ->
  confirmed_by (match last pre with Some x => Some x | None => prev end) ev.
Proof.
  revert prev. induction pre as [|x pre IH]; intros prev; simpl.
  - tauto.
  - intros [_ Hrest]. specialize (IH _ Hrest).
    destruct pre as [|y pre]; [done|].
    rewrite last_cons_cons.
    destruct (last (y :: pre)) eqn:Hl; [done|]. by apply last_None in Hl.
Qed.

Lemma self_ordered_parts_events (key : string) (us : list string) (ps : Z)
    (f : File) (i : nat) (ss : list string) (tail : list Event) :
  Forall (fun s => s <> EmptyString) ss ->
  self_ordered tail ->
  self_ordered (parts_events key us ps f i ss ++ tail).
Proof.
  intros Hss Htail. revert i.
  induction Hss as [|s ss Hs Hss IH]; intros i prev; simpl; [apply Htail|].
  split; [done|]. split; [eauto|]. apply IH.
Qed.

Section PersistenceOrder.

Variable multipartPartSize : Z.
Variable multipartPartSizeInternal : Z.
Variable convertJs2Xml : list (string * list PartETag) -> string.
Variable this : MultiPartUploader.

Local Abbreviation call :=
  (run_call multipartPartSize multipartPartSizeInternal convertJs2Xml this).

Lemma upload_run_ordered (partInfo : MultipartInfo) (f : File) (w : World) out :
  upload_run multipartPartSize multipartPartSizeInternal convertJs2Xml this
    partInfo f w out ->
  exists new, trace out.2 = trace w ++ new /\ self_ordered new.
Proof.
  intros Hrun. apply upload_run_trace in Hrun as (ss & tail & Hss & Htr & Htail).
  eexists. split; [exact Htr|].
  apply self_ordered_parts_events; [done|].
  destruct Htail as [->|[(i & req & resp & -> & _)|[(req & ex & ->)|(req & ->)]]];
    intros prev; simpl; eauto 10.
Qed.

Lemma run_call_ordered (c : Call) (w : World) :
  exists new, trace (call c w).2 = trace w ++ new /\ self_ordered new.
Proof.
  destruct c as [u f|f localId fileHash collectionID]; simpl.
  - rewrite putMultipartFile_run.
    apply (upload_run_ordered (MultipartInfo_of_urls u) f w).
    apply uploadAndComplete_run.
  - destruct (db w !! (localId, fileHash, collectionID)) as [e|] eqn:He.
    + destruct (entry_status e) eqn:Hs.
      * rewrite (resume_pending_run _ _ _ _ _ _ _ _ _ e He Hs).
        destruct (upload_run_ordered (entry_info e) f
                    (loaded (localId, fileHash, collectionID) w) _
                    (uploadAndComplete_run _ _ _ _ _ _ _))
          as (new & Htr & Hord).
        eexists. rewrite Htr. simpl. rewrite <- app_assoc. split; [done|].
        intros prev. simpl. split; [done|]. split; [done|]. apply Hord.
      * destruct (resume_uploaded multipartPartSize multipartPartSizeInternal
                    convertJs2Xml this f localId fileHash collectionID w e He Hs)
          as (resp & _ & ->).
        destruct resp; eexists; (split; [done|]); intros prev; simpl; eauto 10.
      * rewrite (putExistingMultipartFile_unfold _ _ _ _ _ _ _ _ _ e He), Hs.
        eexists. split; [done|]. by intros prev.
    + rewrite putExistingMultipartFile_not_found by done.
      eexists. split; [done|]. by intros prev.
Qed.

End PersistenceOrder.

(** ** Monotonicity of the persisted status *)

(** Each status is at or after the one before it. *)
Fixpoint advances (s : MultipartStatus) (ws : list MultipartStatus) : Prop :=
  match ws with
  | [] => True
  | s' :: ws' => status_le s s' /\ advances s' ws'
  end.

Lemma advances_app s ws1 ws2 :
  advances s (ws1 ++ ws2)
  <-> advances s ws1 /\ advances (default s (last ws1)) ws2.
Proof.
  revert s. induction ws1 as [|s1 ws1 IH]; intros s; simpl; [tauto|].
  rewrite IH. destruct ws1 as [|s2 ws1]; simpl; [tauto|].
  destruct (last (s2 :: ws1)) eqn:Hl; simpl; [tauto|].
  by apply last_None in Hl.
Qed.

Lemma advances_from_completed ws :
  advances completed ws -> Forall (fun s => s = completed) ws.
Proof.
  induction ws as [|s ws IH]; simpl; [constructor|].
  intros [Hle Hrest]. assert (s = completed) as ->.
  { destruct s; unfold status_le in Hle; simpl in Hle; [lia..|done]. }
  constructor; [done|by apply IH].
Qed.

Lemma advances_after_completed s ws pre post :
  advances s ws ->
  s :: ws = pre ++ completed :: post ->
  Forall (fun s' => s' = completed) post.
Proof.
  revert s ws. induction pre as [|x pre IH]; intros s ws Hadv Heq; simpl in Heq.
  - injection Heq as -> ->. by apply advances_from_completed.
  - injection Heq as -> ->. destruct pre as [|y pre]; simpl in *.
    + apply (IH completed post); [tauto|done].
    + apply (IH y (pre ++ completed :: post)); [tauto|done].
Qed.

Section StatusMonotone.

Variable multipartPartSize : Z.
Variable multipartPartSizeInternal : Z.
Variable convertJs2Xml : list (string * list PartETag) -> string.
Variable this : MultiPartUploader.

Local Abbreviation call :=
  (run_call multipartPartSize multipartPartSizeInternal convertJs2Xml this).

(** Calls made one after the other; an exception ends a call, not the
    sequence. *)
Fixpoint run_calls (cs : list Call) (w : World) : World :=
  match cs with
  | [] => w
  | c :: cs' => run_calls cs' (call c w).2
  end.

Definition resumes (sk : SessionKey) (c : Call) : Prop :=
  match c with
  | Resume _ localId fileHash collectionID => (localId, fileHash, collectionID) = sk
  | Fresh _ _ => False
  end.

(** The calls the orchestrator makes on one session: resumes, after at most
    one fresh upload on the session as created. *)
Definition session_calls (sk : SessionKey) (e : TrackUploadsEntry)
    (cs : list Call) : Prop :=
  match cs with
  | Fresh u _ :: cs' =>
      u = entry_urls e /\ entry_status e = pending /\ Forall (resumes sk) cs'
  | _ => Forall (resumes sk) cs
  end.

(** The status a session has after the writes [ws]. *)
Definition status_after (s : MultipartStatus) (ws : list MultipartStatus)
  : MultipartStatus := default s (last ws).

Lemma upload_run_status (partInfo : MultipartInfo) (f : File) (w : World) out
    (sk : SessionKey) (e : TrackUploadsEntry) :
  upload_run multipartPartSize multipartPartSizeInternal convertJs2Xml this
    partInfo f w out ->
  db w !! sk = Some e ->
  objectKey (entry_urls e) = objectKey (urls partInfo) ->
  exists new e',
    trace out.2 = trace w ++ new
    /\ db out.2 !! sk = Some e'
    /\ entry_urls e' = entry_urls e
    /\ (status_writes (objectKey (entry_urls e)) new = []
        \/ status_writes (objectKey (entry_urls e)) new = [uploaded]
        \/ status_writes (objectKey (entry_urls e)) new = [uploaded; completed])
    /\ entry_status e'
       = status_after (entry_status e)
           (status_writes (objectKey (entry_urls e)) new).
Proof.
  intros Hrun He Hkey. rewrite Hkey.
  destruct Hrun as [ss ex w' Hss Hlen Hpart
    |ss ex Hss Hb Hlen Hpost|ss Hss Hb Hlen Hpost].
  - apply part_outcome_throw in Hpart as [Hdb Htr]. simpl.
    exists (drop (length (trace w)) (trace w')),
      (record_parts (start_index partInfo) ss e).
    assert (Hnew : exists tail,
               trace w' = trace w ++ parts_events (objectKey (urls partInfo))
                            (partsURLs (urls partInfo))
                            (part_size_of multipartPartSize
                               multipartPartSizeInternal this partInfo)
                            f (start_index partInfo) ss ++ tail
               /\ status_writes (objectKey (urls partInfo)) tail = []).
    { destruct Htr as [->|(resp & -> & _)].
      - exists []. simpl. by rewrite app_nil_r.
      - eexists. simpl. by rewrite <- app_assoc. }
    destruct Hnew as (tail & Htr' & Htail).
    rewrite Htr', drop_app_length. split; [done|].
    rewrite Hdb. simpl.
    split; [by apply db_update_lookup|].
    split; [apply record_parts_urls|].
    rewrite status_writes_app, status_writes_parts_events, Htail. simpl.
    split; [by left|]. apply record_parts_status.
  - eexists _, (entry_set_status uploaded
                  (record_parts (start_index partInfo) ss e)).
    simpl. split; [done|].
    split.
    { apply db_update_lookup; [by apply db_update_lookup|].
      by rewrite record_parts_urls. }
    split; [apply record_parts_urls|].
    unfold recorded_events.
    rewrite status_writes_app, status_writes_parts_events. simpl.
    rewrite decide_True by done. simpl. split; [by right; left|done].
  - eexists _, (entry_set_status completed
                  (entry_set_status uploaded
                     (record_parts (start_index partInfo) ss e))).
    simpl. split; [done|].
    split.
    { apply db_update_lookup;
        [apply db_update_lookup; [by apply db_update_lookup|]|];
        simpl; by rewrite record_parts_urls. }
    split; [apply record_parts_urls|].
    unfold recorded_events.
    rewrite status_writes_app, status_writes_parts_events. simpl.
    rewrite !decide_True by done. simpl. split; [by right; right|done].
Qed.

Lemma status_after_app s ws1 ws2 :
  status_after s (ws1 ++ ws2) = status_after (status_after s ws1) ws2.
Proof.
  unfold status_after. induction ws2 as [|s2 ws2 _] using rev_ind.
  - by rewrite app_nil_r.
  - by rewrite app_assoc, !last_snoc.
Qed.

(** What a call leaves of a session: its trace extended by [new], its row
    [e'], and the statuses written for it advancing from the row's. *)
Definition session_step (sk : SessionKey) (e : TrackUploadsEntry) (w w' : World)
    (new : list Event) (e' : TrackUploadsEntry) : Prop :=
  let ws := status_writes (objectKey (entry_urls e)) new in
  trace w' = trace w ++ new
  /\ db w' !! sk = Some e'
  /\ entry_urls e' = entry_urls e
  /\ advances (entry_status e) ws
  /\ entry_status e' = status_after (entry_status e) ws.

Lemma session_step_compose sk e w w1 w2 new1 e1 new2 e2 :
  session_step sk e w w1 new1 e1 ->
  session_step sk e1 w1 w2 new2 e2 ->
  session_step sk e w w2 (new1 ++ new2) e2.
Proof.
  intros (Htr1 & Hdb1 & Hu1 & Hadv1 & Hs1) (Htr2 & Hdb2 & Hu2 & Hadv2 & Hs2).
  unfold session_step. rewrite Hu1, Hs1 in *.
  rewrite status_writes_app, status_after_app.
  split; [by rewrite Htr2, Htr1, app_assoc|]. split; [done|].
  split; [congruence|]. split; [|done].
  apply advances_app. by split.
Qed.

Lemma advances_written s ws :
  s <> completed ->
  ws = [] \/ ws = [uploaded] \/ ws = [uploaded; completed] ->
  advances s ws.
Proof.
  intros Hs [-> | [-> | ->]]; simpl; unfold status_le;
    destruct s; simpl; try done; repeat split; lia.
Qed.

Lemma fresh_step (sk : SessionKey) (e : TrackUploadsEntry) (f : File) (w : World) :
  db w !! sk = Some e ->
  entry_status e <> completed ->
  exists new e',
    session_step sk e w (call (Fresh (entry_urls e) f) w).2 new e'.
Proof.
  intros He Hs. simpl. rewrite putMultipartFile_run.
  destruct (upload_run_status (MultipartInfo_of_urls (entry_urls e)) f w _ sk e
              (uploadAndComplete_run _ _ _ _ _ _ _) He eq_refl)
    as (new & e' & Htr & Hdb & Hu & Hws & Hst).
  exists new, e'. repeat split; try done. by apply advances_written.
Qed.

Lemma resume_step (sk : SessionKey) (e : TrackUploadsEntry) (c : Call) (w : World) :
  db w !! sk = Some e ->
  resumes sk c ->
  exists new e', session_step sk e w (call c w).2 new e'.
Proof.
  intros He Hc. destruct c as [|f localId fileHash collectionID]; [done|].
  simpl in Hc. subst sk. simpl.
  destruct (entry_status e) eqn:Hs.
  - rewrite (resume_pending_run _ _ _ _ _ _ _ _ _ e He Hs).
    destruct (upload_run_status (entry_info e) f
                (loaded (localId, fileHash, collectionID) w) _
                (localId, fileHash, collectionID) e
                (uploadAndComplete_run _ _ _ _ _ _ _) He eq_refl)
      as (new & e' & Htr & Hdb & Hu & Hws & Hst).
    exists ([DbGetCachedLinks (localId, fileHash, collectionID);
             DbUpdateLastAttempted (localId, fileHash, collectionID)] ++ new), e'.
    unfold session_step. rewrite status_writes_app. simpl.
    rewrite Htr. simpl. rewrite <- app_assoc. repeat split; try done.
    apply advances_written; [by rewrite Hs|done].
  - destruct (resume_uploaded multipartPartSize multipartPartSizeInternal
                convertJs2Xml this f localId fileHash collectionID w e He Hs)
      as (resp & _ & ->).
    destruct resp as [|ex].
    + eexists _, (entry_set_status completed e).
      unfold session_step. split; [simpl; done|]. simpl.
      rewrite decide_True by done. simpl.
      repeat split; try done.
      * by apply db_update_lookup.
      * rewrite Hs. unfold status_le. simpl. lia.
    + eexists _, e. unfold session_step. split; [simpl; done|]. simpl.
      by repeat split.
  - rewrite (putExistingMultipartFile_unfold _ _ _ _ _ _ _ _ _ e He), Hs.
    eexists _, e. unfold session_step. split; [simpl; done|]. simpl.
    by repeat split.
Qed.

Lemma resumes_steps (sk : SessionKey) (cs : list Call) :
  Forall (resumes sk) cs ->
  forall (e : TrackUploadsEntry) (w : World),
    db w !! sk = Some e ->
    exists new e', session_step sk e w (run_calls cs w) new e'.
Proof.
  induction 1 as [|c cs Hc Hcs IH]; intros e w He; simpl.
  - exists [], e. unfold session_step. simpl. rewrite app_nil_r. by repeat split.
  - destruct (resume_step sk e c w He Hc) as (new1 & e1 & Hstep1).
    destruct (IH e1 (call c w).2 (proj1 (proj2 Hstep1))) as (new2 & e2 & Hstep2).
    exists (new1 ++ new2), e2. by eapply session_step_compose.
Qed.

End StatusMonotone.

(** ** Flags and identifiers after recording parts *)

Lemma first_false_replicate (k m : nat) :
  first_false (replicate k true ++ replicate m false) = k.
Proof. induction k as [|k IH]; simpl; [by destruct m|by rewrite IH]. Qed.

Lemma first_false_prefix (l : list bool) (j : nat) :
  (j < first_false l)%nat -> l !! j = Some true.
Proof.
  revert j. induction l as [|[] l IH]; intros j Hj; simpl in *; try lia.
  destruct j as [|j]; [done|]. apply IH. lia.
Qed.

Lemma first_false_unique (l : list bool) (i : nat) :
  (forall j, (j < i)%nat -> l !! j = Some true) ->
  l !! i <> Some true ->
  first_false l = i.
Proof.
  revert i. induction l as [|b l IH]; intros i Hpre Hi.
  - destruct i as [|i]; [done|]. by specialize (Hpre 0%nat ltac:(lia)).
  - destruct i as [|i].
    + destruct b; [done|done].
    + pose proof (Hpre 0%nat ltac:(lia)) as H0. simpl in H0. injection H0 as ->.
      simpl. f_equal. apply IH; [|done].
      intros j Hj. apply (Hpre (S j)). lia.
Qed.

Lemma etag_get_put (j i : nat) (s : string) (m : ETagMap) :
  etag_get j (etag_put i s m) = if decide (j = i) then Some s else etag_get j m.
Proof.
  induction m as [|[k v] m IH]; simpl.
  - destruct (Nat.eqb_spec j i); by case_decide.
  - destruct (Nat.eqb_spec i k) as [->|Hik]; simpl.
    + destruct (Nat.eqb_spec j k); by case_decide.
    + destruct (Nat.eqb_spec j k) as [->|Hjk]; [by rewrite decide_False|done].
Qed.

Lemma etag_get_put_etags_other (j k : nat) (ss : list string) (m : ETagMap) :
  ~ (k <= j < k + length ss)%nat ->
  etag_get j (put_etags k ss m) = etag_get j m.
Proof.
  revert k m. induction ss as [|s ss IH]; intros k m Hj; simpl in *; [done|].
  rewrite IH by lia. rewrite etag_get_put. by rewrite decide_False by lia.
Qed.

Lemma etag_get_put_etags_in (k a : nat) (ss : list string) (s : string) (m : ETagMap) :
  ss !! a = Some s ->
  etag_get (k + a) (put_etags k ss m) = Some s.
Proof.
  revert k a m. induction ss as [|s' ss IH]; intros k a m Ha; [done|].
  destruct a as [|a]; simpl in *.
  - injection Ha as ->. rewrite etag_get_put_etags_other by lia.
    rewrite etag_get_put. by rewrite decide_True by lia.
  - replace (k + S a)%nat with (S k + a)%nat by lia. by apply IH.
Qed.

Lemma record_parts_etags (k : nat) (ss : list string) (e : TrackUploadsEntry) :
  entry_partETags (record_parts k ss e) = put_etags k ss (entry_partETags e).
Proof.
  revert k e. induction ss as [|s ss IH]; intros k e; simpl; [done|by rewrite IH].
Qed.

Lemma record_parts_partSize (k : nat) (ss : list string) (e : TrackUploadsEntry) :
  entry_partSize (record_parts k ss e) = entry_partSize e.
Proof.
  revert k e. induction ss as [|s ss IH]; intros k e; simpl; [done|by rewrite IH].
Qed.

Lemma record_parts_flags_other (j k : nat) (ss : list string) (e : TrackUploadsEntry) :
  ~ (k <= j < k + length ss)%nat ->
  entry_partUploadStatus (record_parts k ss e) !! j = entry_partUploadStatus e !! j.
Proof.
  revert k e. induction ss as [|s ss IH]; intros k e Hj; simpl in *; [done|].
  rewrite IH by lia. simpl. apply list_lookup_insert_ne. lia.
Qed.

Lemma record_parts_flags_in (j k : nat) (ss : list string) (e : TrackUploadsEntry) :
  (k <= j < k + length ss)%nat ->
  (j < length (entry_partUploadStatus e))%nat ->
  entry_partUploadStatus (record_parts k ss e) !! j = Some true.
Proof.
  revert k e. induction ss as [|s ss IH]; intros k e Hj Hlen; simpl in *; [lia|].
  destruct (decide (j = k)) as [->|Hne].
  - rewrite record_parts_flags_other by lia. simpl.
    by apply list_lookup_insert_eq.
  - apply IH; [lia|]. simpl. by rewrite length_insert.
Qed.

(** ** Events of the recorded parts, read back *)

(** Closes a goal whose hypothesis [H] puts an event in a list of events of
    other kinds. *)
Ltac no_such_event H :=
  rewrite ?elem_of_cons in H;
  repeat (destruct H as [?|H]; [done|]);
  by apply elem_of_nil in H.

Lemma parts_events_put (key : string) (us : list string) (ps : Z) (f : File)
    (k : nat) (ss : list string) (j : nat) (req : PutRequest) (resp : PutResponse) :
  S3Put j req resp ∈ parts_events key us ps f k ss ->
  exists a s, j = (k + a)%nat /\ ss !! a = Some s /\ resp = PutOk (Some s).
Proof.
  revert k. induction ss as [|s ss IH]; intros k Hin; simpl in Hin.
  - by apply elem_of_nil in Hin.
  - rewrite !elem_of_cons in Hin. destruct Hin as [Heq|[Heq|Hin]]; [|done|].
    + injection Heq as -> -> ->. exists 0%nat, s. by rewrite Nat.add_0_r.
    + destruct (IH _ Hin) as (a & s' & -> & Ha & ->).
      exists (S a), s'. split; [lia|done].
Qed.

Lemma parts_events_put_at (key : string) (us : list string) (ps : Z) (f : File)
    (k : nat) (ss : list string) (a : nat) (s : string) :
  ss !! a = Some s ->
  S3Put (k + a) (partRequest us ps f (k + a) (url_at us (k + a))) (PutOk (Some s))
  ∈ parts_events key us ps f k ss.
Proof.
  revert k a. induction ss as [|s' ss IH]; intros k a Ha; [done|].
  destruct a as [|a]; simpl in *.
  - injection Ha as ->. rewrite Nat.add_0_r. apply elem_of_cons. by left.
  - replace (k + S a)%nat with (S k + a)%nat by lia.
    do 2 (apply elem_of_cons; right). by apply IH.
Qed.

Lemma parts_events_recorded (key : string) (us : list string) (ps : Z) (f : File)
    (k : nat) (ss : list string) (key' : string) (j : nat) (s : string) :
  DbUpdatePartStatus key' j s ∈ parts_events key us ps f k ss ->
  (k <= j < k + length ss)%nat.
Proof.
  revert k. induction ss as [|s' ss IH]; intros k Hin; simpl in Hin.
  - by apply elem_of_nil in Hin.
  - rewrite !elem_of_cons in Hin. destruct Hin as [Heq|[Heq|Hin]]; [done| |].
    + injection Heq as -> -> ->. simpl. lia.
    + apply IH in Hin. simpl. lia.
Qed.

(** ** Which parts a run sends *)

(** The endpoint answers every part with a non-empty identifier. *)
Definition always_identifies (net : Network) : Prop :=
  forall h req, exists s, s3_put net h req = PutOk (Some s) /\ s <> EmptyString.

Section SentParts.

Variable multipartPartSize : Z.
Variable multipartPartSizeInternal : Z.
Variable convertJs2Xml : list (string * list PartETag) -> string.
Variable this : MultiPartUploader.

Local Abbreviation resume :=
  (putExistingMultipartFile multipartPartSize multipartPartSizeInternal
     convertJs2Xml this).

(** A run sends the parts [k], [k + 1], ... in order, [k] being its start
    index; it sends all of them up to the last when the endpoint identifies
    every part and the part size is not zero, and at least part [k] when
    the part size is not zero. *)
Lemma upload_run_put_indices (partInfo : MultipartInfo) (f : File) (w : World) out :
  upload_run multipartPartSize multipartPartSizeInternal convertJs2Xml this
    partInfo f w out ->
  let k := start_index partInfo in
  let n := length (partsURLs (urls partInfo)) in
  let ps := part_size_of multipartPartSize multipartPartSizeInternal this partInfo in
  exists new j,
    trace out.2 = trace w ++ new
    /\ put_indices new = seq k j
    /\ (j = 0 \/ k + j <= n)%nat
    /\ (always_identifies (_s3Dio this) -> ps <> 0%Z -> (n <= k + j)%nat)
    /\ (ps <> 0%Z -> (k < n)%nat -> (1 <= j)%nat).
Proof.
  intros Hrun k n ps. subst k n ps.
  destruct Hrun as [ss ex w' Hss Hlen Hpart
    |ss ex Hss Hb Hlen Hpost|ss Hss Hb Hlen Hpost].
  - inversion Hpart as [Hi Hz|url e Hurl Hsend Hresp|url o Hurl Hsend Hresp Ho|];
      subst.
    + eexists _, (length ss). split; [simpl; done|].
      rewrite put_indices_parts_events.
      repeat split; try done; lia.
    + eexists _, (S (length ss)).
      split; [simpl; by rewrite <- app_assoc|].
      rewrite put_indices_app, put_indices_parts_events, seq_S.
      split; [done|]. split; [lia|]. split; [|lia].
      intros Hgood _.
      match type of Hresp with s3_put _ ?h ?r = _ =>
        destruct (Hgood h r) as (s & Hs & _) end.
      rewrite Hs in Hresp. congruence.
    + eexists _, (S (length ss)).
      split; [simpl; by rewrite <- app_assoc|].
      rewrite put_indices_app, put_indices_parts_events, seq_S.
      split; [done|]. split; [lia|]. split; [|lia].
      intros Hgood _.
      match type of Hresp with s3_put _ ?h ?r = _ =>
        destruct (Hgood h r) as (s & Hs & Hne) end.
      rewrite Hs in Hresp.
      injection Hresp as <-. simpl in Ho. by apply bool_decide_eq_true in Ho.
  - eexists _, (length ss). split; [simpl; done|].
    unfold recorded_events.
    rewrite put_indices_app, put_indices_parts_events.
    split; [simpl; by rewrite app_nil_r|].
    repeat split; try done; try lia.
    destruct Hb as [->|]; [by left|right; lia].
  - eexists _, (length ss). split; [simpl; done|].
    unfold recorded_events.
    rewrite put_indices_app, put_indices_parts_events.
    split; [simpl; by rewrite app_nil_r|].
    repeat split; try done; try lia.
    destruct Hb as [->|]; [by left|right; lia].
Qed.

Lemma resume_pending_put_indices (f : File) (localId fileHash : string)
    (collectionID : Z) (w : World) (e : TrackUploadsEntry) :
  db w !! (localId, fileHash, collectionID) = Some e ->
  entry_status e = pending ->
  let k := first_false (entry_partUploadStatus e) in
  let n := length (partsURLs (entry_urls e)) in
  exists new j,
    trace (resume f localId fileHash collectionID w).2 = trace w ++ new
    /\ put_indices new = seq k j
    /\ (j = 0 \/ k + j <= n)%nat
    /\ (always_identifies (_s3Dio this) -> entry_partSize e <> 0%Z ->
        (n <= k + j)%nat)
    /\ (entry_partSize e <> 0%Z -> (k < n)%nat -> (1 <= j)%nat).
Proof.
  intros He Hs k n.
  rewrite (resume_pending_run _ _ _ _ _ _ _ _ _ e He Hs).
  destruct (upload_run_put_indices (entry_info e) f
              (loaded (localId, fileHash, collectionID) w) _
              (uploadAndComplete_run _ _ _ _ _ _ _))
    as (new & j & Htr & Hput & Hb & Hall & Hone).
  exists ([DbGetCachedLinks (localId, fileHash, collectionID);
           DbUpdateLastAttempted (localId, fileHash, collectionID)] ++ new), j.
  rewrite Htr. simpl. rewrite <- app_assoc. by repeat split.
Qed.

End SentParts.

(** ** The declared length of the final part *)

Lemma parts_events_request (key : string) (us : list string) (ps : Z) (f : File)
    (k : nat) (ss : list string) (j : nat) (req : PutRequest) (resp : PutResponse) :
  S3Put j req resp ∈ parts_events key us ps f k ss ->
  req = partRequest us ps f j (url_at us j).
Proof.
  revert k. induction ss as [|s ss IH]; intros k Hin; simpl in Hin.
  - by apply elem_of_nil in Hin.
  - rewrite !elem_of_cons in Hin. destruct Hin as [Heq|[Heq|Hin]]; [|done|].
    + by injection Heq as -> -> ->.
    + by apply (IH (S k)).
Qed.

Section DeclaredLengths.

Variable multipartPartSize : Z.
Variable multipartPartSizeInternal : Z.
Variable convertJs2Xml : list (string * list PartETag) -> string.
Variable this : MultiPartUploader.

(** Every request a run sends is the one built for its part index. *)
Lemma upload_run_request (partInfo : MultipartInfo) (f : File) (w : World) out
    (new : list Event) (i : nat) (req : PutRequest) (resp : PutResponse) :
  upload_run multipartPartSize multipartPartSizeInternal convertJs2Xml this
    partInfo f w out ->
  trace out.2 = trace w ++ new ->
  S3Put i req resp ∈ new ->
  req = partRequest (partsURLs (urls partInfo))
          (part_size_of multipartPartSize multipartPartSizeInternal this partInfo)
          f i (url_at (partsURLs (urls partInfo)) i).
Proof.
  intros Hrun Htr Hin.
  destruct Hrun as [ss ex w' Hss Hlen Hpart
    |ss ex Hss Hb Hlen Hpost|ss Hss Hb Hlen Hpost];
    simpl in Htr.
  - inversion Hpart as [Hi Hz|url e Hurl Hsend Hresp|url o Hurl Hsend Hresp Ho|];
      subst; simpl in Htr; rewrite <- ?app_assoc in Htr;
      apply app_inv_head in Htr; subst new.
    + by eapply parts_events_request.
    + apply elem_of_app in Hin as [Hin|Hin]; [by eapply parts_events_request|].
      apply list_elem_of_singleton in Hin. injection Hin as -> -> ->.
      unfold url_at. by rewrite Hurl.
    + apply elem_of_app in Hin as [Hin|Hin]; [by eapply parts_events_request|].
      apply list_elem_of_singleton in Hin. injection Hin as -> -> ->.
      unfold url_at. by rewrite Hurl.
  - apply app_inv_head in Htr. subst new.
    apply elem_of_app in Hin as [Hin|Hin]; [by eapply parts_events_request|].
    no_such_event Hin.
  - apply app_inv_head in Htr. subst new.
    apply elem_of_app in Hin as [Hin|Hin]; [by eapply parts_events_request|].
    no_such_event Hin.
Qed.

End DeclaredLengths.

(** ** A response without an identifier *)

Lemma parts_events_identified (key : string) (us : list string) (ps : Z) (f : File)
    (k : nat) (ss : list string) (i : nat) (req : PutRequest) (o : option string) :
  Forall (fun s => s <> EmptyString) ss ->
  S3Put i req (PutOk o) ∈ parts_events key us ps f k ss ->
  etag_missing o = false.
Proof.
  intros Hss Hin. apply parts_events_put in Hin as (a & s & _ & Ha & Ho).
  injection Ho as ->. simpl. apply bool_decide_eq_false.
  rewrite Forall_forall in Hss. apply Hss. by eapply list_elem_of_lookup_2.
Qed.

Section MissingIdentifier.

Variable multipartPartSize : Z.
Variable multipartPartSizeInternal : Z.
Variable convertJs2Xml : list (string * list PartETag) -> string.
Variable this : MultiPartUploader.

Local Abbreviation call :=
  (run_call multipartPartSize multipartPartSizeInternal convertJs2Xml this).
Local Abbreviation resume :=
  (putExistingMultipartFile multipartPartSize multipartPartSizeInternal
     convertJs2Xml this).

(** A run in which some response carried no identifier stopped at that
    response, having recorded only the parts before it. *)
Lemma upload_run_missing (partInfo : MultipartInfo) (f : File) (w : World) out
    (new : list Event) (i : nat) (req : PutRequest) (o : option string) :
  upload_run multipartPartSize multipartPartSizeInternal convertJs2Xml this
    partInfo f w out ->
  trace out.2 = trace w ++ new ->
  S3Put i req (PutOk o) ∈ new ->
  etag_missing o = true ->
  exists ss,
    i = (start_index partInfo + length ss)%nat
    /\ (i < length (partsURLs (urls partInfo)))%nat
    /\ out.1 = Throw (Exception_ "ETAG_MISSING")
    /\ db out.2
       = db_update (objectKey (urls partInfo))
           (record_parts (start_index partInfo) ss) (db w)
    /\ new
       = recorded_events multipartPartSize multipartPartSizeInternal this
           partInfo f ss
         ++ [S3Put i req (PutOk o)].
Proof.
  intros Hrun Htr Hin Hmiss.
  assert (Hrec : forall ss, Forall (fun s => s <> EmptyString) ss ->
            S3Put i req (PutOk o)
            ∈ recorded_events multipartPartSize multipartPartSizeInternal this
                partInfo f ss -> False).
  { intros ss Hss Hin'. unfold recorded_events in Hin'.
    apply parts_events_identified in Hin'; [congruence|done]. }
  destruct Hrun as [ss ex w' Hss Hlen Hpart
    |ss ex Hss Hb Hlen Hpost|ss Hss Hb Hlen Hpost];
    simpl in Htr.
  - inversion Hpart as [Hi Hz|url e Hurl Hsend Hresp|url o' Hurl Hsend Hresp Ho|];
      subst; simpl in Htr; rewrite <- ?app_assoc in Htr;
      apply app_inv_head in Htr; subst new.
    + by destruct (Hrec ss).
    + apply elem_of_app in Hin as [Hin|Hin]; [by destruct (Hrec ss)|].
      by apply list_elem_of_singleton in Hin.
    + apply elem_of_app in Hin as [Hin|Hin]; [by destruct (Hrec ss)|].
      apply list_elem_of_singleton in Hin. injection Hin as -> -> ->.
      exists ss. by repeat split.
  - apply app_inv_head in Htr. subst new.
    apply elem_of_app in Hin as [Hin|Hin]; [by destruct (Hrec ss)|].
    no_such_event Hin.
  - apply app_inv_head in Htr. subst new.
    apply elem_of_app in Hin as [Hin|Hin]; [by destruct (Hrec ss)|].
    no_such_event Hin.
Qed.

(** The call addresses the session of the row [e] under [sk]. *)
Definition on_session (sk : SessionKey) (e : TrackUploadsEntry) (c : Call) : Prop :=
  match c with
  | Resume _ localId fileHash collectionID => (localId, fileHash, collectionID) = sk
  | Fresh u _ => u = entry_urls e
  end.

(** What the row of a session is after such a run. *)
Definition row_after_missing (e e' : TrackUploadsEntry) (i : nat) : Prop :=
  entry_urls e' = entry_urls e
  /\ entry_partSize e' = entry_partSize e
  /\ entry_status e' = entry_status e
  /\ entry_partUploadStatus e' !! i = entry_partUploadStatus e !! i
  /\ etag_get i (entry_partETags e') = etag_get i (entry_partETags e)
  /\ (i < length (partsURLs (entry_urls e)))%nat
  /\ (entry_partUploadStatus e !! i = Some false ->
      first_false (entry_partUploadStatus e') = i).

Lemma upload_run_missing_row (partInfo : MultipartInfo) (f : File) (w : World) out
    (new : list Event) (i : nat) (req : PutRequest) (o : option string)
    (sk : SessionKey) (e : TrackUploadsEntry) :
  upload_run multipartPartSize multipartPartSizeInternal convertJs2Xml this
    partInfo f w out ->
  trace out.2 = trace w ++ new ->
  S3Put i req (PutOk o) ∈ new ->
  etag_missing o = true ->
  db w !! sk = Some e ->
  entry_urls e = urls partInfo ->
  (forall j, (j < start_index partInfo)%nat ->
             entry_partUploadStatus e !! j = Some true) ->
  out.1 = Throw (Exception_ "ETAG_MISSING")
  /\ last new = Some (S3Put i req (PutOk o))
  /\ (forall key s, DbUpdatePartStatus key i s ∉ new)
  /\ exists e', db out.2 !! sk = Some e' /\ row_after_missing e e' i.
Proof.
  intros Hrun Htr Hin Hmiss He Hurls Hpre.
  destruct (upload_run_missing partInfo f w out new i req o Hrun Htr Hin Hmiss)
    as (ss & Hi & Hlt & Hres & Hdb & Hnew).
  split; [done|]. split; [subst new; apply last_snoc|]. split.
  - intros key s Hw. subst new.
    apply elem_of_app in Hw as [Hw|Hw].
    + apply parts_events_recorded in Hw. lia.
    + by apply list_elem_of_singleton in Hw.
  - exists (record_parts (start_index partInfo) ss e). split.
    + rewrite Hdb. apply db_update_lookup; [done|by rewrite Hurls].
    + unfold row_after_missing.
      rewrite record_parts_urls, record_parts_partSize, record_parts_status,
        record_parts_etags.
      rewrite record_parts_flags_other by lia.
      rewrite etag_get_put_etags_other by lia.
      rewrite Hurls. repeat split; try done.
      intros Hfalse. apply first_false_unique.
      * intros j Hj.
        destruct (decide (j < start_index partInfo)%nat) as [Hlo|Hhi].
        -- rewrite record_parts_flags_other by lia. by apply Hpre.
        -- apply record_parts_flags_in; [lia|].
           apply lookup_lt_Some in Hfalse. lia.
      * rewrite record_parts_flags_other by lia. by rewrite Hfalse.
Qed.

End MissingIdentifier.

(** ** An endpoint that identifies every part *)

Section IdentifiedParts.

Variable multipartPartSize : Z.
Variable multipartPartSizeInternal : Z.
Variable convertJs2Xml : list (string * list PartETag) -> string.
Variable this : MultiPartUploader.

Local Abbreviation resume :=
  (putExistingMultipartFile multipartPartSize multipartPartSizeInternal
     convertJs2Xml this).

Lemma identified_part_does_not_fail (key : string) (us : list string) (ps : Z)
    (f : File) (i : nat) (etags : ETagMap) (w : World) ex w' :
  always_identifies (_s3Dio this) ->
  ps <> 0%Z ->
  part_outcome this key us ps f i etags w (Throw ex, w') -> False.
Proof.
  intros Hgood Hps Hout.
  inversion Hout as [Hi Hz|url e Hurl Hsend Hresp|url o Hurl Hsend Hresp Ho|];
    subst; [done| |];
    match type of Hresp with s3_put _ ?h ?r = _ =>
      destruct (Hgood h r) as (s & Hs & Hne) end;
    rewrite Hs in Hresp; [done|].
  injection Hresp as <-. simpl in Ho. by apply bool_decide_eq_true in Ho.
Qed.

End IdentifiedParts.

(** ** The requests and the row of a resumed pending session *)

(** The request the loop sends for part [i] of a file, in the terms of the
    source: the part's own URL, the bytes from [i * partSize] to
    [(i + 1) * partSize], or to the end of the file for the last part, and as
    its declared length the part size, or for the last part the remainder
    of the file's length by the part size. *)
Definition request_of_part (partsURLs : list string) (partSize : Z)
    (encryptedFile : File) (i : nat) (req : PutRequest) : Prop :=
  partsURLs !! i = Some (put_url req)
  /\ data_start req = wrap64 (Z.of_nat i * partSize)
  /\ data_end req
     = (if decide (i = (length partsURLs - 1)%nat) then None
        else Some (wrap64 ((Z.of_nat i + 1) * partSize)))
  /\ contentLength req
     = (if decide (i = (length partsURLs - 1)%nat)
        then (lengthSync encryptedFile mod Z.abs partSize)%Z
        else partSize).

Lemma partRequest_fields (us : list string) (ps : Z) (f : File) (i : nat) :
  (i < length us)%nat ->
  request_of_part us ps f i (partRequest us ps f i (url_at us i)).
Proof.
  intros Hi. unfold request_of_part, partRequest, url_at. simpl.
  destruct (lookup_lt_is_Some_2 us i Hi) as [url ->]. simpl.
  split; [done|]. split; [done|].
  destruct (Nat.eqb_spec i (length us - 1)) as [Hlast|Hmid].
  - by rewrite !decide_True by done.
  - by rewrite !decide_False by done.
Qed.

Lemma parts_events_recorded_at (key : string) (us : list string) (ps : Z) (f : File)
    (k : nat) (ss : list string) (a : nat) (s : string) :
  ss !! a = Some s ->
  DbUpdatePartStatus key (k + a) s ∈ parts_events key us ps f k ss.
Proof.
  revert k a. induction ss as [|s' ss IH]; intros k a Ha; [done|].
  destruct a as [|a]; simpl in *.
  - injection Ha as ->. rewrite Nat.add_0_r.
    apply elem_of_cons. right. apply elem_of_cons. by left.
  - replace (k + S a)%nat with (S k + a)%nat by lia.
    do 2 (apply elem_of_cons; right). by apply IH.
Qed.

Section ResumePending.

Variable multipartPartSize : Z.
Variable multipartPartSizeInternal : Z.
Variable convertJs2Xml : list (string * list PartETag) -> string.
Variable this : MultiPartUploader.

Local Abbreviation resume :=
  (putExistingMultipartFile multipartPartSize multipartPartSizeInternal
     convertJs2Xml this).

(** How the resume of a pending session ends: it records the parts [ss] from
    the first unflagged part on, and then either stops in the next part,
    raising, or marks the session [uploaded] and makes the finalize call. *)
Lemma resume_pending_shape (f : File) (localId fileHash : string)
    (collectionID : Z) (w : World) (e : TrackUploadsEntry) :
  let sk := (localId, fileHash, collectionID) in
  let key := objectKey (entry_urls e) in
  let us := partsURLs (entry_urls e) in
  let P := entry_partSize e in
  let k := first_false (entry_partUploadStatus e) in
  let out := resume f localId fileHash collectionID w in
  db w !! sk = Some e ->
  entry_status e = pending ->
  exists ss tail e',
    Forall (fun s => s <> EmptyString) ss
    /\ (ss = [] \/ k + length ss <= length us)%nat
    /\ trace out.2
       = trace w
         ++ [DbGetCachedLinks sk; DbUpdateLastAttempted sk]
         ++ parts_events key us P f k ss ++ tail
    /\ db out.2 !! sk = Some e'
    /\ entry_partUploadStatus e' = entry_partUploadStatus (record_parts k ss e)
    /\ entry_partETags e' = put_etags k ss (entry_partETags e)
    /\ ((k + length ss < length us)%nat
        /\ (exists ex, out.1 = Throw ex)
        /\ (tail = [] /\ P = 0%Z
            \/ exists hist resp,
                 tail = [S3Put (k + length ss)
                           (partRequest us P f (k + length ss)
                              (url_at us (k + length ss))) resp]
                 /\ resp = s3_put (_s3Dio this) hist
                             (partRequest us P f (k + length ss)
                                (url_at us (k + length ss)))
                 /\ (forall s, resp = PutOk (Some s) -> s = EmptyString))
        \/ (length us <= k + length ss)%nat
           /\ exists req resp,
                tail = DbUpdateTrackUploadStatus key uploaded :: S3Post req resp
                       :: match resp with
                          | PostOk => [DbUpdateTrackUploadStatus key completed]
                          | PostFailed _ => []
                          end).
Proof.
  intros sk key us P k out He Hs. subst sk key us P k out.
  rewrite (resume_pending_run _ _ _ _ _ _ _ _ _ e He Hs).
  pose proof (uploadAndComplete_run multipartPartSize multipartPartSizeInternal
                convertJs2Xml this (entry_info e) f
                (loaded (localId, fileHash, collectionID) w)) as Hrun.
  destruct Hrun as [ss ex w' Hss Hlen Hpart
    |ss ex Hss Hb Hlen Hpost|ss Hss Hb Hlen Hpost];
    unfold recorded, recorded_events, start_index, part_size_of in *;
    simpl in *.
  - exists ss.
    inversion Hpart as [Hi Hz|url ex' Hurl Hsend Hresp|url o Hurl Hsend Hresp Ho|];
      subst; simpl.
    + exists [], (record_parts (first_false (entry_partUploadStatus e)) ss e).
      rewrite app_nil_r, <- app_assoc. simpl.
      split; [done|]. split; [right; lia|]. split; [done|].
      split; [by apply db_update_lookup|]. split; [done|].
      split; [apply record_parts_etags|]. left.
      split; [done|]. split; [by eexists|]. by left.
    + eexists _, (record_parts (first_false (entry_partUploadStatus e)) ss e).
      rewrite <- !app_assoc. simpl.
      split; [done|]. split; [right; lia|]. split; [done|].
      split; [by apply db_update_lookup|]. split; [done|].
      split; [apply record_parts_etags|]. left.
      split; [done|]. split; [by eexists|]. right.
      unfold url_at. rewrite Hurl. simpl.
      eexists _, _. split; [done|]. split; [by rewrite Hresp|]. done.
    + eexists _, (record_parts (first_false (entry_partUploadStatus e)) ss e).
      rewrite <- !app_assoc. simpl.
      split; [done|]. split; [right; lia|]. split; [done|].
      split; [by apply db_update_lookup|]. split; [done|].
      split; [apply record_parts_etags|]. left.
      split; [done|]. split; [by eexists|]. right.
      unfold url_at. rewrite Hurl. simpl.
      eexists _, _. split; [done|]. split; [by rewrite Hresp|].
      intros s [= ->]. simpl in Ho. by apply bool_decide_eq_true in Ho.
  - exists ss.
    eexists _, (entry_set_status uploaded
                  (record_parts (first_false (entry_partUploadStatus e)) ss e)).
    rewrite <- !app_assoc. simpl.
    split; [done|]. split; [done|]. split; [done|]. split.
    { apply db_update_lookup; [by apply db_update_lookup|].
      by rewrite record_parts_urls. }
    split; [done|]. split; [apply record_parts_etags|]. right.
    split; [done|]. by eexists _, (PostFailed ex).
  - exists ss.
    eexists _, (entry_set_status completed
                  (entry_set_status uploaded
                     (record_parts (first_false (entry_partUploadStatus e)) ss e))).
    rewrite <- !app_assoc. simpl.
    split; [done|]. split; [done|]. split; [done|]. split.
    { apply db_update_lookup;
        [apply db_update_lookup; [by apply db_update_lookup|]|];
        simpl; by rewrite record_parts_urls. }
    split; [done|]. split; [apply record_parts_etags|]. right.
    split; [done|]. by eexists _, PostOk.
Qed.

(** What the resume of a pending session sends and records. *)
Lemma resume_pending_report (f : File) (localId fileHash : string)
    (collectionID : Z) (w : World) (e : TrackUploadsEntry) :
  let sk := (localId, fileHash, collectionID) in
  let key := objectKey (entry_urls e) in
  let us := partsURLs (entry_urls e) in
  let P := entry_partSize e in
  let k := first_false (entry_partUploadStatus e) in
  let n := length us in
  let out := resume f localId fileHash collectionID w in
  db w !! sk = Some e ->
  entry_status e = pending ->
  exists new j e',
    trace out.2 = trace w ++ new
    /\ db out.2 !! sk = Some e'
    /\ put_indices new = seq k j
    /\ (j = 0 \/ k + j <= n)%nat
    /\ (P <> 0%Z -> (k < n)%nat -> (1 <= j)%nat)
    /\ ((k + j < n)%nat -> exists ex, out.1 = Throw ex)
    /\ (forall i req resp, S3Put i req resp ∈ new -> request_of_part us P f i req)
    /\ (forall i req s,
          S3Put i req (PutOk (Some s)) ∈ new -> s <> EmptyString ->
          DbUpdatePartStatus key i s ∈ new
          /\ ((i < length (entry_partUploadStatus e))%nat ->
              entry_partUploadStatus e' !! i = Some true)
          /\ etag_get i (entry_partETags e') = Some s)
    /\ (forall i, (i < k)%nat ->
          entry_partUploadStatus e' !! i = entry_partUploadStatus e !! i
          /\ etag_get i (entry_partETags e') = etag_get i (entry_partETags e))
    /\ (always_identifies (_s3Dio this) -> P <> 0%Z ->
        (n <= k + j)%nat
        /\ length (posts new) = 1%nat
        /\ forall i, (k <= i < n)%nat ->
             exists req s, S3Put i req (PutOk (Some s)) ∈ new /\ s <> EmptyString).
Proof.
  intros sk key us P k n out He Hs.
  destruct (resume_pending_shape f localId fileHash collectionID w e He Hs)
    as (ss & tail & e' & Hss & Hb & Htr & Hdb & Hflags & Hetags & Hend).
  fold sk key us P k out in Htr, Hdb, Hend, Hb.
  assert (Htail : exists j,
             put_indices tail = seq (k + length ss) (j - length ss)
             /\ (length ss <= j)%nat
             /\ (j = 0 \/ k + j <= n)%nat
             /\ (P <> 0%Z -> (k < n)%nat -> (1 <= j)%nat)
             /\ ((k + j < n)%nat -> exists ex, out.1 = Throw ex)
             /\ (forall i req resp, S3Put i req resp ∈ tail ->
                   i = (k + length ss)%nat /\ (i < n)%nat
                   /\ req = partRequest us P f i (url_at us i)
                   /\ forall s, resp = PutOk (Some s) -> s = EmptyString)
             /\ (always_identifies (_s3Dio this) -> P <> 0%Z ->
                 (n <= k + length ss)%nat /\ length (posts tail) = 1%nat)).
  { destruct Hend as [(Hlt & Hex & [[-> Hz]|(hist & resp & -> & Hresp & Hbad)])
                     |(Hge & req & resp & ->)].
    - exists (length ss). rewrite Nat.sub_diag. simpl.
      split; [done|]. split; [done|]. split; [right; lia|].
      split; [done|]. split; [done|]. split.
      + intros i req resp Hin. by apply elem_of_nil in Hin.
      + done.
    - exists (S (length ss)).
      replace (S (length ss) - length ss)%nat with 1%nat by lia. simpl.
      split; [done|]. split; [lia|]. split; [right; lia|].
      split; [lia|]. split; [done|]. split.
      + intros i req resp' Hin. apply list_elem_of_singleton in Hin.
        by injection Hin as -> -> ->.
      + intros Hgood Hps. exfalso.
        destruct (Hgood hist (partRequest us P f (k + length ss)
                                (url_at us (k + length ss))))
          as (s & Hs' & Hne).
        rewrite Hs' in Hresp. by apply Hne, Hbad.
    - exists (length ss). rewrite Nat.sub_diag.
      split; [by destruct resp|]. split; [done|].
      split; [destruct Hb as [->|]; [by left|by right]|].
      split; [intros _ Hlt; lia|]. split; [intros Hlt; lia|]. split.
      + intros i req' resp' Hin. destruct resp; no_such_event Hin.
      + intros _ _. split; [done|]. by destruct resp. }
  destruct Htail as (j & Hput & Hle & Hbound & Hone & Hthrow & Htailput & Hall).
  exists ([DbGetCachedLinks sk; DbUpdateLastAttempted sk]
          ++ parts_events key us P f k ss ++ tail), j, e'.
  split; [done|]. split; [done|]. split.
  { rewrite !put_indices_app, put_indices_parts_events, Hput. simpl.
    rewrite <- seq_app. f_equal. lia. }
  split; [done|]. split; [done|]. split; [done|].
  assert (Hparts : forall i req resp,
             S3Put i req resp ∈ parts_events key us P f k ss ->
             exists a s, i = (k + a)%nat /\ ss !! a = Some s
                         /\ resp = PutOk (Some s) /\ (i < n)%nat
                         /\ req = partRequest us P f i (url_at us i)).
  { intros i req resp Hin.
    pose proof (parts_events_request _ _ _ _ _ _ _ _ _ Hin) as Hreq.
    apply parts_events_put in Hin as (a & s & -> & Ha & ->).
    exists a, s. repeat split; try done.
    apply lookup_lt_Some in Ha. destruct Hb as [->|Hb]; [simpl in Ha; lia|].
    fold n in Hb. lia. }
  split.
  { intros i req resp Hin.
    simpl in Hin.
    rewrite !elem_of_cons in Hin. destruct Hin as [?|[?|Hin]]; [done..|].
    apply elem_of_app in Hin as [Hin|Hin].
    - destruct (Hparts i req resp Hin) as (a & s & _ & _ & _ & Hi & ->).
      by apply partRequest_fields.
    - destruct (Htailput i req resp Hin) as (_ & Hi & -> & _).
      by apply partRequest_fields. }
  split.
  { intros i req s Hin Hne.
    simpl in Hin.
    rewrite !elem_of_cons in Hin. destruct Hin as [?|[?|Hin]]; [done..|].
    apply elem_of_app in Hin as [Hin|Hin].
    - destruct (Hparts i req _ Hin) as (a & s' & -> & Ha & [= <-] & Hi & _).
      split; [|split].
      + simpl. do 2 (apply elem_of_cons; right). apply elem_of_app. left.
        by apply parts_events_recorded_at.
      + intros Hlen. rewrite Hflags. apply record_parts_flags_in; [|done].
        apply lookup_lt_Some in Ha. lia.
      + rewrite Hetags. by apply etag_get_put_etags_in.
    - destruct (Htailput i req _ Hin) as (_ & _ & _ & Hbad).
      by destruct Hne, (Hbad s). }
  split.
  { intros i Hi. rewrite Hflags, Hetags.
    rewrite record_parts_flags_other by lia.
    by rewrite etag_get_put_etags_other by lia. }
  intros Hgood Hps. destruct (Hall Hgood Hps) as [Hge Hposts].
  split; [lia|]. split.
  { rewrite !posts_app, posts_parts_events. simpl. done. }
  intros i Hi.
  destruct (lookup_lt_is_Some_2 ss (i - k)) as [s Hsi]; [lia|].
  eexists _, s. split.
  - simpl. do 2 (apply elem_of_cons; right). apply elem_of_app. left.
    replace i with (k + (i - k))%nat at 1 by lia.
    by apply parts_events_put_at.
  - rewrite Forall_forall in Hss. apply Hss. by eapply list_elem_of_lookup_2.
Qed.

End ResumePending.

(** * Properties *)

(** Example values for the constants and collaborators that the sources do
    not include, used where a statement is evaluated on a concrete input. *)
Module Demo.

Definition partSizeGeneral : Z := 5242880.
Definition partSizeInternal : Z := 20971520.

(** A serializer that lists the part numbers and identifiers. *)
Definition show_nat (n : nat) : string :=
  String (Ascii.ascii_of_nat (48 + n)) EmptyString.

Definition xml (doc : list (string * list PartETag)) : string :=
  String.concat ";"
    (flat_map (fun root =>
                 map (fun p => show_nat (partNumber p) +:+ "=" +:+ eTag p) root.2)
       doc).

(** A storage endpoint that accepts every part, answering with an
    identifier derived from the part's URL, and every finalize call. *)
Definition accepting : Network :=
  {| s3_put := fun _ req => PutOk (Some ("etag-" +:+ put_url req));
     s3_post := fun _ _ => PostOk |}.

(** An endpoint that accepts the parts and rejects the finalize call. *)
Definition rejecting_finalize : Network :=
  {| s3_put := fun _ req => PutOk (Some ("etag-" +:+ put_url req));
     s3_post := fun _ _ => PostFailed (DioException "finalize rejected") |}.

(** An endpoint whose answers carry no identifier. *)
Definition no_identifier : Network :=
  {| s3_put := fun _ _ => PutOk None;
     s3_post := fun _ _ => PostOk |}.

Definition uploader (net : Network) : MultiPartUploader :=
  {| _s3Dio := net; internalUser := true |}.

Definition urls2 : MultipartUploadURLs :=
  {| objectKey := "obj"; partsURLs := ["u0"; "u1"]; completeURL := "done" |}.

Definition urls3 : MultipartUploadURLs :=
  {| objectKey := "obj"; partsURLs := ["u0"; "u1"; "u2"]; completeURL := "done" |}.

Definition sk : SessionKey := ("local", "hash", 7%Z).

Definition entry (s : MultipartStatus) (flags : list bool) (etags : ETagMap)
  : TrackUploadsEntry :=
  {| entry_urls := urls3; entry_partSize := 10000000;
     entry_status := s; entry_partUploadStatus := flags;
     entry_partETags := etags |}.

Definition world (e : TrackUploadsEntry) : World :=
  {| db := {[ sk := e ]}; trace := [] |}.

Definition empty_world : World := {| db := ∅; trace := [] |}.

End Demo.

(** Sessions and requests on which the properties are instantiated. *)
Module Instances.

Definition file : File := {| lengthSync := 25000000 |}.

Definition resume_on (net : Network) (w : World) : Result string * World :=
  putExistingMultipartFile Demo.partSizeGeneral Demo.partSizeInternal Demo.xml
    (Demo.uploader net) file "local" "hash" 7 w.

Definition uploaded_session : TrackUploadsEntry :=
  Demo.entry uploaded [true; true; true] [(0, "a"); (1, "b"); (2, "c")].

Definition pending_session : TrackUploadsEntry :=
  Demo.entry pending [true; true; false] [(0, "a"); (1, "b")].

Definition gap_session : TrackUploadsEntry :=
  Demo.entry pending [true; false; true] [(0, "a"); (2, "c")].

Definition created_session : TrackUploadsEntry :=
  new_entry Demo.urls3 10000000.

Definition second_part : PutRequest :=
  {| put_url := "u1"; data_start := 10000000; data_end := Some 20000000%Z;
     contentLength := 10000000 |}.

Definition third_part : PutRequest :=
  {| put_url := "u2"; data_start := 20000000; data_end := None;
     contentLength := 5000000 |}.

End Instances.

(** ** C1: the declared length of the final part *)

(** C1 fails on the code: for a 20,000,000-byte file uploaded in two parts of
    10,000,000 bytes, the first part is declared with 10,000,000 bytes and
    the final part with [20000000 % 10000000], which is 0, while its data
    stream [openRead(10000000, null)] runs to the end of the file. *)
Theorem exact_multiple_declares_empty_final_part :
  let run :=
    putMultipartFile 10000000 10000000 Demo.xml (Demo.uploader Demo.accepting)
      Demo.urls2 {| lengthSync := 20000000 |} Demo.empty_world in
  run.1 = Ok "obj"
  /\ put_indices (trace run.2) = [0; 1]
  /\ declared_lengths (trace run.2) = [10000000; 0]%Z
  /\ omap (fun ev => match ev with
                     | S3Put _ req _ => Some (data_start req, data_end req)
                     | _ => None
                     end) (trace run.2)
     = [(0, Some 10000000); (10000000, None)]%Z.
Proof. vm_compute. repeat split; reflexivity. Qed.

Section FinalPartLength.

Variable multipartPartSize : Z.
Variable multipartPartSizeInternal : Z.
Variable convertJs2Xml : list (string * list PartETag) -> string.
Variable this : MultiPartUploader.

(** In every fresh upload of a file whose length is an exact multiple of the
    part size, the request for the final part, whenever it is sent, declares
    a length of zero. *)
Lemma exact_multiple_final_part_declared_zero (u : MultipartUploadURLs) (f : File)
    (w : World) (new : list Event) (req : PutRequest) (resp : PutResponse) (n : Z) :
  trace (putMultipartFile multipartPartSize multipartPartSizeInternal
           convertJs2Xml this u f w).2 = trace w ++ new ->
  S3Put (length (partsURLs u) - 1) req resp ∈ new ->
  lengthSync f
  = (n * multipartPartSizeForUpload multipartPartSize multipartPartSizeInternal
           this)%Z ->
  contentLength req = 0%Z.
Proof.
  intros Htr Hin Hsize. rewrite putMultipartFile_run in Htr.
  rewrite (upload_run_request multipartPartSize multipartPartSizeInternal
             convertJs2Xml this
             (MultipartInfo_of_urls u) f w _ new _ req resp
             (uploadAndComplete_run _ _ _ _ _ _ _) Htr Hin).
  unfold partRequest. simpl. rewrite Nat.eqb_refl.
  by eapply exact_multiple_remainder_zero.
Qed.

End FinalPartLength.

(** ** C2: the part count *)

Section PartPlanner.

Variable multipartPartSize : Z.
Variable multipartPartSizeInternal : Z.
Variable this : MultiPartUploader.
Local Open Scope Z_scope.

Let P := multipartPartSizeForUpload multipartPartSize multipartPartSizeInternal this.

Lemma calculatePartCount_zero :
  0 < P < 2 ^ 53 ->
  internalUser this = true ->
  calculatePartCount multipartPartSize multipartPartSizeInternal this 0 = Ok 0.
Proof.
  intros HP Hint. unfold calculatePartCount. rewrite Hint. simpl. fold P.
  unfold int_div.
  destruct (toDouble_exact P HP) as (k & Hk & ->).
  assert (0 < 2 ^ k) by (apply Z.pow_pos_nonneg; lia).
  simpl. destruct (Z.eqb_spec (P * 2 ^ k) 0); [nia|done].
Qed.

(** C2, amended: for a file size from 1 to 2^53 - 1 and a tier part size
    below 2^53, [calculatePartCount] is the exact ceiling of
    [fileSize / partSize] when multi-part upload is permitted and 1
    otherwise, and is at least 1; for an empty file it is the ceiling too,
    which is 0 when multi-part upload is permitted. *)
Theorem calculatePartCount_is_ceiling (fileSize : Z) :
  0 <= fileSize < 2 ^ 53 ->
  0 < P < 2 ^ 53 ->
  calculatePartCount multipartPartSize multipartPartSizeInternal this fileSize
  = Ok (if internalUser this then ceil_div fileSize P else 1)
  /\ (0 < fileSize ->
      1 <= (if internalUser this then ceil_div fileSize P else 1)).
Proof.
  intros HS HP. split.
  - destruct (internalUser this) eqn:Hint.
    + destruct (Z.eq_dec fileSize 0) as [->|Hnz].
      * rewrite calculatePartCount_zero by done. unfold ceil_div. simpl.
        by rewrite Z.div_0_l by lia.
      * unfold calculatePartCount. rewrite Hint. simpl.
        apply int_div_ceil; [lia|done].
    + unfold calculatePartCount. by rewrite Hint.
  - intros Hpos. destruct (internalUser this); [|lia].
    pose proof (ceil_div_bounds fileSize P ltac:(lia)). nia.
Qed.

End PartPlanner.

Lemma calculatePartCount_is_ceiling_witness :
  calculatePartCount Demo.partSizeGeneral Demo.partSizeInternal
    (Demo.uploader Demo.accepting) 30000000
  = Ok (ceil_div 30000000 20971520)
  /\ (0 < 30000000 -> 1 <= ceil_div 30000000 20971520)%Z.
Proof.
  apply (calculatePartCount_is_ceiling Demo.partSizeGeneral Demo.partSizeInternal
           (Demo.uploader Demo.accepting) 30000000); vm_compute; split; congruence.
Defined.

(** C2 as stated fails for an empty file: the count is 0, not at least 1. *)
Lemma calculatePartCount_empty_file_counterexample :
  exists n,
    calculatePartCount Demo.partSizeGeneral Demo.partSizeInternal
      (Demo.uploader Demo.accepting) 0 = Ok n
    /\ (n < 1)%Z.
Proof. exists 0%Z. split; [vm_compute; reflexivity | lia]. Qed.

(** Beyond 2^53 the double quotient no longer has the exact ceiling. *)
Example calculatePartCount_large_file :
  calculatePartCount 3 3 (Demo.uploader Demo.accepting) 27021597764222979
  = Ok 9007199254740994%Z
  /\ ceil_div 27021597764222979 3 = 9007199254740993%Z.
Proof. split; vm_compute; reflexivity. Qed.

(** The double quotient agrees with the Standard Library's IEEE-754
    specification on sample operands. *)
Example int_div_agrees_with_ieee :
  Forall (fun '(a, b) => int_div a b = ieee_int_div a b)
    [(20000000, 10000000); (1, 3); (30000000, 20971520); (-7, 3); (7, -3);
     (27021597764222979, 3); (2 ^ 62 + 12345, 7); (9007199254740993, 1);
     (5, 2 ^ 40); (123456789012345678, 987654321)]%Z.
Proof. repeat constructor. Qed.

(** ** C3: resuming from the first part not recorded *)

Section ResumeFromFirstFalse.

Variable multipartPartSize : Z.
Variable multipartPartSizeInternal : Z.
Variable convertJs2Xml : list (string * list PartETag) -> string.
Variable this : MultiPartUploader.

Local Abbreviation resume :=
  (putExistingMultipartFile multipartPartSize multipartPartSizeInternal
     convertJs2Xml this).

(** C3: resuming a pending session whose part flags are [k] times [true]
    followed by [m] times [false] sends parts [k], [k + 1], ... in ascending
    order and none before [k]; it sends all [m] of them when the endpoint
    identifies every part and the part size is not zero, at least part [k]
    when the part size is not zero, and it raises if it sends fewer than
    [m].  Every part is sent as the loop builds it: to the part's own URL,
    with the part's byte range and declared length.  Every part answered
    with a non-empty identifier is recorded: the store write is made, its
    flag is set and the identifier is stored; the parts before [k] keep
    their flag and their stored identifier. *)
Theorem resume_sends_from_first_false (f : File) (localId fileHash : string)
    (collectionID : Z) (w : World) (e : TrackUploadsEntry) (k m : nat) :
  db w !! (localId, fileHash, collectionID) = Some e ->
  entry_status e = pending ->
  entry_partUploadStatus e = replicate k true ++ replicate m false ->
  length (partsURLs (entry_urls e)) = (k + m)%nat ->
  exists new j,
    trace (resume f localId fileHash collectionID w).2 = trace w ++ new
    /\ put_indices new = seq k j
    /\ (j <= m)%nat
    /\ (always_identifies (_s3Dio this) -> entry_partSize e <> 0%Z -> j = m)
    /\ (entry_partSize e <> 0%Z -> (0 < m)%nat -> (1 <= j)%nat)
    /\ ((j < m)%nat ->
        exists ex, (resume f localId fileHash collectionID w).1 = Throw ex)
    /\ (forall i req resp,
          S3Put i req resp ∈ new ->
          request_of_part (partsURLs (entry_urls e)) (entry_partSize e) f i req)
    /\ exists e',
         db (resume f localId fileHash collectionID w).2
         !! (localId, fileHash, collectionID) = Some e'
         /\ (forall i req s,
               S3Put i req (PutOk (Some s)) ∈ new -> s <> EmptyString ->
               DbUpdatePartStatus (objectKey (entry_urls e)) i s ∈ new
               /\ entry_partUploadStatus e' !! i = Some true
               /\ etag_get i (entry_partETags e') = Some s)
         /\ (forall i, (i < k)%nat ->
               entry_partUploadStatus e' !! i = Some true
               /\ etag_get i (entry_partETags e')
                  = etag_get i (entry_partETags e))
         /\ (always_identifies (_s3Dio this) -> entry_partSize e <> 0%Z ->
             forall i, (k <= i < k + m)%nat ->
               exists req s,
                 S3Put i req (PutOk (Some s)) ∈ new /\ s <> EmptyString).
Proof.
  intros He Hs Hflags Hlen.
  destruct (resume_pending_report multipartPartSize multipartPartSizeInternal
              convertJs2Xml this f localId fileHash collectionID w e He Hs)
    as (new & j & e' & Htr & Hdb & Hput & Hb & Hone & Hthrow & Hreq & Hrec
        & Hpre & Hall).
  assert (Hk : first_false (entry_partUploadStatus e) = k).
  { by rewrite Hflags, first_false_replicate. }
  assert (Hn : length (entry_partUploadStatus e) = (k + m)%nat).
  { by rewrite Hflags, length_app, !length_replicate. }
  rewrite Hk, Hlen in *.
  exists new, j. split; [done|]. split; [done|]. split; [lia|].
  split; [intros Hgood Hps; destruct (Hall Hgood Hps) as [? _]; lia|].
  split; [intros Hps Hm; apply Hone; [done|lia]|].
  split; [intros Hj; apply Hthrow; lia|].
  split; [done|].
  exists e'. split; [done|]. split.
  - intros i req s Hin Hne.
    destruct (Hrec i req s Hin Hne) as (Hw & Hflag & Hetag).
    split; [done|]. split; [|done]. apply Hflag.
    destruct (Hreq i req _ Hin) as (Hurl & _).
    apply lookup_lt_Some in Hurl. lia.
  - split.
    + intros i Hi. destruct (Hpre i Hi) as [-> ->]. split; [|done].
      apply first_false_prefix. by rewrite Hk.
    + intros Hgood Hps. by destruct (Hall Hgood Hps) as (_ & _ & ?).
Qed.

End ResumeFromFirstFalse.

Lemma resume_sends_from_first_false_witness :
  trace (Instances.resume_on Demo.accepting
           (Demo.world Instances.pending_session)).2
  = [DbGetCachedLinks Demo.sk; DbUpdateLastAttempted Demo.sk;
     S3Put 2 Instances.third_part (PutOk (Some "etag-u2"));
     DbUpdatePartStatus "obj" 2 "etag-u2";
     DbUpdateTrackUploadStatus "obj" uploaded;
     S3Post {| post_url := "done"; post_body := "1=a;2=b;3=etag-u2";
               contentType := "text/xml" |} PostOk;
     DbUpdateTrackUploadStatus "obj" completed]
  /\ request_of_part ["u0"; "u1"; "u2"] 10000000 Instances.file 2
       Instances.third_part
  /\ exists e',
       db (Instances.resume_on Demo.accepting
             (Demo.world Instances.pending_session)).2 !! Demo.sk = Some e'
       /\ entry_partUploadStatus e' !! 2%nat = Some true
       /\ etag_get 2 (entry_partETags e') = Some "etag-u2".
Proof.
  destruct (resume_sends_from_first_false Demo.partSizeGeneral
              Demo.partSizeInternal Demo.xml (Demo.uploader Demo.accepting)
              Instances.file "local" "hash" 7
              (Demo.world Instances.pending_session)
              Instances.pending_session 2 1
              eq_refl eq_refl eq_refl eq_refl)
    as (new & j & Htr & _ & _ & _ & _ & _ & Hreq & e' & Hdb & Hrec & _).
  vm_compute in Htr. subst new.
  assert (Hin : S3Put 2 Instances.third_part (PutOk (Some "etag-u2"))
                ∈ [DbGetCachedLinks Demo.sk; DbUpdateLastAttempted Demo.sk;
                   S3Put 2 Instances.third_part (PutOk (Some "etag-u2"));
                   DbUpdatePartStatus "obj" 2 "etag-u2";
                   DbUpdateTrackUploadStatus "obj" uploaded;
                   S3Post {| post_url := "done";
                             post_body := "1=a;2=b;3=etag-u2";
                             contentType := "text/xml" |} PostOk;
                   DbUpdateTrackUploadStatus "obj" completed]).
  { rewrite !elem_of_cons. auto. }
  split; [reflexivity|]. split; [exact (Hreq _ _ _ Hin)|].
  exists e'. split; [exact Hdb|].
  destruct (Hrec _ _ _ Hin ltac:(discriminate)) as (_ & Hflag & Hetag).
  split; [exact Hflag|exact Hetag].
Defined.

(** The scenario of the specification: with flags [true, true, false] only
    part 2 is sent, and the finalize call lists the parts 1, 2, 3. *)
Example resume_true_true_false :
  let run :=
    putExistingMultipartFile Demo.partSizeGeneral Demo.partSizeInternal
      Demo.xml (Demo.uploader Demo.accepting) {| lengthSync := 25000000 |}
      "local" "hash" 7
      (Demo.world (Demo.entry pending [true; true; false] [(0, "a"); (1, "b")])) in
  run.1 = Ok "obj"
  /\ put_indices (trace run.2) = [2]
  /\ declared_lengths (trace run.2) = [5000000%Z]
  /\ posts (trace run.2) = ["1=a;2=b;3=etag-u2"].
Proof. vm_compute. repeat split; reflexivity. Qed.

(** ** C4: a response without an identifier *)

Section MissingIdentifierRaises.

Variable multipartPartSize : Z.
Variable multipartPartSizeInternal : Z.
Variable convertJs2Xml : list (string * list PartETag) -> string.
Variable this : MultiPartUploader.

Local Abbreviation call :=
  (run_call multipartPartSize multipartPartSizeInternal convertJs2Xml this).
Local Abbreviation resume :=
  (putExistingMultipartFile multipartPartSize multipartPartSizeInternal
     convertJs2Xml this).

(** C4: when, in a call on a session, the response to the upload of part
    [i] carries no identifier or an empty one, the call raises
    [Exception('ETAG_MISSING')] and does nothing after that response; part
    [i] is not recorded: no store write for it is made and its flag and its
    stored identifier are as before the call; and if the session is pending
    and the flag of part [i] was false, a retry sends part [i] first (unless
    the part size is zero) and nothing before part [i]. *)
Theorem missing_identifier_is_not_recorded (c : Call) (w : World)
    (localId fileHash : string) (collectionID : Z) (e : TrackUploadsEntry)
    (new : list Event) (i : nat) (req : PutRequest) (o : option string) :
  let sk := (localId, fileHash, collectionID) in
  db w !! sk = Some e ->
  on_session sk e c ->
  trace (call c w).2 = trace w ++ new ->
  S3Put i req (PutOk o) ∈ new ->
  etag_missing o = true ->
  (call c w).1 = Throw (Exception_ "ETAG_MISSING")
  /\ last new = Some (S3Put i req (PutOk o))
  /\ (forall key s, DbUpdatePartStatus key i s ∉ new)
  /\ exists e',
       db (call c w).2 !! sk = Some e'
       /\ entry_status e' = entry_status e
       /\ entry_partUploadStatus e' !! i = entry_partUploadStatus e !! i
       /\ etag_get i (entry_partETags e') = etag_get i (entry_partETags e)
       /\ (entry_status e = pending ->
           entry_partUploadStatus e !! i = Some false ->
           forall f',
           exists new' j,
             trace (resume f' localId fileHash collectionID (call c w).2).2
             = trace (call c w).2 ++ new'
             /\ put_indices new' = seq i j
             /\ (entry_partSize e <> 0%Z -> (1 <= j)%nat)).
Proof.
  intros sk He Hc Htr Hin Hmiss. subst sk.
  assert (Hrow : (call c w).1 = Throw (Exception_ "ETAG_MISSING")
                 /\ last new = Some (S3Put i req (PutOk o))
                 /\ (forall key s, DbUpdatePartStatus key i s ∉ new)
                 /\ exists e',
                      db (call c w).2 !! (localId, fileHash, collectionID) = Some e'
                               /\ row_after_missing e e' i).
  { destruct c as [u f|f l h cid]; simpl in Hc, Htr |- *.
    - subst u. rewrite putMultipartFile_run in *.
      apply (upload_run_missing_row multipartPartSize multipartPartSizeInternal
               convertJs2Xml this
               (MultipartInfo_of_urls (entry_urls e)) f w _
               new i req o (localId, fileHash, collectionID) e
               (uploadAndComplete_run _ _ _ _ _ _ _));
        try done.
      intros j Hj. unfold start_index in Hj. simpl in Hj. lia.
    - injection Hc as -> -> ->.
          destruct (entry_status e) eqn:Hs.
      + rewrite (resume_pending_run _ _ _ _ _ _ _ _ _ e He Hs) in *.
        destruct (upload_run_trace multipartPartSize multipartPartSizeInternal
                    convertJs2Xml this (entry_info e) f
                    (loaded (localId, fileHash, collectionID) w) _
                    (uploadAndComplete_run multipartPartSize
                       multipartPartSizeInternal convertJs2Xml this
                       (entry_info e) f (loaded (localId, fileHash, collectionID) w)))
          as (ss0 & tail0 & _ & Htr0 & _).
        rewrite Htr0 in Htr. simpl in Htr. rewrite <- app_assoc in Htr.
        apply app_inv_head in Htr. simpl in Htr. subst new.
        rewrite !elem_of_cons in Hin. destruct Hin as [?|[?|Hin]]; [done..|].
        destruct (upload_run_missing_row multipartPartSize multipartPartSizeInternal
                    convertJs2Xml this
                    (entry_info e) f (loaded (localId, fileHash, collectionID) w) _
                    _ i req o (localId, fileHash, collectionID) e
                    (uploadAndComplete_run _ _ _ _ _ _ _)
                    Htr0 Hin Hmiss He eq_refl)
          as (Hres & Hlast & Hnw & e' & Hdb & Hrow).
        { intros j Hj. by apply first_false_prefix. }
        split; [done|]. split.
        { rewrite !last_cons. by rewrite Hlast. }
        split; [|by exists e'].
        intros key s Hw. rewrite !elem_of_cons in Hw.
        destruct Hw as [?|[?|Hw]]; [done..|]. by apply (Hnw key s).
      + exfalso.
        destruct (resume_uploaded multipartPartSize multipartPartSizeInternal
                    convertJs2Xml this f localId fileHash collectionID w e He Hs)
          as (resp & _ & Hrun).
        rewrite Hrun in Htr.
        destruct resp; simpl in Htr; apply app_inv_head in Htr; subst new;
          no_such_event Hin.
      + exfalso.
        rewrite (putExistingMultipartFile_unfold _ _ _ _ _ _ _ _ _ e He), Hs in Htr.
        simpl in Htr. apply app_inv_head in Htr. subst new.
        no_such_event Hin. }
  destruct Hrow as (Hres & Hlast & Hnw & e' & Hdb
                    & Hu & Hps & Hst & Hflag & Hetag & Hlt & Hfirst).
  split; [done|]. split; [done|]. split; [done|].
  exists e'. repeat split; try done.
  intros Hpend Hfalse f'.
  destruct (resume_pending_put_indices multipartPartSize multipartPartSizeInternal
              convertJs2Xml this f' localId fileHash collectionID _ e' Hdb
              ltac:(by rewrite Hst))
    as (new' & j & Htr' & Hput & _ & _ & Hone).
  rewrite (Hfirst Hfalse), Hu, Hps in *.
  exists new', j. repeat split; try done. intros Hnz. by apply Hone.
Qed.

End MissingIdentifierRaises.

Lemma missing_identifier_is_not_recorded_witness :
  (Instances.resume_on Demo.no_identifier (Demo.world Instances.pending_session)).1
  = Throw (Exception_ "ETAG_MISSING")
  /\ exists e',
       db (Instances.resume_on Demo.no_identifier
             (Demo.world Instances.pending_session)).2 !! Demo.sk = Some e'
       /\ entry_partUploadStatus e' !! 2%nat = Some false
       /\ etag_get 2 (entry_partETags e') = None.
Proof.
  destruct (missing_identifier_is_not_recorded Demo.partSizeGeneral
              Demo.partSizeInternal Demo.xml (Demo.uploader Demo.no_identifier)
              (Resume Instances.file "local" "hash" 7)
              (Demo.world Instances.pending_session) "local" "hash" 7
              Instances.pending_session
              [DbGetCachedLinks Demo.sk; DbUpdateLastAttempted Demo.sk;
               S3Put 2 Instances.third_part (PutOk None)]
              2 Instances.third_part None eq_refl eq_refl eq_refl)
    as (Hres & _ & _ & e' & Hdb & _ & Hflag & Hetag & _).
  - rewrite !elem_of_cons. auto.
  - reflexivity.
  - split; [exact Hres|]. exists e'. split; [exact Hdb|]. split.
    + rewrite Hflag. reflexivity.
    + rewrite Hetag. reflexivity.
Defined.

(** ** C5: the completion body *)

Section Completion.

Variable convertJs2Xml : list (string * list PartETag) -> string.
Variable this : MultiPartUploader.


End Completion.


(** ** C6: resuming a completed session *)

Section ResumeCompleted.

Variable multipartPartSize : Z.
Variable multipartPartSizeInternal : Z.
Variable convertJs2Xml : list (string * list PartETag) -> string.
Variable this : MultiPartUploader.

Local Abbreviation resume :=
  (putExistingMultipartFile multipartPartSize multipartPartSizeInternal
     convertJs2Xml this).

(** C6: resuming a session whose status is completed sends no part, makes
    no finalize call, leaves the store as it is and returns the stored
    object key. *)
Theorem resume_completed_is_noop (encryptedFile : File) (localId fileHash : string)
    (collectionID : Z) (w : World) (e : TrackUploadsEntry) :
  db w !! (localId, fileHash, collectionID) = Some e ->
  entry_status e = completed ->
  exists new,
    resume encryptedFile localId fileHash collectionID w
    = (Ok (objectKey (entry_urls e)), {| db := db w; trace := trace w ++ new |})
    /\ put_indices new = []
    /\ posts new = [].
Proof.
  intros He Hs.
  rewrite (putExistingMultipartFile_unfold _ _ _ _ _ _ _ _ _ e He), Hs. simpl.
  by eexists.
Qed.

End ResumeCompleted.

Lemma resume_completed_is_noop_witness :
  exists new,
    putExistingMultipartFile Demo.partSizeGeneral Demo.partSizeInternal Demo.xml
      (Demo.uploader Demo.accepting) {| lengthSync := 30000000 |}
      "local" "hash" 7
      (Demo.world (Demo.entry completed [true; true; true]
                     [(0, "a"); (1, "b"); (2, "c")]))
    = (Ok "obj",
       {| db := db (Demo.world (Demo.entry completed [true; true; true]
                                  [(0, "a"); (1, "b"); (2, "c")]));
          trace := [] ++ new |})
    /\ put_indices new = []
    /\ posts new = [].
Proof.
  apply (resume_completed_is_noop Demo.partSizeGeneral Demo.partSizeInternal
           Demo.xml (Demo.uploader Demo.accepting) {| lengthSync := 30000000 |}
           "local" "hash" 7
           (Demo.world (Demo.entry completed [true; true; true]
                          [(0, "a"); (1, "b"); (2, "c")]))
           (Demo.entry completed [true; true; true]
              [(0, "a"); (1, "b"); (2, "c")])).
  - apply lookup_singleton_eq.
  - reflexivity.
Defined.

(** ** C7: the order of persistence *)

Section PersistenceFollowsConfirmation.

Variable multipartPartSize : Z.
Variable multipartPartSizeInternal : Z.
Variable convertJs2Xml : list (string * list PartETag) -> string.
Variable this : MultiPartUploader.

Local Abbreviation call :=
  (run_call multipartPartSize multipartPartSizeInternal convertJs2Xml this).

(** C7: in every call of an entry point, a part is recorded in the store
    only immediately after the response to that part's upload carried the
    recorded identifier, which is not empty; and the status completed is
    written only immediately after a finalize call that succeeded. *)
Theorem persistence_follows_confirmation (c : Call) (w : World) :
  exists new,
    trace (call c w).2 = trace w ++ new
    /\ (forall pre key i etag post,
          new = pre ++ DbUpdatePartStatus key i etag :: post ->
          etag <> EmptyString /\
          exists pre' req, pre = pre' ++ [S3Put i req (PutOk (Some etag))])
    /\ (forall pre key post,
          new = pre ++ DbUpdateTrackUploadStatus key completed :: post ->
          exists pre' req, pre = pre' ++ [S3Post req PostOk]).
Proof.
  destruct (run_call_ordered multipartPartSize multipartPartSizeInternal
              convertJs2Xml this c w) as (new & Htr & Hord).
  exists new. split; [done|]. split.
  - intros pre key i etag post ->.
    pose proof (persistence_ordered_split None _ _ _ (Hord None)) as Hc.
    simpl in Hc. destruct Hc as (Hne & req & Hlast). split; [done|].
    destruct (last pre) as [x|] eqn:Hl; [|done]. simplify_eq.
    apply last_Some in Hl as [pre' ->]. eauto.
  - intros pre key post ->.
    pose proof (persistence_ordered_split None _ _ _ (Hord None)) as Hc.
    simpl in Hc. destruct Hc as (req & Hlast).
    destruct (last pre) as [x|] eqn:Hl; [|done]. simplify_eq.
    apply last_Some in Hl as [pre' ->]. eauto.
Qed.

End PersistenceFollowsConfirmation.

(** ** C8: a finalize call that fails *)

Section FailedFinalize.

Variable multipartPartSize : Z.
Variable multipartPartSizeInternal : Z.
Variable convertJs2Xml : list (string * list PartETag) -> string.
Variable this : MultiPartUploader.

Local Abbreviation resume :=
  (putExistingMultipartFile multipartPartSize multipartPartSizeInternal
     convertJs2Xml this).

(** C8: when the finalize call of an uploaded session fails, the exception
    reaches the caller as raised, no part is sent, the store is left as it
    was, so the status remains uploaded; and a retry, whatever the endpoint
    then answers, sends no part and makes exactly one finalize call with
    the same body. *)
Theorem failed_finalize_keeps_uploaded (encryptedFile : File)
    (localId fileHash : string) (collectionID : Z) (w : World)
    (e : TrackUploadsEntry) (ex : Exception) :
  let sk := (localId, fileHash, collectionID) in
  let body := completionBody convertJs2Xml (entry_partETags e) in
  db w !! sk = Some e ->
  entry_status e = uploaded ->
  s3_post (_s3Dio this) (trace (loaded sk w))
    (completionRequest convertJs2Xml (entry_partETags e)
       (completeURL (entry_urls e))) = PostFailed ex ->
  exists new,
    resume encryptedFile localId fileHash collectionID w
    = (Throw ex, {| db := db w; trace := trace w ++ new |})
    /\ put_indices new = []
    /\ posts new = [body]
    /\ entry_status <$> (db w !! sk) = Some uploaded
    /\ forall encryptedFile',
        exists r w'' new',
          resume encryptedFile' localId fileHash collectionID
            {| db := db w; trace := trace w ++ new |} = (r, w'')
          /\ trace w'' = (trace w ++ new) ++ new'
          /\ put_indices new' = []
          /\ posts new' = [body].
Proof.
  intros sk body He Hs Hfail.
  destruct (resume_uploaded multipartPartSize multipartPartSizeInternal
              convertJs2Xml this
              encryptedFile localId fileHash collectionID w e He Hs)
    as (resp & Hresp & Hrun).
  fold sk in Hresp. rewrite Hfail in Hresp. subst resp.
  eexists. split; [exact Hrun|]. split; [done|]. split; [done|].
  split; [by rewrite He; simpl; rewrite Hs|].
  intros encryptedFile'.
  match goal with |- context [resume _ _ _ _ ?w1] =>
    destruct (resume_uploaded multipartPartSize multipartPartSizeInternal
                convertJs2Xml this
                encryptedFile' localId fileHash collectionID w1 e He Hs)
      as (resp' & _ & Hrun') end.
  rewrite Hrun'. destruct resp'; do 3 eexists; (split; [done|]); simpl;
    (split; [done|]); by split.
Qed.

End FailedFinalize.

Lemma failed_finalize_keeps_uploaded_witness :
  exists new,
    Instances.resume_on Demo.rejecting_finalize (Demo.world Instances.uploaded_session)
    = (Throw (DioException "finalize rejected"),
       {| db := db (Demo.world Instances.uploaded_session); trace := [] ++ new |})
    /\ put_indices new = []
    /\ entry_status <$> (db (Demo.world Instances.uploaded_session) !! Demo.sk)
       = Some uploaded.
Proof.
  destruct (failed_finalize_keeps_uploaded Demo.partSizeGeneral Demo.partSizeInternal
              Demo.xml (Demo.uploader Demo.rejecting_finalize) Instances.file
              "local" "hash" 7 (Demo.world Instances.uploaded_session)
              Instances.uploaded_session (DioException "finalize rejected")
              eq_refl eq_refl eq_refl)
    as (new & Hrun & Hput & _ & Hst & _).
  exists new. repeat split; assumption.
Defined.

(** ** C9: the status never steps back *)

Section StatusNeverRegresses.

Variable multipartPartSize : Z.
Variable multipartPartSizeInternal : Z.
Variable convertJs2Xml : list (string * list PartETag) -> string.
Variable this : MultiPartUploader.

Local Abbreviation call :=
  (run_call multipartPartSize multipartPartSizeInternal convertJs2Xml this).
Local Abbreviation calls :=
  (run_calls multipartPartSize multipartPartSizeInternal convertJs2Xml this).

(** C9: over every sequence of calls of the orchestrator on one session
    (resumes, after at most one fresh upload on the session as created),
    the statuses persisted for the session's object key, starting from the
    session's status, never step back on the path pending, uploaded,
    completed; the session's status at the end is the last one written;
    and once the status is completed every later one is completed. *)
Theorem status_never_regresses (sk : SessionKey) (e : TrackUploadsEntry)
    (cs : list Call) (w : World) :
  db w !! sk = Some e ->
  session_calls sk e cs ->
  exists new e',
    let ws := status_writes (objectKey (entry_urls e)) new in
    trace (calls cs w) = trace w ++ new
    /\ db (calls cs w) !! sk = Some e'
    /\ advances (entry_status e) ws
    /\ entry_status e' = status_after (entry_status e) ws
    /\ (forall pre post,
          entry_status e :: ws = pre ++ completed :: post ->
          Forall (fun s => s = completed) post).
Proof.
  intros He Hcs.
  assert (Hstep : exists new e', session_step sk e w (calls cs w) new e').
  { destruct cs as [|[u f|f l h cid] cs'].
    - by apply resumes_steps.
    - destruct Hcs as (-> & Hs & Hcs). simpl.
      destruct (fresh_step multipartPartSize multipartPartSizeInternal
                  convertJs2Xml this
                  sk e f w He ltac:(by rewrite Hs)) as (new1 & e1 & Hstep1).
      destruct (resumes_steps multipartPartSize multipartPartSizeInternal
                  convertJs2Xml this
                  sk cs' Hcs e1 _ (proj1 (proj2 Hstep1)))
        as (new2 & e2 & Hstep2).
      exists (new1 ++ new2), e2. by eapply session_step_compose.
    - by apply resumes_steps. }
  destruct Hstep as (new & e' & Htr & Hdb & Hu & Hadv & Hst).
  exists new, e'. simpl. repeat split; try done.
  intros pre post. by apply advances_after_completed.
Qed.

End StatusNeverRegresses.

Lemma status_never_regresses_witness :
  exists new e',
    trace (run_calls Demo.partSizeGeneral Demo.partSizeInternal Demo.xml
             (Demo.uploader Demo.rejecting_finalize)
             [Fresh Demo.urls3 Instances.file;
              Resume Instances.file "local" "hash" 7;
              Resume Instances.file "local" "hash" 7]
             (Demo.world Instances.created_session))
    = [] ++ new
    /\ advances pending (status_writes "obj" new)
    /\ entry_status e' = status_after pending (status_writes "obj" new).
Proof.
  destruct (status_never_regresses Demo.partSizeGeneral Demo.partSizeInternal
              Demo.xml (Demo.uploader Demo.rejecting_finalize) Demo.sk
              Instances.created_session
              [Fresh Demo.urls3 Instances.file;
               Resume Instances.file "local" "hash" 7;
               Resume Instances.file "local" "hash" 7]
              (Demo.world Instances.created_session) eq_refl)
    as (new & e' & Htr & _ & Hadv & Hst & _).
  - simpl. repeat split; repeat constructor.
  - exists new, e'. repeat split; assumption.
Defined.

(** ** C10: resuming after a gap *)

Section ResumeAfterGapResends.

Variable multipartPartSize : Z.
Variable multipartPartSizeInternal : Z.
Variable convertJs2Xml : list (string * list PartETag) -> string.
Variable this : MultiPartUploader.

Local Abbreviation resume :=
  (putExistingMultipartFile multipartPartSize multipartPartSizeInternal
     convertJs2Xml this).

(** C10: resuming a pending session makes no check of its part flags.
    With [k] the index of the first [false] flag (the flags after it being
    arbitrary), an endpoint that identifies every part and a non-zero part
    size, the resume sends every part from [k] to the last, among them the
    parts after [k] whose flag was already [true]; it goes on to the
    finalize call.  Each of these parts is sent again as the loop builds
    it, to the part's own URL with the part's byte range and declared
    length, and is recorded again: the store write is made, the flag is
    set, and the identifier stored for it afterwards is the one just
    received. *)
Theorem resume_after_gap_resends (f : File) (localId fileHash : string)
    (collectionID : Z) (w : World) (e : TrackUploadsEntry) :
  let sk := (localId, fileHash, collectionID) in
  let k := first_false (entry_partUploadStatus e) in
  let n := length (partsURLs (entry_urls e)) in
  db w !! sk = Some e ->
  entry_status e = pending ->
  always_identifies (_s3Dio this) ->
  entry_partSize e <> 0%Z ->
  exists new e',
    trace (resume f localId fileHash collectionID w).2 = trace w ++ new
    /\ db (resume f localId fileHash collectionID w).2 !! sk = Some e'
    /\ put_indices new = seq k (n - k)
    /\ length (posts new) = 1%nat
    /\ (forall j, (k < j < n)%nat ->
                  entry_partUploadStatus e !! j = Some true ->
                  j ∈ put_indices new)
    /\ (forall j, (k <= j < n)%nat ->
          exists req s,
            S3Put j req (PutOk (Some s)) ∈ new
            /\ s <> EmptyString
            /\ etag_get j (entry_partETags e') = Some s
            /\ request_of_part (partsURLs (entry_urls e)) (entry_partSize e)
                 f j req
            /\ DbUpdatePartStatus (objectKey (entry_urls e)) j s ∈ new
            /\ ((j < length (entry_partUploadStatus e))%nat ->
                entry_partUploadStatus e' !! j = Some true))
    /\ (forall i req resp,
          S3Put i req resp ∈ new ->
          request_of_part (partsURLs (entry_urls e)) (entry_partSize e) f i req).
Proof.
  intros sk k n He Hs Hgood Hps. subst sk k n.
  destruct (resume_pending_report multipartPartSize multipartPartSizeInternal
              convertJs2Xml this f localId fileHash collectionID w e He Hs)
    as (new & j & e' & Htr & Hdb & Hput & Hb & _ & _ & Hreq & Hrec & _ & Hall).
  destruct (Hall Hgood Hps) as (Hge & Hposts & Hsent).
  assert (Hj : j = (length (partsURLs (entry_urls e))
                    - first_false (entry_partUploadStatus e))%nat) by lia.
  exists new, e'. split; [done|]. split; [done|].
  split; [by rewrite Hput, Hj|]. split; [done|]. split.
  - intros i Hi _. rewrite Hput. apply elem_of_seq. lia.
  - split; [|done]. intros i Hi.
    destruct (Hsent i Hi) as (req & s & Hin & Hne).
    destruct (Hrec i req s Hin Hne) as (Hw & Hflag & Hetag).
    exists req, s. repeat split; try done.
    all: by apply (Hreq i req _ Hin).
Qed.

End ResumeAfterGapResends.

Lemma resume_after_gap_resends_witness :
  trace (Instances.resume_on Demo.accepting (Demo.world Instances.gap_session)).2
  = [DbGetCachedLinks Demo.sk; DbUpdateLastAttempted Demo.sk;
     S3Put 1 Instances.second_part (PutOk (Some "etag-u1"));
     DbUpdatePartStatus "obj" 1 "etag-u1";
     S3Put 2 Instances.third_part (PutOk (Some "etag-u2"));
     DbUpdatePartStatus "obj" 2 "etag-u2";
     DbUpdateTrackUploadStatus "obj" uploaded;
     S3Post {| post_url := "done"; post_body := "1=a;3=etag-u2;2=etag-u1";
               contentType := "text/xml" |} PostOk;
     DbUpdateTrackUploadStatus "obj" completed]
  /\ request_of_part ["u0"; "u1"; "u2"] 10000000 Instances.file 2
       Instances.third_part
  /\ exists e',
       db (Instances.resume_on Demo.accepting
             (Demo.world Instances.gap_session)).2 !! Demo.sk = Some e'
       /\ entry_partUploadStatus e' !! 2%nat = Some true
       /\ etag_get 2 (entry_partETags e') = Some "etag-u2".
Proof.
  destruct (resume_after_gap_resends Demo.partSizeGeneral Demo.partSizeInternal
              Demo.xml (Demo.uploader Demo.accepting) Instances.file
              "local" "hash" 7 (Demo.world Instances.gap_session)
              Instances.gap_session eq_refl eq_refl)
    as (new & e' & Htr & Hdb & _ & _ & _ & Hparts & Hreq).
  - intros h req. eexists. split; [reflexivity|discriminate].
  - discriminate.
  - vm_compute in Htr. subst new.
    split; [reflexivity|].
    destruct (Hparts 2%nat ltac:(simpl; lia))
      as (req & s & Hput & _ & Hetag & Hfields & _ & Hflag).
    split.
    + apply (Hreq 2%nat Instances.third_part (PutOk (Some "etag-u2"))).
      rewrite !elem_of_cons. auto 10.
    + exists e'. split; [exact Hdb|]. split; [apply Hflag; simpl; lia|].
      rewrite Hetag. f_equal.
      rewrite !elem_of_cons in Hput.
      repeat (destruct Hput as [Hput|Hput]; [try discriminate; by injection Hput|]).
      by apply elem_of_nil in Hput.
Defined.

(** The flags [true, false, true]: parts 1 and 2 are sent, the identifier
    stored for part 2 is replaced, and the finalize call lists the parts in
    the order 1, 3, 2 of the map's entries. *)
Example resume_true_false_true :
  let run :=
    putExistingMultipartFile Demo.partSizeGeneral Demo.partSizeInternal
      Demo.xml (Demo.uploader Demo.accepting) {| lengthSync := 25000000 |}
      "local" "hash" 7
      (Demo.world (Demo.entry pending [true; false; true] [(0, "a"); (2, "c")])) in
  run.1 = Ok "obj"
  /\ put_indices (trace run.2) = [1; 2]
  /\ (entry_partETags <$> db run.2 !! Demo.sk)
     = Some [(0, "a"); (2, "etag-u2"); (1, "etag-u1")]
  /\ posts (trace run.2) = ["1=a;3=etag-u2;2=etag-u1"].
Proof. vm_compute. repeat split; reflexivity. Qed.

(** * Further properties *)

(** ** The row of a session after a call *)

(** The rows that differ at most in the status. *)
Definition same_parts (e e' : TrackUploadsEntry) : Prop :=
  entry_urls e' = entry_urls e
  /\ entry_partSize e' = entry_partSize e
  /\ entry_partUploadStatus e' = entry_partUploadStatus e
  /\ entry_partETags e' = entry_partETags e.

(** The part at which a call on the session of the row [e] starts. *)
Definition call_start (e : TrackUploadsEntry) (c : Call) : nat :=
  match c with
  | Fresh _ _ => 0
  | Resume _ _ _ _ => first_false (entry_partUploadStatus e)
  end.

(** Every flagged part of the row has a non-empty identifier stored. *)
Definition flagged_parts_identified (e : TrackUploadsEntry) : Prop :=
  forall j, entry_partUploadStatus e !! j = Some true ->
            exists s, etag_get j (entry_partETags e) = Some s /\ s <> EmptyString.

Lemma db_update_lookup_other (key : string)
    (f : TrackUploadsEntry -> TrackUploadsEntry) (d : UploadLocksDB)
    (sk : SessionKey) (e : TrackUploadsEntry) :
  d !! sk = Some e ->
  objectKey (entry_urls e) <> key ->
  db_update key f d !! sk = Some e.
Proof.
  intros He Hk. unfold db_update. rewrite lookup_fmap, He. simpl.
  unfold entry_of_key. by rewrite bool_decide_eq_false_2.
Qed.

Lemma db_update_lookup_None (key : string)
    (f : TrackUploadsEntry -> TrackUploadsEntry) (d : UploadLocksDB)
    (sk : SessionKey) :
  d !! sk = None -> db_update key f d !! sk = None.
Proof. intros He. unfold db_update. by rewrite lookup_fmap, He. Qed.

Section RowsAfterCalls.

Variable multipartPartSize : Z.
Variable multipartPartSizeInternal : Z.
Variable convertJs2Xml : list (string * list PartETag) -> string.
Variable this : MultiPartUploader.

Local Abbreviation call :=
  (run_call multipartPartSize multipartPartSizeInternal convertJs2Xml this).
Local Abbreviation resume :=
  (putExistingMultipartFile multipartPartSize multipartPartSizeInternal
     convertJs2Xml this).

(** The row of the session after a run: the parts [ss] recorded from the
    start index on, and a status; the run returns normally only with every
    part recorded and the status [completed]. *)
Lemma upload_run_row (partInfo : MultipartInfo) (f : File) (w : World) out
    (sk : SessionKey) (e : TrackUploadsEntry) :
  upload_run multipartPartSize multipartPartSizeInternal convertJs2Xml this
    partInfo f w out ->
  db w !! sk = Some e ->
  objectKey (entry_urls e) = objectKey (urls partInfo) ->
  let k := start_index partInfo in
  let n := length (partsURLs (urls partInfo)) in
  exists ss e',
    Forall (fun s => s <> EmptyString) ss
    /\ (ss = [] \/ k + length ss <= n)%nat
    /\ db out.2 !! sk = Some e'
    /\ same_parts (record_parts k ss e) e'
    /\ (forall v, out.1 = Ok v ->
          v = objectKey (urls partInfo) /\ (n <= k + length ss)%nat
          /\ entry_status e' = completed).
Proof.
  intros Hrun He Hkey k n. subst k n.
  destruct Hrun as [ss ex w' Hss Hlen Hpart
    |ss ex Hss Hb Hlen Hpost|ss Hss Hb Hlen Hpost].
  - apply part_outcome_throw in Hpart as [Hdb _]. simpl.
    exists ss, (record_parts (start_index partInfo) ss e).
    split; [done|]. split; [right; lia|]. rewrite Hdb. simpl.
    split; [by apply db_update_lookup|]. split; [done|]. intros v Hv. done.
  - exists ss, (entry_set_status uploaded
                  (record_parts (start_index partInfo) ss e)).
    simpl. split; [done|]. split; [done|]. split.
    { apply db_update_lookup; [by apply db_update_lookup|].
      by rewrite record_parts_urls. }
    split; [done|]. intros v Hv. done.
  - exists ss, (entry_set_status completed
                  (entry_set_status uploaded
                     (record_parts (start_index partInfo) ss e))).
    simpl. split; [done|]. split; [done|]. split.
    { apply db_update_lookup;
        [apply db_update_lookup; [by apply db_update_lookup|]|];
        simpl; by rewrite record_parts_urls. }
    split; [done|]. intros v Hv. by injection Hv as <-.
Qed.

(** The same for a call of either entry point on the session. *)
Lemma call_row (c : Call) (w : World) (sk : SessionKey) (e : TrackUploadsEntry) :
  db w !! sk = Some e ->
  on_session sk e c ->
  let k := call_start e c in
  let n := length (partsURLs (entry_urls e)) in
  exists ss e',
    Forall (fun s => s <> EmptyString) ss
    /\ (ss = [] \/ k + length ss <= n)%nat
    /\ db (call c w).2 !! sk = Some e'
    /\ same_parts (record_parts k ss e) e'
    /\ (forall v, (call c w).1 = Ok v ->
          v = objectKey (entry_urls e) /\ entry_status e' = completed
          /\ (entry_status e = pending -> (n <= k + length ss)%nat)).
Proof.
  intros He Hc k n. subst k n.
  destruct c as [u f|f l h cid]; simpl in Hc |- *.
  - subst u. rewrite putMultipartFile_run.
    destruct (upload_run_row (MultipartInfo_of_urls (entry_urls e)) f w _ sk e
                (uploadAndComplete_run _ _ _ _ _ _ _) He eq_refl)
      as (ss & e' & Hss & Hb & Hdb & Hsame & Hok).
    exists ss, e'. split; [done|]. split; [done|]. split; [done|].
    split; [done|]. intros v Hv. by destruct (Hok v Hv) as (-> & ? & ?).
  - subst sk. destruct (entry_status e) eqn:Hs.
    + rewrite (resume_pending_run _ _ _ _ _ _ _ _ _ e He Hs).
      destruct (upload_run_row (entry_info e) f (loaded (l, h, cid) w) _
                  (l, h, cid) e (uploadAndComplete_run _ _ _ _ _ _ _) He eq_refl)
        as (ss & e' & Hss & Hb & Hdb & Hsame & Hok).
      exists ss, e'. split; [done|]. split; [done|]. split; [done|].
      split; [done|]. intros v Hv. by destruct (Hok v Hv) as (-> & ? & ?).
    + destruct (resume_uploaded multipartPartSize multipartPartSizeInternal
                  convertJs2Xml this f l h cid w e He Hs) as (resp & _ & ->).
      destruct resp as [|ex].
      * exists [], (entry_set_status completed e). simpl.
        split; [done|]. split; [by left|].
        split; [by apply db_update_lookup|]. split; [done|].
        intros v Hv. by injection Hv as <-.
      * exists [], e. simpl. by repeat split; try done; try (by left).
    + rewrite (putExistingMultipartFile_unfold _ _ _ _ _ _ _ _ _ e He), Hs.
      exists [], e. simpl. split; [done|]. split; [by left|].
      split; [done|]. split; [done|]. intros v Hv. by injection Hv as <-.
Qed.

End RowsAfterCalls.

(** ** X1: a normal return *)

Section NormalReturn.

Variable multipartPartSize : Z.
Variable multipartPartSizeInternal : Z.
Variable convertJs2Xml : list (string * list PartETag) -> string.
Variable this : MultiPartUploader.

Local Abbreviation call :=
  (run_call multipartPartSize multipartPartSizeInternal convertJs2Xml this).
Local Abbreviation resume :=
  (putExistingMultipartFile multipartPartSize multipartPartSizeInternal
     convertJs2Xml this).

(** X1: a call on a session that returns normally returns the session's
    object key and leaves the session [completed]; a resume that follows it
    returns the same key, and does nothing but load the session and touch its
    last attempt: no part is sent, no finalize call is made and the store is
    unchanged. *)
Theorem normal_return_means_completed (c : Call) (w : World)
    (localId fileHash : string) (collectionID : Z) (e : TrackUploadsEntry)
    (v : string) :
  let sk := (localId, fileHash, collectionID) in
  db w !! sk = Some e ->
  on_session sk e c ->
  (call c w).1 = Ok v ->
  v = objectKey (entry_urls e)
  /\ (exists e', db (call c w).2 !! sk = Some e' /\ entry_status e' = completed)
  /\ forall f',
       resume f' localId fileHash collectionID (call c w).2
       = (Ok v, {| db := db (call c w).2;
                   trace := trace (call c w).2
                            ++ [DbGetCachedLinks sk; DbUpdateLastAttempted sk] |}).
Proof.
  intros sk He Hc Hv. subst sk.
  destruct (call_row multipartPartSize multipartPartSizeInternal convertJs2Xml
              this c w _ e He Hc)
    as (ss & e' & _ & _ & Hdb & (Hu & _) & Hok).
  destruct (Hok v Hv) as (-> & Hst & _).
  split; [done|]. split; [by exists e'|]. intros f'.
  rewrite (putExistingMultipartFile_unfold _ _ _ _ _ _ _ _ _ e' Hdb), Hst.
  simpl. by rewrite Hu, record_parts_urls.
Qed.

End NormalReturn.

Lemma normal_return_means_completed_witness :
  exists e',
    db (Instances.resume_on Demo.accepting
          (Demo.world Instances.pending_session)).2 !! Demo.sk = Some e'
    /\ entry_status e' = completed.
Proof.
  destruct (normal_return_means_completed Demo.partSizeGeneral
              Demo.partSizeInternal Demo.xml (Demo.uploader Demo.accepting)
              (Resume Instances.file "local" "hash" 7)
              (Demo.world Instances.pending_session) "local" "hash" 7
              Instances.pending_session "obj" eq_refl eq_refl eq_refl)
    as (_ & Hrow & _).
  exact Hrow.
Defined.

(** ** X2: the parts recorded by a successful call *)

Section EveryPartRecorded.

Variable multipartPartSize : Z.
Variable multipartPartSizeInternal : Z.
Variable convertJs2Xml : list (string * list PartETag) -> string.
Variable this : MultiPartUploader.

Local Abbreviation call :=
  (run_call multipartPartSize multipartPartSizeInternal convertJs2Xml this).

(** X2: after a call on a pending session returns normally, every part of
    the session that has a flag is flagged as uploaded, and every part from
    the one the call started at has a non-empty identifier stored. *)
Theorem successful_call_records_every_part (c : Call) (w : World)
    (sk : SessionKey) (e : TrackUploadsEntry) (v : string) :
  db w !! sk = Some e ->
  on_session sk e c ->
  entry_status e = pending ->
  (call c w).1 = Ok v ->
  let n := length (partsURLs (entry_urls e)) in
  exists e',
    db (call c w).2 !! sk = Some e'
    /\ (forall j, (j < n)%nat -> (j < length (entry_partUploadStatus e))%nat ->
                  entry_partUploadStatus e' !! j = Some true)
    /\ (forall j, (call_start e c <= j < n)%nat ->
                  exists s, etag_get j (entry_partETags e') = Some s
                            /\ s <> EmptyString).
Proof.
  intros He Hc Hs Hv n. subst n.
  destruct (call_row multipartPartSize multipartPartSizeInternal convertJs2Xml
              this c w sk e He Hc)
    as (ss & e' & Hss & Hb & Hdb & (_ & _ & Hflags & Hetags) & Hok).
  destruct (Hok v Hv) as (_ & _ & Hall). specialize (Hall Hs).
  exists e'. split; [done|]. split.
  - intros j Hj Hlen. rewrite Hflags.
    destruct (decide (j < call_start e c)%nat) as [Hlo|Hhi].
    + rewrite record_parts_flags_other by lia.
      destruct c; simpl in Hlo; [lia|]. by apply first_false_prefix.
    + apply record_parts_flags_in; [lia|done].
  - intros j Hj. rewrite Hetags, record_parts_etags.
    destruct (lookup_lt_is_Some_2 ss (j - call_start e c)) as [s Hs']; [lia|].
    exists s. split.
    + replace j with (call_start e c + (j - call_start e c))%nat at 1 by lia.
      by apply etag_get_put_etags_in.
    + rewrite Forall_forall in Hss. apply Hss. by eapply list_elem_of_lookup_2.
Qed.

End EveryPartRecorded.

Lemma successful_call_records_every_part_witness :
  exists e',
    db (Instances.resume_on Demo.accepting
          (Demo.world Instances.gap_session)).2 !! Demo.sk = Some e'
    /\ entry_partUploadStatus e' !! 1%nat = Some true
    /\ exists s, etag_get 2 (entry_partETags e') = Some s /\ s <> EmptyString.
Proof.
  destruct (successful_call_records_every_part Demo.partSizeGeneral
              Demo.partSizeInternal Demo.xml (Demo.uploader Demo.accepting)
              (Resume Instances.file "local" "hash" 7)
              (Demo.world Instances.gap_session) Demo.sk
              Instances.gap_session "obj" eq_refl eq_refl eq_refl eq_refl)
    as (e' & Hdb & Hflags & Hetags).
  exists e'. split; [exact Hdb|]. split.
  - apply Hflags; simpl; lia.
  - apply Hetags. simpl. lia.
Defined.

(** ** X3: flagged parts have identifiers *)

Section FlaggedPartsIdentified.

Variable multipartPartSize : Z.
Variable multipartPartSizeInternal : Z.
Variable convertJs2Xml : list (string * list PartETag) -> string.
Variable this : MultiPartUploader.

Local Abbreviation call :=
  (run_call multipartPartSize multipartPartSizeInternal convertJs2Xml this).
Local Abbreviation calls :=
  (run_calls multipartPartSize multipartPartSizeInternal convertJs2Xml this).

Lemma call_keeps_identified (c : Call) (w : World) (sk : SessionKey)
    (e : TrackUploadsEntry) :
  db w !! sk = Some e ->
  on_session sk e c ->
  flagged_parts_identified e ->
  exists e',
    db (call c w).2 !! sk = Some e'
    /\ entry_urls e' = entry_urls e
    /\ flagged_parts_identified e'.
Proof.
  intros He Hc Hinv.
  destruct (call_row multipartPartSize multipartPartSizeInternal convertJs2Xml
              this c w sk e He Hc)
    as (ss & e' & Hss & _ & Hdb & (Hu & _ & Hflags & Hetags) & _).
  exists e'. split; [done|]. split; [by rewrite Hu, record_parts_urls|].
  intros j Hj. rewrite Hflags in Hj. rewrite Hetags, record_parts_etags.
  destruct (decide (call_start e c <= j < call_start e c + length ss)%nat)
    as [Hin|Hout].
  - destruct (lookup_lt_is_Some_2 ss (j - call_start e c)) as [s Hs]; [lia|].
    exists s. split.
    + replace j with (call_start e c + (j - call_start e c))%nat at 1 by lia.
      by apply etag_get_put_etags_in.
    + rewrite Forall_forall in Hss. apply Hss. by eapply list_elem_of_lookup_2.
  - rewrite record_parts_flags_other in Hj by done.
    rewrite etag_get_put_etags_other by done. by apply Hinv.
Qed.

(** X3: if every flagged part of a session has a non-empty identifier
    stored, this is still so after any sequence of calls on the session,
    however each of them ends: a flag is only set together with the
    non-empty identifier of the part. *)
Theorem flagged_parts_stay_identified (sk : SessionKey) (e : TrackUploadsEntry)
    (cs : list Call) (w : World) :
  db w !! sk = Some e ->
  Forall (on_session sk e) cs ->
  flagged_parts_identified e ->
  exists e', db (calls cs w) !! sk = Some e' /\ flagged_parts_identified e'.
Proof.
  intros He Hcs. revert e w He Hcs.
  induction cs as [|c cs IH]; intros e w He Hcs Hinv; simpl.
  - by exists e.
  - apply Forall_cons in Hcs as [Hc Hcs].
    destruct (call_keeps_identified c w sk e He Hc Hinv) as (e1 & He1 & Hu & Hinv1).
    apply (IH e1); [done| |done].
    eapply Forall_impl; [exact Hcs|]. intros c' Hc'.
    destruct c'; simpl in *; [by rewrite Hu|done].
Qed.

End FlaggedPartsIdentified.

Lemma flagged_parts_stay_identified_witness :
  exists e',
    db (run_calls Demo.partSizeGeneral Demo.partSizeInternal Demo.xml
          (Demo.uploader Demo.no_identifier)
          [Fresh Demo.urls3 Instances.file;
           Resume Instances.file "local" "hash" 7]
          (Demo.world Instances.pending_session)) !! Demo.sk = Some e'
    /\ flagged_parts_identified e'.
Proof.
  apply (flagged_parts_stay_identified Demo.partSizeGeneral
           Demo.partSizeInternal Demo.xml (Demo.uploader Demo.no_identifier)
           Demo.sk Instances.pending_session
           [Fresh Demo.urls3 Instances.file;
            Resume Instances.file "local" "hash" 7]
           (Demo.world Instances.pending_session) eq_refl).
  - repeat constructor.
  - intros [|[|[|j]]] Hj; simpl in Hj; try discriminate.
    + exists "a". split; [reflexivity|discriminate].
    + exists "b". split; [reflexivity|discriminate].
Defined.

(** ** X4: a part whose upload fails *)

Section TransportFailure.

Variable multipartPartSize : Z.
Variable multipartPartSizeInternal : Z.
Variable convertJs2Xml : list (string * list PartETag) -> string.
Variable this : MultiPartUploader.

Local Abbreviation call :=
  (run_call multipartPartSize multipartPartSizeInternal convertJs2Xml this).
Local Abbreviation resume :=
  (putExistingMultipartFile multipartPartSize multipartPartSizeInternal
     convertJs2Xml this).

(** A run in which the upload of part [i] fails stops there, with the
    exception of the storage client, after recording the parts before it. *)
Lemma upload_run_put_failed (partInfo : MultipartInfo) (f : File) (w : World) out
    (new : list Event) (i : nat) (req : PutRequest) (ex : Exception) :
  upload_run multipartPartSize multipartPartSizeInternal convertJs2Xml this
    partInfo f w out ->
  trace out.2 = trace w ++ new ->
  S3Put i req (PutFailed ex) ∈ new ->
  exists ss,
    Forall (fun s => s <> EmptyString) ss
    /\ i = (start_index partInfo + length ss)%nat
    /\ (i < length (partsURLs (urls partInfo)))%nat
    /\ out.1 = Throw ex
    /\ db out.2
       = db_update (objectKey (urls partInfo))
           (record_parts (start_index partInfo) ss) (db w)
    /\ new
       = recorded_events multipartPartSize multipartPartSizeInternal this
           partInfo f ss
         ++ [S3Put i req (PutFailed ex)].
Proof.
  intros Hrun Htr Hin.
  assert (Hrec : forall ss,
            S3Put i req (PutFailed ex)
            ∈ recorded_events multipartPartSize multipartPartSizeInternal this
                partInfo f ss -> False).
  { intros ss Hin'. unfold recorded_events in Hin'.
    by apply parts_events_put in Hin' as (a & s & _ & _ & ?). }
  destruct Hrun as [ss ex' w' Hss Hlen Hpart
    |ss ex' Hss Hb Hlen Hpost|ss Hss Hb Hlen Hpost];
    simpl in Htr.
  - inversion Hpart as [Hi Hz|url e Hurl Hsend Hresp|url o' Hurl Hsend Hresp Ho|];
      subst; simpl in Htr; rewrite <- ?app_assoc in Htr;
      apply app_inv_head in Htr; subst new.
    + by destruct (Hrec ss).
    + apply elem_of_app in Hin as [Hin|Hin]; [by destruct (Hrec ss)|].
      apply list_elem_of_singleton in Hin. injection Hin as -> -> ->.
      exists ss. by repeat split.
    + apply elem_of_app in Hin as [Hin|Hin]; [by destruct (Hrec ss)|].
      by apply list_elem_of_singleton in Hin.
  - apply app_inv_head in Htr. subst new.
    apply elem_of_app in Hin as [Hin|Hin]; [by destruct (Hrec ss)|].
    no_such_event Hin.
  - apply app_inv_head in Htr. subst new.
    apply elem_of_app in Hin as [Hin|Hin]; [by destruct (Hrec ss)|].
    no_such_event Hin.
Qed.

(** The row of the session after a run that stopped in part [i]. *)
Lemma stopped_run_row (key : string) (k i : nat) (ss : list string)
    (d : UploadLocksDB) (sk : SessionKey) (e : TrackUploadsEntry) :
  i = (k + length ss)%nat ->
  (i < length (partsURLs (entry_urls e)))%nat ->
  d !! sk = Some e ->
  objectKey (entry_urls e) = key ->
  (forall j, (j < k)%nat -> entry_partUploadStatus e !! j = Some true) ->
  exists e',
    db_update key (record_parts k ss) d !! sk = Some e'
    /\ row_after_missing e e' i
    /\ (forall j, (k <= j < i)%nat ->
                  (j < length (entry_partUploadStatus e))%nat ->
                  entry_partUploadStatus e' !! j = Some true).
Proof.
  intros Hi Hlt He Hkey Hpre.
  exists (record_parts k ss e). split; [by apply db_update_lookup|]. split.
  - unfold row_after_missing.
    rewrite record_parts_urls, record_parts_partSize, record_parts_status,
      record_parts_etags.
    rewrite record_parts_flags_other by lia.
    rewrite etag_get_put_etags_other by lia.
    repeat split; try done.
    intros Hfalse. apply first_false_unique.
    + intros j Hj. destruct (decide (j < k)%nat) as [Hlo|Hhi].
      * rewrite record_parts_flags_other by lia. by apply Hpre.
      * apply record_parts_flags_in; [lia|].
        apply lookup_lt_Some in Hfalse. lia.
    + rewrite record_parts_flags_other by lia. by rewrite Hfalse.
  - intros j Hj Hlen. apply record_parts_flags_in; [lia|done].
Qed.

(** X4: when, in a call on a session, the storage client fails on the upload
    of part [i], the call raises the client's exception unchanged and does
    nothing after the failed request; the parts sent before part [i] stay
    recorded, the flag of part [i] and the status of the session are as
    before the call; and if the session is pending and the flag of part [i]
    was false, a retry sends part [i] first (unless the part size is zero)
    and nothing before part [i]. *)
Theorem transport_failure_keeps_progress (c : Call) (w : World)
    (localId fileHash : string) (collectionID : Z) (e : TrackUploadsEntry)
    (new : list Event) (i : nat) (req : PutRequest) (ex : Exception) :
  let sk := (localId, fileHash, collectionID) in
  db w !! sk = Some e ->
  on_session sk e c ->
  trace (call c w).2 = trace w ++ new ->
  S3Put i req (PutFailed ex) ∈ new ->
  (call c w).1 = Throw ex
  /\ last new = Some (S3Put i req (PutFailed ex))
  /\ exists e',
       db (call c w).2 !! sk = Some e'
       /\ entry_status e' = entry_status e
       /\ (forall j, (call_start e c <= j < i)%nat ->
                     (j < length (entry_partUploadStatus e))%nat ->
                     entry_partUploadStatus e' !! j = Some true)
       /\ entry_partUploadStatus e' !! i = entry_partUploadStatus e !! i
       /\ (entry_status e = pending ->
           entry_partUploadStatus e !! i = Some false ->
           forall f',
           exists new' j,
             trace (resume f' localId fileHash collectionID (call c w).2).2
             = trace (call c w).2 ++ new'
             /\ put_indices new' = seq i j
             /\ (entry_partSize e <> 0%Z -> (1 <= j)%nat)).
Proof.
  intros sk He Hc Htr Hin. subst sk.
  assert (Hrow : (call c w).1 = Throw ex
                 /\ last new = Some (S3Put i req (PutFailed ex))
                 /\ exists e',
                      db (call c w).2 !! (localId, fileHash, collectionID) = Some e'
                      /\ row_after_missing e e' i
                      /\ (forall j, (call_start e c <= j < i)%nat ->
                            (j < length (entry_partUploadStatus e))%nat ->
                            entry_partUploadStatus e' !! j = Some true)).
  { destruct c as [u f|f l h cid]; simpl in Hc, Htr |- *.
    - subst u. rewrite putMultipartFile_run in *.
      destruct (upload_run_put_failed (MultipartInfo_of_urls (entry_urls e)) f w _
                  new i req ex (uploadAndComplete_run _ _ _ _ _ _ _) Htr Hin)
        as (ss & Hss & Hi & Hlt & Hres & Hdb & Hnew).
      split; [done|]. split; [subst new; apply last_snoc|].
      rewrite Hdb. apply stopped_run_row; try done.
      intros j Hj. unfold start_index in Hj. simpl in Hj. lia.
    - injection Hc as -> -> ->.
      destruct (entry_status e) eqn:Hs.
      + rewrite (resume_pending_run _ _ _ _ _ _ _ _ _ e He Hs) in *.
        destruct (upload_run_trace multipartPartSize multipartPartSizeInternal
                    convertJs2Xml this (entry_info e) f
                    (loaded (localId, fileHash, collectionID) w) _
                    (uploadAndComplete_run multipartPartSize
                       multipartPartSizeInternal convertJs2Xml this
                       (entry_info e) f (loaded (localId, fileHash, collectionID) w)))
          as (ss0 & tail0 & _ & Htr0 & _).
        rewrite Htr0 in Htr. simpl in Htr. rewrite <- app_assoc in Htr.
        apply app_inv_head in Htr. simpl in Htr. subst new.
        rewrite !elem_of_cons in Hin. destruct Hin as [?|[?|Hin]]; [done..|].
        destruct (upload_run_put_failed (entry_info e) f
                    (loaded (localId, fileHash, collectionID) w) _
                    _ i req ex (uploadAndComplete_run _ _ _ _ _ _ _) Htr0 Hin)
          as (ss & Hss & Hi & Hlt & Hres & Hdb & Hnew).
        split; [done|]. split.
        { rewrite !last_cons. rewrite Hnew. by rewrite last_snoc. }
        rewrite Hdb. apply stopped_run_row; try done.
        intros j Hj. by apply first_false_prefix.
      + exfalso.
        destruct (resume_uploaded multipartPartSize multipartPartSizeInternal
                    convertJs2Xml this f localId fileHash collectionID w e He Hs)
          as (resp & _ & Hrun).
        rewrite Hrun in Htr.
        destruct resp; simpl in Htr; apply app_inv_head in Htr; subst new;
          no_such_event Hin.
      + exfalso.
        rewrite (putExistingMultipartFile_unfold _ _ _ _ _ _ _ _ _ e He), Hs in Htr.
        simpl in Htr. apply app_inv_head in Htr. subst new.
        no_such_event Hin. }
  destruct Hrow as (Hres & Hlast & e' & Hdb
                    & (Hu & Hps & Hst & Hflag & Hetag & Hlt & Hfirst) & Hbefore).
  split; [done|]. split; [done|].
  exists e'. repeat split; try done.
  intros Hpend Hfalse f'.
  destruct (resume_pending_put_indices multipartPartSize multipartPartSizeInternal
              convertJs2Xml this f' localId fileHash collectionID _ e' Hdb
              ltac:(by rewrite Hst))
    as (new' & j & Htr' & Hput & _ & _ & Hone).
  rewrite (Hfirst Hfalse), Hu, Hps in *.
  exists new', j. repeat split; try done. intros Hnz. by apply Hone.
Qed.

End TransportFailure.

(** Endpoints that fail, for the instances below. *)
Module Faults.

(** An endpoint on which the upload of the part at URL [u1] fails. *)
Definition failing_second_part : Network :=
  {| s3_put := fun _ req =>
       if String.eqb (put_url req) "u1"
       then PutFailed (DioException "connection reset")
       else PutOk (Some ("etag-" +:+ put_url req));
     s3_post := fun _ _ => PostOk |}.

Definition second_part : PutRequest :=
  {| put_url := "u1"; data_start := 10000000; data_end := Some 20000000%Z;
     contentLength := 10000000 |}.

Definition first_part : PutRequest :=
  {| put_url := "u0"; data_start := 0; data_end := Some 10000000%Z;
     contentLength := 10000000 |}.

End Faults.

Lemma transport_failure_keeps_progress_witness :
  (Instances.resume_on Faults.failing_second_part
     (Demo.world Instances.created_session)).1
  = Throw (DioException "connection reset")
  /\ exists e',
       db (Instances.resume_on Faults.failing_second_part
             (Demo.world Instances.created_session)).2 !! Demo.sk = Some e'
       /\ entry_status e' = pending
       /\ entry_partUploadStatus e' !! 0%nat = Some true
       /\ entry_partUploadStatus e' !! 1%nat = Some false.
Proof.
  destruct (transport_failure_keeps_progress Demo.partSizeGeneral
              Demo.partSizeInternal Demo.xml
              (Demo.uploader Faults.failing_second_part)
              (Resume Instances.file "local" "hash" 7)
              (Demo.world Instances.created_session) "local" "hash" 7
              Instances.created_session
              [DbGetCachedLinks Demo.sk; DbUpdateLastAttempted Demo.sk;
               S3Put 0 Faults.first_part (PutOk (Some "etag-u0"));
               DbUpdatePartStatus "obj" 0 "etag-u0";
               S3Put 1 Faults.second_part
                 (PutFailed (DioException "connection reset"))]
              1 Faults.second_part (DioException "connection reset")
              eq_refl eq_refl eq_refl)
    as (Hres & _ & e' & Hdb & Hst & Hbefore & Hflag & _).
  - rewrite !elem_of_cons. auto 10.
  - split; [exact Hres|]. exists e'. split; [exact Hdb|].
    split; [rewrite Hst; reflexivity|]. split.
    + apply Hbefore; simpl; lia.
    + rewrite Hflag. reflexivity.
Defined.

(** ** X5, X6: the finalize call *)

Section FinalizeCall.

Variable multipartPartSize : Z.
Variable multipartPartSizeInternal : Z.
Variable convertJs2Xml : list (string * list PartETag) -> string.
Variable this : MultiPartUploader.

Local Abbreviation call :=
  (run_call multipartPartSize multipartPartSizeInternal convertJs2Xml this).
Local Abbreviation resume :=
  (putExistingMultipartFile multipartPartSize multipartPartSizeInternal
     convertJs2Xml this).

(** A run that makes a finalize call has recorded every part from its start
    index on and marked the session [uploaded] before it, and does nothing
    after it but mark the session [completed]. *)
Lemma upload_run_post (partInfo : MultipartInfo) (f : File) (w : World) out
    (new : list Event) (req : PostRequest) (resp : PostResponse) :
  upload_run multipartPartSize multipartPartSizeInternal convertJs2Xml this
    partInfo f w out ->
  trace out.2 = trace w ++ new ->
  S3Post req resp ∈ new ->
  let k := start_index partInfo in
  let n := length (partsURLs (urls partInfo)) in
  let key := objectKey (urls partInfo) in
  exists ss,
    Forall (fun s => s <> EmptyString) ss
    /\ length ss = (n - k)%nat
    /\ req = completionRequest convertJs2Xml
               (put_etags k ss (default [] (partETags partInfo)))
               (completeURL (urls partInfo))
    /\ new
       = recorded_events multipartPartSize multipartPartSizeInternal this
           partInfo f ss
         ++ DbUpdateTrackUploadStatus key uploaded :: S3Post req resp
            :: match resp with
               | PostOk => [DbUpdateTrackUploadStatus key completed]
               | PostFailed _ => []
               end
    /\ db out.2
       = let d := db_update key (entry_set_status uploaded)
                    (db_update key (record_parts k ss) (db w)) in
         match resp with
         | PostOk => db_update key (entry_set_status completed) d
         | PostFailed _ => d
         end.
Proof.
  intros Hrun Htr Hin k n key. subst k n key.
  assert (Hrec : forall ss,
            S3Post req resp
            ∈ recorded_events multipartPartSize multipartPartSizeInternal this
                partInfo f ss -> False).
  { intros ss Hin'. unfold recorded_events in Hin'.
    revert Hin'. generalize (start_index partInfo).
    induction ss as [|s ss IH]; intros k Hin'; simpl in Hin'.
    - by apply elem_of_nil in Hin'.
    - rewrite !elem_of_cons in Hin'. destruct Hin' as [?|[?|Hin']]; [done..|].
      by apply (IH (S k)). }
  destruct Hrun as [ss ex' w' Hss Hlen Hpart
    |ss ex' Hss Hb Hlen Hpost|ss Hss Hb Hlen Hpost];
    simpl in Htr.
  - exfalso.
    inversion Hpart as [Hi Hz|url e Hurl Hsend Hresp|url o' Hurl Hsend Hresp Ho|];
      subst; simpl in Htr; rewrite <- ?app_assoc in Htr;
      apply app_inv_head in Htr; subst new.
    + by destruct (Hrec ss).
    + apply elem_of_app in Hin as [Hin|Hin]; [by destruct (Hrec ss)|].
      by apply list_elem_of_singleton in Hin.
    + apply elem_of_app in Hin as [Hin|Hin]; [by destruct (Hrec ss)|].
      by apply list_elem_of_singleton in Hin.
  - apply app_inv_head in Htr. subst new.
    apply elem_of_app in Hin as [Hin|Hin]; [by destruct (Hrec ss)|].
    rewrite !elem_of_cons in Hin. destruct Hin as [?|[Heq|Hin]]; [done| |].
    + injection Heq as -> ->. exists ss. split; [done|].
      split; [destruct Hb as [->|]; simpl in *; lia|].
      by split; [done|].
    + by apply elem_of_nil in Hin.
  - apply app_inv_head in Htr. subst new.
    apply elem_of_app in Hin as [Hin|Hin]; [by destruct (Hrec ss)|].
    rewrite !elem_of_cons in Hin. destruct Hin as [?|[Heq|[?|Hin]]]; [done| |done|].
    + injection Heq as -> ->. exists ss. split; [done|].
      split; [destruct Hb as [->|]; simpl in *; lia|].
      by split; [done|].
    + by apply elem_of_nil in Hin.
Qed.

(** X5: a call on a pending session makes the finalize call only after it
    has sent every part from the one it started at, in order, and each was
    answered with a non-empty identifier; it makes one finalize call, after
    the last part was recorded and the session marked [uploaded]. *)
Theorem finalize_only_after_every_part (c : Call) (w : World)
    (sk : SessionKey) (e : TrackUploadsEntry)
    (new : list Event) (req : PostRequest) (resp : PostResponse) :
  db w !! sk = Some e ->
  on_session sk e c ->
  entry_status e = pending ->
  trace (call c w).2 = trace w ++ new ->
  S3Post req resp ∈ new ->
  let k := call_start e c in
  let n := length (partsURLs (entry_urls e)) in
  put_indices new = seq k (n - k)
  /\ posts new = [post_body req]
  /\ exists pre post,
       new = pre ++ DbUpdateTrackUploadStatus (objectKey (entry_urls e)) uploaded
                 :: S3Post req resp :: post
       /\ put_indices pre = seq k (n - k)
       /\ forall j, (k <= j < n)%nat ->
            exists r s, S3Put j r (PutOk (Some s)) ∈ pre /\ s <> EmptyString.
Proof.
  intros He Hc Hs Htr Hin k n. subst k n.
  assert (Hrun : exists partInfo f w0 pre0,
             upload_run multipartPartSize multipartPartSizeInternal convertJs2Xml
               this partInfo f w0 (call c w)
             /\ trace w0 = trace w ++ pre0
             /\ put_indices pre0 = [] /\ posts pre0 = []
             /\ (forall j r s, S3Put j r s ∉ pre0)
             /\ urls partInfo = entry_urls e
             /\ start_index partInfo = call_start e c).
  { destruct c as [u f|f l h cid]; simpl in Hc |- *.
    - subst u. exists (MultipartInfo_of_urls (entry_urls e)), f, w, [].
      rewrite putMultipartFile_run, app_nil_r.
      split; [apply uploadAndComplete_run|]. repeat split; try done.
      intros j r s Hj. by apply elem_of_nil in Hj.
    - subst sk.
      exists (entry_info e), f, (loaded (l, h, cid) w),
        [DbGetCachedLinks (l, h, cid); DbUpdateLastAttempted (l, h, cid)].
      rewrite (resume_pending_run _ _ _ _ _ _ _ _ _ e He Hs).
      split; [apply uploadAndComplete_run|]. split; [simpl; done|].
      repeat split; try done. intros j r s Hj. no_such_event Hj. }
  destruct Hrun as (partInfo & f & w0 & pre0 & Hrun & Hw0 & Hp0 & Hq0 & Hn0
                    & Hurls & Hk).
  destruct (upload_run_trace multipartPartSize multipartPartSizeInternal
              convertJs2Xml this partInfo f w0 _ Hrun)
    as (ss0 & tail0 & _ & Htr0 & _).
  assert (Hnew : new = pre0 ++ (recorded_events multipartPartSize
                                  multipartPartSizeInternal this partInfo f ss0
                                ++ tail0)).
  { rewrite Htr0, Hw0, <- app_assoc in Htr. by apply app_inv_head in Htr. }
  assert (Hin0 : S3Post req resp
                 ∈ recorded_events multipartPartSize multipartPartSizeInternal
                     this partInfo f ss0 ++ tail0).
  { rewrite Hnew in Hin. apply elem_of_app in Hin as [Hin|Hin]; [|done].
    exfalso. clear -Hin Hq0. induction pre0 as [|ev pre0 IH]; simpl in *.
    - by apply elem_of_nil in Hin.
    - apply elem_of_cons in Hin as [<-|Hin]; [done|].
      apply IH; [done|]. unfold posts in *. simpl in Hq0.
      by destruct (post_body_of ev). }
  destruct (upload_run_post partInfo f w0 _ _ req resp Hrun Htr0 Hin0)
    as (ss & Hss & Hlen & Hreq & Hnew0 & _).
  rewrite Hurls, Hk in *. rewrite Hnew0 in Hnew. subst new.
  unfold recorded_events in *. rewrite Hurls, Hk in *.
  split.
  { rewrite !put_indices_app, Hp0, put_indices_parts_events, Hlen.
    destruct resp; simpl; by rewrite app_nil_r. }
  split.
  { rewrite !posts_app, Hq0, posts_parts_events. simpl. by destruct resp. }
  eexists (pre0 ++ _), _. split; [by rewrite <- app_assoc|]. split.
  { by rewrite put_indices_app, Hp0, put_indices_parts_events, Hlen. }
  intros j Hj.
  destruct (lookup_lt_is_Some_2 ss (j - call_start e c)) as [s Hs']; [lia|].
  pose proof (parts_events_put_at (objectKey (entry_urls e))
                (partsURLs (entry_urls e))
                (part_size_of multipartPartSize multipartPartSizeInternal this
                   partInfo)
                f (call_start e c) ss _ s Hs') as Hput.
  replace (call_start e c + (j - call_start e c))%nat with j in Hput by lia.
  eexists _, s. split.
  - apply elem_of_app. right. exact Hput.
  - rewrite Forall_forall in Hss. apply Hss. by eapply list_elem_of_lookup_2.
Qed.

(** X6: the finalize call of a resume is sent to the session's completion
    URL as [text/xml], and its body is built from the identifiers the store
    holds for the session when the call returns: those loaded from the
    store and those of the parts this resume recorded. *)
Theorem finalize_lists_stored_identifiers (f : File) (localId fileHash : string)
    (collectionID : Z) (w : World) (e : TrackUploadsEntry)
    (new : list Event) (req : PostRequest) (resp : PostResponse) :
  let sk := (localId, fileHash, collectionID) in
  db w !! sk = Some e ->
  trace (resume f localId fileHash collectionID w).2 = trace w ++ new ->
  S3Post req resp ∈ new ->
  exists e',
    db (resume f localId fileHash collectionID w).2 !! sk = Some e'
    /\ req = completionRequest convertJs2Xml (entry_partETags e')
               (completeURL (entry_urls e)).
Proof.
  intros sk He Htr Hin. subst sk.
  destruct (entry_status e) eqn:Hs.
  - rewrite (resume_pending_run _ _ _ _ _ _ _ _ _ e He Hs) in *.
    destruct (upload_run_trace multipartPartSize multipartPartSizeInternal
                convertJs2Xml this (entry_info e) f
                (loaded (localId, fileHash, collectionID) w) _
                (uploadAndComplete_run multipartPartSize
                   multipartPartSizeInternal convertJs2Xml this
                   (entry_info e) f (loaded (localId, fileHash, collectionID) w)))
      as (ss0 & tail0 & _ & Htr0 & _).
    rewrite Htr0 in Htr. simpl in Htr. rewrite <- app_assoc in Htr.
    apply app_inv_head in Htr. simpl in Htr. subst new.
    rewrite !elem_of_cons in Hin. destruct Hin as [?|[?|Hin]]; [done..|].
    destruct (upload_run_post (entry_info e) f
                (loaded (localId, fileHash, collectionID) w) _ _ req resp
                (uploadAndComplete_run _ _ _ _ _ _ _) Htr0 Hin)
      as (ss & _ & _ & Hreq & _ & Hdb).
    simpl in Hreq, Hdb.
    rewrite Hdb, Hreq.
    destruct resp as [|ex].
    + exists (entry_set_status completed
                (entry_set_status uploaded
                   (record_parts (start_index (entry_info e)) ss e))).
      split; [|simpl; by rewrite record_parts_etags].
      apply db_update_lookup;
        [apply db_update_lookup; [by apply db_update_lookup|]|];
        simpl; by rewrite record_parts_urls.
    + exists (entry_set_status uploaded
                (record_parts (start_index (entry_info e)) ss e)).
      split; [|simpl; by rewrite record_parts_etags].
      apply db_update_lookup; [by apply db_update_lookup|].
      by rewrite record_parts_urls.
  - destruct (resume_uploaded multipartPartSize multipartPartSizeInternal
                convertJs2Xml this f localId fileHash collectionID w e He Hs)
      as (resp' & _ & Hrun).
    rewrite Hrun in Htr |- *.
    destruct resp' as [|ex]; simpl in Htr |- *;
      apply app_inv_head in Htr; subst new;
      rewrite !elem_of_cons in Hin.
    + destruct Hin as [?|[?|[Heq|[?|Hin]]]]; [done..| |done|].
      * injection Heq as -> ->. exists (entry_set_status completed e).
        split; [by apply db_update_lookup|done].
      * by apply elem_of_nil in Hin.
    + destruct Hin as [?|[?|[Heq|Hin]]]; [done..| |].
      * injection Heq as -> ->. by exists e.
      * by apply elem_of_nil in Hin.
  - exfalso.
    rewrite (putExistingMultipartFile_unfold _ _ _ _ _ _ _ _ _ e He), Hs in Htr.
    simpl in Htr. apply app_inv_head in Htr. subst new.
    no_such_event Hin.
Qed.

End FinalizeCall.

Lemma finalize_only_after_every_part_witness :
  put_indices (trace (Instances.resume_on Demo.accepting
                        (Demo.world Instances.pending_session)).2) = [2%nat]
  /\ posts (trace (Instances.resume_on Demo.accepting
                     (Demo.world Instances.pending_session)).2)
     = ["1=a;2=b;3=etag-u2"].
Proof.
  destruct (finalize_only_after_every_part Demo.partSizeGeneral
              Demo.partSizeInternal Demo.xml (Demo.uploader Demo.accepting)
              (Resume Instances.file "local" "hash" 7)
              (Demo.world Instances.pending_session) Demo.sk
              Instances.pending_session
              (trace (Instances.resume_on Demo.accepting
                        (Demo.world Instances.pending_session)).2)
              {| post_url := "done"; post_body := "1=a;2=b;3=etag-u2";
                 contentType := "text/xml" |}
              PostOk eq_refl eq_refl eq_refl eq_refl)
    as (Hput & Hposts & _).
  - match goal with
    | |- ?x ∈ ?l => let l' := eval vm_compute in l in change (x ∈ l')
    end.
    rewrite !elem_of_cons. auto 10.
  - split; [exact Hput|exact Hposts].
Defined.

Lemma finalize_lists_stored_identifiers_witness :
  exists e',
    db (Instances.resume_on Demo.accepting
          (Demo.world Instances.pending_session)).2 !! Demo.sk = Some e'
    /\ completionBody Demo.xml (entry_partETags e') = "1=a;2=b;3=etag-u2".
Proof.
  destruct (finalize_lists_stored_identifiers Demo.partSizeGeneral
              Demo.partSizeInternal Demo.xml (Demo.uploader Demo.accepting)
              Instances.file "local" "hash" 7
              (Demo.world Instances.pending_session)
              Instances.pending_session
              (trace (Instances.resume_on Demo.accepting
                        (Demo.world Instances.pending_session)).2)
              {| post_url := "done"; post_body := "1=a;2=b;3=etag-u2";
                 contentType := "text/xml" |}
              PostOk eq_refl eq_refl)
    as (e' & Hdb & Hreq).
  - match goal with
    | |- ?x ∈ ?l => let l' := eval vm_compute in l in change (x ∈ l')
    end.
    rewrite !elem_of_cons. auto 10.
  - exists e'. split; [exact Hdb|].
    apply (f_equal post_body) in Hreq. simpl in Hreq. by rewrite <- Hreq.
Defined.

(** ** X7: a fresh upload against an endpoint that accepts everything *)

(** The endpoint accepts every finalize call. *)
Definition always_finalizes (net : Network) : Prop :=
  forall h req, s3_post net h req = PostOk.

Section FreshUploadCompletes.

Variable multipartPartSize : Z.
Variable multipartPartSizeInternal : Z.
Variable convertJs2Xml : list (string * list PartETag) -> string.
Variable this : MultiPartUploader.

(** A run against such an endpoint is a completed one. *)
Lemma upload_run_completes (partInfo : MultipartInfo) (f : File) (w : World) out :
  upload_run multipartPartSize multipartPartSizeInternal convertJs2Xml this
    partInfo f w out ->
  always_identifies (_s3Dio this) ->
  always_finalizes (_s3Dio this) ->
  part_size_of multipartPartSize multipartPartSizeInternal this partInfo <> 0%Z ->
  let k := start_index partInfo in
  let n := length (partsURLs (urls partInfo)) in
  let key := objectKey (urls partInfo) in
  exists ss,
    Forall (fun s => s <> EmptyString) ss
    /\ length ss = (n - k)%nat
    /\ out
       = (Ok key,
          {| db := db_update key (entry_set_status completed)
                     (db_update key (entry_set_status uploaded)
                        (db_update key (record_parts k ss) (db w)));
             trace := trace w
                      ++ recorded_events multipartPartSize
                           multipartPartSizeInternal this partInfo f ss
                      ++ [DbUpdateTrackUploadStatus key uploaded;
                          S3Post (completionRequest convertJs2Xml
                                    (put_etags k ss (default [] (partETags partInfo)))
                                    (completeURL (urls partInfo))) PostOk;
                          DbUpdateTrackUploadStatus key completed] |}).
Proof.
  intros Hrun Hput Hpost Hps k n key. subst k n key.
  destruct Hrun as [ss ex w' Hss Hlen Hpart
    |ss ex Hss Hb Hlen Hfail|ss Hss Hb Hlen Hok].
  - exfalso.
    inversion Hpart as [Hi Hz|url e Hurl Hsend Hresp|url o Hurl Hsend Hresp Ho|];
      subst.
    + done.
    + match type of Hresp with s3_put _ ?h ?r = _ =>
        destruct (Hput h r) as (s & Hs & _) end.
      congruence.
    + match type of Hresp with s3_put _ ?h ?r = _ =>
        destruct (Hput h r) as (s & Hs & Hne) end.
      rewrite Hs in Hresp. injection Hresp as <-.
      simpl in Ho. by apply bool_decide_eq_true in Ho.
  - exfalso. rewrite Hpost in Hfail. done.
  - exists ss. split; [done|].
    split; [destruct Hb as [->|]; simpl in *; lia|done].
Qed.

(** X7: when the endpoint answers every part with a non-empty identifier
    and accepts the finalize call, and the part size is not zero,
    [putMultipartFile] returns the object key after sending the parts
    0, ..., n - 1 in order, one for each part URL, and making one finalize
    call that lists the part numbers 1, ..., n in ascending order; the
    statuses written are [uploaded], then [completed]. *)
Theorem fresh_upload_completes (u : MultipartUploadURLs) (f : File) (w : World) :
  always_identifies (_s3Dio this) ->
  always_finalizes (_s3Dio this) ->
  multipartPartSizeForUpload multipartPartSize multipartPartSizeInternal this
  <> 0%Z ->
  let n := length (partsURLs u) in
  let out := putMultipartFile multipartPartSize multipartPartSizeInternal
               convertJs2Xml this u f w in
  exists ss new,
    out.1 = Ok (objectKey u)
    /\ trace out.2 = trace w ++ new
    /\ length ss = n
    /\ Forall (fun s => s <> EmptyString) ss
    /\ put_indices new = seq 0 n
    /\ posts new = [completionBody convertJs2Xml (put_etags 0 ss [])]
    /\ part_numbers (completionParts (put_etags 0 ss [])) = seq 1 n
    /\ status_writes (objectKey u) new = [uploaded; completed].
Proof.
  intros Hput Hpost Hps n out. subst n out.
  rewrite putMultipartFile_run.
  destruct (upload_run_completes (MultipartInfo_of_urls u) f w _
              (uploadAndComplete_run _ _ _ _ _ _ _) Hput Hpost Hps)
    as (ss & Hss & Hlen & ->).
  unfold start_index in Hlen. simpl in Hlen. rewrite Nat.sub_0_r in Hlen.
  exists ss. eexists. split; [done|]. split; [simpl; done|].
  split; [done|]. split; [done|].
  unfold recorded_events, start_index. simpl.
  rewrite put_indices_app, put_indices_parts_events, Hlen.
  rewrite posts_app, posts_parts_events.
  rewrite status_writes_app, status_writes_parts_events. simpl.
  rewrite !decide_True by done. rewrite app_nil_r.
  repeat split; try done.
  rewrite part_numbers_completionParts.
  rewrite (put_etags_keys 0 ss []) by done. simpl.
  by rewrite Hlen, seq_shift.
Qed.

End FreshUploadCompletes.

Lemma fresh_upload_completes_witness :
  (putMultipartFile Demo.partSizeGeneral Demo.partSizeInternal Demo.xml
     (Demo.uploader Demo.accepting) Demo.urls3 Instances.file
     Demo.empty_world).1 = Ok "obj".
Proof.
  destruct (fresh_upload_completes Demo.partSizeGeneral Demo.partSizeInternal
              Demo.xml (Demo.uploader Demo.accepting) Demo.urls3 Instances.file
              Demo.empty_world)
    as (ss & new & Hres & _).
  - intros h req. eexists. split; [reflexivity|discriminate].
  - intros h req. reflexivity.
  - discriminate.
  - exact Hres.
Defined.

(** ** X8: quotation marks in the completion body *)

(** The character [c] occurs in [s]. *)
Fixpoint has_char (c : Ascii.ascii) (s : string) : bool :=
  match s with
  | EmptyString => false
  | String c' s' => Ascii.eqb c c' || has_char c s'
  end.

(** Replacing a one-character pattern by nothing removes the character. *)
Lemma replaceAll_removes_char (c : Ascii.ascii) (s : string) :
  has_char c (replaceAll (String c EmptyString) EmptyString s) = false.
Proof.
  unfold replaceAll. induction s as [|h s IH]; [done|].
  cbn [replaceAll_from Stdlib.Strings.String.prefix].
  destruct (Ascii.ascii_dec c h) as [->|Hne].
  - by destruct s.
  - cbn [has_char]. rewrite IH.
    by apply Ascii.eqb_neq in Hne as ->.
Qed.

(** Replacing a pattern by nothing adds no character. *)
Lemma replaceAll_from_adds_nothing (c : Ascii.ascii) (from s : string) (skip : nat) :
  has_char c s = false ->
  has_char c (replaceAll_from skip from EmptyString s) = false.
Proof.
  revert skip. induction s as [|h s IH]; intros skip Hs; [done|].
  cbn [has_char] in Hs. apply orb_false_iff in Hs as [Hh Hs].
  cbn [replaceAll_from]. destruct skip as [|skip]; [|by apply IH].
  destruct (Stdlib.Strings.String.prefix from (String h s)).
  - by apply IH.
  - cbn [has_char]. by rewrite Hh, IH.
Qed.

(** X8: whatever the serializer produces and whatever the identifiers are,
    the body of the finalize call contains no quotation mark. *)
Theorem completion_body_has_no_quote
    (convertJs2Xml : list (string * list PartETag) -> string)
    (partEtags : ETagMap) :
  has_char (Ascii.ascii_of_nat 34) (completionBody convertJs2Xml partEtags)
  = false.
Proof.
  unfold completionBody, replaceAll at 1.
  apply replaceAll_from_adds_nothing. apply replaceAll_removes_char.
Qed.

(** ** X9: the part size of a resumed session *)

Lemma uploadLoop_flag (net : Network) (b b' : bool) (fuel : nat) (key : string)
    (us : list string) (ps : Z) (f : File) (i : nat) (etags : ETagMap) (w : World) :
  uploadLoop {| _s3Dio := net; internalUser := b |} fuel key us ps f i etags w
  = uploadLoop {| _s3Dio := net; internalUser := b' |} fuel key us ps f i etags w.
Proof.
  revert i etags w. induction fuel as [|fuel IH]; intros i etags w; [done|].
  simpl. destruct (i <? length us)%nat; [|done].
  unfold bind.
  change (uploadPart {| _s3Dio := net; internalUser := b' |} key us ps f i etags w)
    with (uploadPart {| _s3Dio := net; internalUser := b |} key us ps f i etags w).
  destruct (uploadPart _ key us ps f i etags w) as [[etags'|ex] w']; [apply IH|done].
Qed.

(** X9: a resume uses the part size stored in the session's row.  It does
    not read the part-size constants or the feature flag: with other
    constants and the other value of the flag, the same call on the same
    store against the same endpoint gives the same result, the same store
    and the same requests. *)
Theorem resume_ignores_current_part_size
    (multipartPartSize multipartPartSizeInternal : Z)
    (multipartPartSize' multipartPartSizeInternal' : Z)
    (convertJs2Xml : list (string * list PartETag) -> string)
    (net : Network) (b b' : bool)
    (f : File) (localId fileHash : string) (collectionID : Z) (w : World) :
  putExistingMultipartFile multipartPartSize multipartPartSizeInternal
    convertJs2Xml {| _s3Dio := net; internalUser := b |}
    f localId fileHash collectionID w
  = putExistingMultipartFile multipartPartSize' multipartPartSizeInternal'
      convertJs2Xml {| _s3Dio := net; internalUser := b' |}
      f localId fileHash collectionID w.
Proof.
  destruct (db w !! (localId, fileHash, collectionID)) as [e|] eqn:He.
  - rewrite !(putExistingMultipartFile_unfold _ _ _ _ _ _ _ _ _ e He).
    cbv zeta. destruct (entry_status e); [|done..].
    rewrite !_uploadParts_unfold. cbv zeta.
    unfold part_size_of. simpl.
    rewrite (uploadLoop_flag net b b').
    by destruct (uploadLoop _ _ _ _ _ _ _ _ _) as [[etags|ex] w1].
  - by rewrite !putExistingMultipartFile_not_found.
Qed.

(** ** X10: the byte ranges and declared lengths of the parts *)

Lemma wrap64_small (z : Z) : (0 <= z <= int_max)%Z -> wrap64 z = z.
Proof.
  unfold wrap64, int_max. intros Hz.
  rewrite Z.mod_small; lia.
Qed.

(** The request built for part [i] of [n] when the file ends inside the
    last part: the part starts at [i * partSize]; it ends at the start of
    the next part, or at the end of the file if it is the last one; and it
    declares the number of bytes between the two. *)
Lemma partRequest_tiles (us : list string) (partSize : Z) (f : File)
    (i : nat) (url : string) :
  let n := Z.of_nat (length us) in
  let req := partRequest us partSize f i url in
  (0 < partSize)%Z ->
  (n * partSize <= int_max)%Z ->
  ((n - 1) * partSize <= lengthSync f < n * partSize)%Z ->
  (i < length us)%nat ->
  data_start req = (Z.of_nat i * partSize)%Z
  /\ data_end req
     = (if decide (i = (length us - 1)%nat) then None
        else Some ((Z.of_nat i + 1) * partSize)%Z)
  /\ contentLength req
     = (Z.min ((Z.of_nat i + 1) * partSize) (lengthSync f)
        - Z.of_nat i * partSize)%Z.
Proof.
  intros n req Hp Hmax Hsize Hi. subst n req. unfold partRequest. simpl.
  assert (Hstart : (0 <= Z.of_nat i * partSize <= int_max)%Z) by nia.
  split; [by apply wrap64_small|].
  destruct (Nat.eqb_spec i (length us - 1)) as [Hlast|Hmid].
  - rewrite decide_True by done. split; [done|].
    assert (Hn : Z.of_nat (length us) = (Z.of_nat i + 1)%Z) by lia.
    rewrite Hn in Hsize.
    rewrite Z.abs_eq by lia. rewrite Z.min_r by lia.
    replace (lengthSync f)
      with ((lengthSync f - Z.of_nat i * partSize) + Z.of_nat i * partSize)%Z
      at 1 by lia.
    rewrite Z.mod_add by lia. apply Z.mod_small. lia.
  - rewrite decide_False by done.
    assert (Hnext : (0 <= (Z.of_nat i + 1) * partSize <= int_max)%Z) by nia.
    split; [by rewrite wrap64_small|].
    rewrite Z.min_l by nia. lia.
Qed.

Section PartRanges.

Variable multipartPartSize : Z.
Variable multipartPartSizeInternal : Z.
Variable convertJs2Xml : list (string * list PartETag) -> string.
Variable this : MultiPartUploader.

Local Abbreviation call :=
  (run_call multipartPartSize multipartPartSizeInternal convertJs2Xml this).

(** The part size a call uses: the one of the current tier in a fresh
    upload, the one stored in the row in a resume. *)
Definition call_part_size (e : TrackUploadsEntry) (c : Call) : Z :=
  match c with
  | Fresh _ _ =>
      multipartPartSizeForUpload multipartPartSize multipartPartSizeInternal this
  | Resume _ _ _ _ => entry_partSize e
  end.

Definition call_file (c : Call) : File :=
  match c with Fresh _ f => f | Resume f _ _ _ => f end.

(** Every part a run sends is one of the session's parts, at or after the
    start index. *)
Lemma upload_run_put_bound (partInfo : MultipartInfo) (f : File) (w : World) out
    (new : list Event) (i : nat) (req : PutRequest) (resp : PutResponse) :
  upload_run multipartPartSize multipartPartSizeInternal convertJs2Xml this
    partInfo f w out ->
  trace out.2 = trace w ++ new ->
  S3Put i req resp ∈ new ->
  (start_index partInfo <= i < length (partsURLs (urls partInfo)))%nat.
Proof.
  intros Hrun Htr Hin.
  assert (Hrec : forall ss,
            (start_index partInfo + length ss <= length (partsURLs (urls partInfo)))%nat ->
            S3Put i req resp
            ∈ recorded_events multipartPartSize multipartPartSizeInternal this
                partInfo f ss ->
            (start_index partInfo <= i < length (partsURLs (urls partInfo)))%nat).
  { intros ss Hlen Hin'. unfold recorded_events in Hin'.
    apply parts_events_put in Hin' as (a & s & -> & Ha & _).
    apply lookup_lt_Some in Ha. lia. }
  destruct Hrun as [ss ex w' Hss Hlen Hpart
    |ss ex Hss Hb Hlen Hpost|ss Hss Hb Hlen Hpost];
    simpl in Htr.
  - inversion Hpart as [Hi Hz|url e Hurl Hsend Hresp|url o Hurl Hsend Hresp Ho|];
      subst; simpl in Htr; rewrite <- ?app_assoc in Htr;
      apply app_inv_head in Htr; subst new.
    + apply (Hrec ss); [lia|done].
    + apply elem_of_app in Hin as [Hin|Hin]; [apply (Hrec ss); [lia|done]|].
      apply list_elem_of_singleton in Hin. injection Hin as -> -> ->. lia.
    + apply elem_of_app in Hin as [Hin|Hin]; [apply (Hrec ss); [lia|done]|].
      apply list_elem_of_singleton in Hin. injection Hin as -> -> ->. lia.
  - apply app_inv_head in Htr. subst new.
    apply elem_of_app in Hin as [Hin|Hin]; [|no_such_event Hin].
    destruct Hb as [->|Hb]; [by apply elem_of_nil in Hin|by apply (Hrec ss)].
  - apply app_inv_head in Htr. subst new.
    apply elem_of_app in Hin as [Hin|Hin]; [|no_such_event Hin].
    destruct Hb as [->|Hb]; [by apply elem_of_nil in Hin|by apply (Hrec ss)].
Qed.

(** The requests of a call on a session are those built for the session's
    part URLs, the call's part size and the call's file. *)
Lemma call_request (c : Call) (w : World) (sk : SessionKey) (e : TrackUploadsEntry)
    (new : list Event) (i : nat) (req : PutRequest) (resp : PutResponse) :
  db w !! sk = Some e ->
  on_session sk e c ->
  trace (call c w).2 = trace w ++ new ->
  S3Put i req resp ∈ new ->
  (call_start e c <= i < length (partsURLs (entry_urls e)))%nat
  /\ req = partRequest (partsURLs (entry_urls e)) (call_part_size e c)
             (call_file c) i (url_at (partsURLs (entry_urls e)) i).
Proof.
  intros He Hc Htr Hin.
  destruct c as [u f|f l h cid]; simpl in Hc, Htr |- *.
  - subst u. rewrite putMultipartFile_run in Htr. split.
    + apply (upload_run_put_bound (MultipartInfo_of_urls (entry_urls e)) f w _
               new i req resp (uploadAndComplete_run _ _ _ _ _ _ _) Htr Hin).
    + apply (upload_run_request multipartPartSize multipartPartSizeInternal
               convertJs2Xml this (MultipartInfo_of_urls (entry_urls e)) f w _
               new i req resp (uploadAndComplete_run _ _ _ _ _ _ _) Htr Hin).
  - subst sk. destruct (entry_status e) eqn:Hs.
    + rewrite (resume_pending_run _ _ _ _ _ _ _ _ _ e He Hs) in Htr.
      destruct (upload_run_trace multipartPartSize multipartPartSizeInternal
                  convertJs2Xml this (entry_info e) f (loaded (l, h, cid) w) _
                  (uploadAndComplete_run multipartPartSize
                     multipartPartSizeInternal convertJs2Xml this
                     (entry_info e) f (loaded (l, h, cid) w)))
        as (ss0 & tail0 & _ & Htr0 & _).
      rewrite Htr0 in Htr. simpl in Htr. rewrite <- app_assoc in Htr.
      apply app_inv_head in Htr. simpl in Htr. subst new.
      rewrite !elem_of_cons in Hin. destruct Hin as [?|[?|Hin]]; [done..|].
      split.
      * apply (upload_run_put_bound (entry_info e) f (loaded (l, h, cid) w) _
                 _ i req resp (uploadAndComplete_run _ _ _ _ _ _ _) Htr0 Hin).
      * apply (upload_run_request multipartPartSize multipartPartSizeInternal
                 convertJs2Xml this (entry_info e) f (loaded (l, h, cid) w) _
                 _ i req resp (uploadAndComplete_run _ _ _ _ _ _ _) Htr0 Hin).
    + exfalso.
      destruct (resume_uploaded multipartPartSize multipartPartSizeInternal
                  convertJs2Xml this f l h cid w e He Hs) as (resp' & _ & Hrun).
      rewrite Hrun in Htr.
      destruct resp'; simpl in Htr; apply app_inv_head in Htr; subst new;
        no_such_event Hin.
    + exfalso.
      rewrite (putExistingMultipartFile_unfold _ _ _ _ _ _ _ _ _ e He), Hs in Htr.
      simpl in Htr. apply app_inv_head in Htr. subst new.
      no_such_event Hin.
Qed.

(** X10: in a call on a session whose file ends inside the last of the
    session's [n] parts (and whose part size is positive, with [n] parts
    within the range of a 64-bit integer), every part sent starts at its
    index times the part size; every part but the last ends where the next
    one starts, and the last is read to the end of the file; and every part
    declares as its length the number of bytes of the file in its range. *)
Theorem part_requests_tile_the_file (c : Call) (w : World) (sk : SessionKey)
    (e : TrackUploadsEntry) (new : list Event) (i : nat) (req : PutRequest)
    (resp : PutResponse) :
  let n := length (partsURLs (entry_urls e)) in
  let P := call_part_size e c in
  let size := lengthSync (call_file c) in
  db w !! sk = Some e ->
  on_session sk e c ->
  (0 < P)%Z ->
  (Z.of_nat n * P <= int_max)%Z ->
  ((Z.of_nat n - 1) * P <= size < Z.of_nat n * P)%Z ->
  trace (call c w).2 = trace w ++ new ->
  S3Put i req resp ∈ new ->
  (i < n)%nat
  /\ data_start req = (Z.of_nat i * P)%Z
  /\ data_end req
     = (if decide (i = (n - 1)%nat) then None else Some ((Z.of_nat i + 1) * P)%Z)
  /\ contentLength req
     = (Z.min ((Z.of_nat i + 1) * P) size - Z.of_nat i * P)%Z.
Proof.
  intros n P size He Hc Hp Hmax Hsize Htr Hin. subst n P size.
  destruct (call_request c w sk e new i req resp He Hc Htr Hin) as [Hi ->].
  split; [lia|]. apply partRequest_tiles; try done. lia.
Qed.

End PartRanges.

Lemma part_requests_tile_the_file_witness :
  data_start Instances.third_part = 20000000%Z
  /\ data_end Instances.third_part = None
  /\ contentLength Instances.third_part = (25000000 - 20000000)%Z.
Proof.
  destruct (part_requests_tile_the_file Demo.partSizeGeneral
              Demo.partSizeInternal Demo.xml (Demo.uploader Demo.accepting)
              (Resume Instances.file "local" "hash" 7)
              (Demo.world Instances.pending_session) Demo.sk
              Instances.pending_session
              (trace (Instances.resume_on Demo.accepting
                        (Demo.world Instances.pending_session)).2)
              2 Instances.third_part (PutOk (Some "etag-u2"))
              eq_refl eq_refl)
    as (_ & Hstart & Hend & Hlen).
  - simpl. lia.
  - vm_compute. discriminate.
  - simpl. lia.
  - reflexivity.
  - match goal with
    | |- ?x ∈ ?l => let l' := eval vm_compute in l in change (x ∈ l')
    end.
    rewrite !elem_of_cons. auto 10.
  - split; [exact Hstart|]. split; [exact Hend|exact Hlen].
Defined.

(** ** X11: the part count and the declared lengths together *)

(** The sum of a list of lengths. *)
Definition total (l : list Z) : Z := foldr Z.add 0%Z l.

Lemma total_app (l1 l2 : list Z) : total (l1 ++ l2) = (total l1 + total l2)%Z.
Proof. induction l1 as [|a l1 IH]; simpl; [done|]. rewrite IH. lia. Qed.

Lemma total_replicate (m : nat) (a : Z) : total (replicate m a) = (Z.of_nat m * a)%Z.
Proof. induction m as [|m IH]; [done|]. cbn [replicate total foldr]. fold (total (replicate m a)). lia. Qed.

Lemma declared_lengths_app (tr1 tr2 : list Event) :
  declared_lengths (tr1 ++ tr2) = declared_lengths tr1 ++ declared_lengths tr2.
Proof. apply omap_app. Qed.

(** The parts before the last declare the part size. *)
Lemma declared_lengths_inner_parts (key : string) (us : list string) (ps : Z)
    (f : File) (k : nat) (ss : list string) :
  (k + length ss < length us)%nat ->
  declared_lengths (parts_events key us ps f k ss) = replicate (length ss) ps.
Proof.
  revert k. induction ss as [|s ss IH]; intros k Hlen; [done|].
  simpl in *. rewrite IH by lia. f_equal.
  by destruct (Nat.eqb_spec k (length us - 1)); [lia|].
Qed.

Section PlannedUpload.

Variable multipartPartSize : Z.
Variable multipartPartSizeInternal : Z.
Variable convertJs2Xml : list (string * list PartETag) -> string.
Variable this : MultiPartUploader.

Local Open Scope Z_scope.

(** X11: take a user for whom multi-part upload is permitted, a file of
    1 to 2^53 - 1 bytes, a part size below 2^53, as many part URLs as
    [calculatePartCount] returns for the file, and an endpoint that accepts
    everything.  Then the lengths declared by the requests of
    [putMultipartFile] add up to the size of the file when the size is not
    a multiple of the part size, and to one part size less when it is. *)
Theorem planned_upload_declared_total (u : MultipartUploadURLs) (f : File)
    (w : World) :
  let P := multipartPartSizeForUpload multipartPartSize multipartPartSizeInternal
             this in
  let size := lengthSync f in
  internalUser this = true ->
  0 < size < 2 ^ 53 ->
  0 < P < 2 ^ 53 ->
  calculatePartCount multipartPartSize multipartPartSizeInternal this size
  = Ok (Z.of_nat (length (partsURLs u))) ->
  always_identifies (_s3Dio this) ->
  always_finalizes (_s3Dio this) ->
  exists new,
    trace (putMultipartFile multipartPartSize multipartPartSizeInternal
             convertJs2Xml this u f w).2 = trace w ++ new
    /\ total (declared_lengths new)
       = if decide (size mod P = 0) then size - P else size.
Proof.
  intros P size Hint Hsize HP Hcount Hput Hpost.
  unfold calculatePartCount in Hcount. rewrite Hint in Hcount. simpl in Hcount.
  fold P in Hcount. rewrite int_div_ceil in Hcount by done.
  injection Hcount as Hn.
  pose proof (ceil_div_bounds size P ltac:(lia)) as Hb. rewrite Hn in Hb.
  rewrite putMultipartFile_run.
  destruct (upload_run_completes multipartPartSize multipartPartSizeInternal
              convertJs2Xml this (MultipartInfo_of_urls u) f w _
              (uploadAndComplete_run _ _ _ _ _ _ _) Hput Hpost)
    as (ss & _ & Hlen & ->).
  { unfold part_size_of. simpl. fold P. lia. }
  unfold start_index in Hlen. simpl in Hlen. rewrite Nat.sub_0_r in Hlen.
  eexists. split; [simpl; done|].
  unfold recorded_events, start_index, part_size_of. simpl. fold P.
  rewrite declared_lengths_app. simpl. rewrite app_nil_r.
  induction ss as [|s ss _] using rev_ind.
  { simpl in Hlen. rewrite <- Hlen in Hb. simpl in Hb. lia. }
  rewrite length_app in Hlen. simpl in Hlen.
  rewrite parts_events_snoc, declared_lengths_app.
  rewrite declared_lengths_inner_parts by (simpl; lia).
  rewrite total_app, total_replicate. simpl.
  destruct (Nat.eqb_spec (length ss) (length (partsURLs u) - 1)) as [_|?]; [|lia].
  rewrite Z.abs_eq by lia. fold size.
  assert (Hss : Z.of_nat (length ss) = Z.of_nat (length (partsURLs u)) - 1) by lia.
  rewrite Hss.
  pose proof (Z.div_mod size P ltac:(lia)) as Hd.
  pose proof (Z.mod_pos_bound size P ltac:(lia)) as Hm.
  generalize dependent (size / P). generalize dependent (size mod P).
  generalize dependent (Z.of_nat (length (partsURLs u))).
  intros n _ Hb _ r Hm q Hd.
  case_decide as Hz.
  - subst r. assert (q = n) by nia. subst q. lia.
  - assert (q = n - 1) by nia. subst q. lia.
Qed.

End PlannedUpload.

Lemma planned_upload_declared_total_witness :
  exists new,
    trace (putMultipartFile Demo.partSizeGeneral 10000000 Demo.xml
             (Demo.uploader Demo.accepting) Demo.urls3 Instances.file
             Demo.empty_world).2 = [] ++ new
    /\ total (declared_lengths new) = 25000000%Z.
Proof.
  apply (planned_upload_declared_total Demo.partSizeGeneral 10000000 Demo.xml
           (Demo.uploader Demo.accepting) Demo.urls3 Instances.file
           Demo.empty_world eq_refl).
  - split; reflexivity.
  - split; reflexivity.
  - vm_compute. reflexivity.
  - intros h req. eexists. split; [reflexivity|discriminate].
  - intros h req. reflexivity.
Defined.

(** ** X12: the rows of other sessions *)

(** [d'] has the rows of [d], changed at most where the object key is
    [key]. *)
Definition changes_only (key : string) (d d' : UploadLocksDB) : Prop :=
  forall sk,
    match d !! sk with
    | Some e => exists e', d' !! sk = Some e'
                           /\ (objectKey (entry_urls e) <> key -> e' = e)
                           /\ (objectKey (entry_urls e') = key ->
                               objectKey (entry_urls e) = key)
    | None => d' !! sk = None
    end.

Lemma changes_only_refl (key : string) (d : UploadLocksDB) : changes_only key d d.
Proof. intros sk. destruct (d !! sk) as [e|] eqn:He; [|done]. by exists e. Qed.

Lemma changes_only_trans (key : string) (d1 d2 d3 : UploadLocksDB) :
  changes_only key d1 d2 -> changes_only key d2 d3 -> changes_only key d1 d3.
Proof.
  intros H12 H23 sk. specialize (H12 sk). specialize (H23 sk).
  destruct (d1 !! sk) as [e1|].
  - destruct H12 as (e2 & He2 & Hsame2 & Hkey2). rewrite He2 in H23.
    destruct H23 as (e3 & He3 & Hsame3 & Hkey3).
    exists e3. split; [done|]. split.
    + intros Hne. rewrite <- (Hsame2 Hne). apply Hsame3.
      by rewrite (Hsame2 Hne).
    + intros Hk. by apply Hkey2, Hkey3.
  - by rewrite H12 in H23.
Qed.

Lemma changes_only_update (key : string)
    (g : TrackUploadsEntry -> TrackUploadsEntry) (d : UploadLocksDB) :
  (forall e, entry_urls (g e) = entry_urls e) ->
  changes_only key d (db_update key g d).
Proof.
  intros Hg sk. unfold db_update. rewrite lookup_fmap.
  destruct (d !! sk) as [e|]; [|done]. simpl.
  unfold entry_of_key. case_bool_decide as Hk.
  - exists (g e). split; [done|]. split; [done|]. by rewrite Hg.
  - by exists e.
Qed.

Section OtherSessions.

Variable multipartPartSize : Z.
Variable multipartPartSizeInternal : Z.
Variable convertJs2Xml : list (string * list PartETag) -> string.
Variable this : MultiPartUploader.

Local Abbreviation call :=
  (run_call multipartPartSize multipartPartSizeInternal convertJs2Xml this).

Lemma upload_run_changes_only (partInfo : MultipartInfo) (f : File) (w : World) out :
  upload_run multipartPartSize multipartPartSizeInternal convertJs2Xml this
    partInfo f w out ->
  changes_only (objectKey (urls partInfo)) (db w) (db out.2).
Proof.
  intros Hrun.
  destruct Hrun as [ss ex w' Hss Hlen Hpart
    |ss ex Hss Hb Hlen Hpost|ss Hss Hb Hlen Hpost].
  - apply part_outcome_throw in Hpart as [Hdb _]. simpl. rewrite Hdb. simpl.
    apply changes_only_update. intros e. apply record_parts_urls.
  - simpl. eapply changes_only_trans; [|by apply changes_only_update].
    apply changes_only_update. intros e. apply record_parts_urls.
  - simpl. eapply changes_only_trans; [|by apply changes_only_update].
    eapply changes_only_trans; [|by apply changes_only_update].
    apply changes_only_update. intros e. apply record_parts_urls.
Qed.

(** The object key a call addresses: the one of the URLs it is given, or
    the one of the session it loads. *)
Definition call_key (d : UploadLocksDB) (c : Call) : option string :=
  match c with
  | Fresh u _ => Some (objectKey u)
  | Resume _ localId fileHash collectionID =>
      objectKey ∘ entry_urls <$> d !! (localId, fileHash, collectionID)
  end.

(** X12: a call, however it ends, leaves every row of another object key
    as it was, and neither creates nor deletes a row. *)
Theorem other_sessions_untouched (c : Call) (w : World) (sk : SessionKey) :
  (db w !! sk = None -> db (call c w).2 !! sk = None)
  /\ (forall e, db w !! sk = Some e ->
        exists e', db (call c w).2 !! sk = Some e'
                   /\ (Some (objectKey (entry_urls e)) <> call_key (db w) c ->
                       e' = e)).
Proof.
  assert (Hch : match call_key (db w) c with
                | Some key => changes_only key (db w) (db (call c w).2)
                | None => db (call c w).2 = db w
                end).
  { destruct c as [u f|f l h cid]; simpl.
    - rewrite putMultipartFile_run.
      apply (upload_run_changes_only (MultipartInfo_of_urls u) f w _
               (uploadAndComplete_run _ _ _ _ _ _ _)).
    - destruct (db w !! (l, h, cid)) as [e|] eqn:He; simpl.
      + destruct (entry_status e) eqn:Hs.
        * rewrite (resume_pending_run _ _ _ _ _ _ _ _ _ e He Hs).
          apply (upload_run_changes_only (entry_info e) f (loaded (l, h, cid) w) _
                   (uploadAndComplete_run _ _ _ _ _ _ _)).
        * destruct (resume_uploaded multipartPartSize multipartPartSizeInternal
                      convertJs2Xml this f l h cid w e He Hs) as (resp & _ & ->).
          destruct resp; simpl;
            [by apply changes_only_update|apply changes_only_refl].
        * rewrite (putExistingMultipartFile_unfold _ _ _ _ _ _ _ _ _ e He), Hs.
          apply changes_only_refl.
      + by rewrite putExistingMultipartFile_not_found. }
  destruct (call_key (db w) c) as [key|].
  - specialize (Hch sk). split.
    + intros Hnone. by rewrite Hnone in Hch.
    + intros e He. rewrite He in Hch. destruct Hch as (e' & He' & Hsame & _).
      exists e'. split; [done|]. intros Hne. apply Hsame. congruence.
  - rewrite Hch. split; [done|]. intros e He. by exists e.
Qed.

End OtherSessions.

(** A store with a second session, of another object key. *)
Module TwoSessions.

Definition other_sk : SessionKey := ("other", "hash2", 8%Z).

Definition other_session : TrackUploadsEntry :=
  new_entry {| objectKey := "obj2"; partsURLs := ["v0"; "v1"];
               completeURL := "done2" |} 10000000.

Definition world : World :=
  {| db := <[other_sk := other_session]> {[ Demo.sk := Instances.pending_session ]};
     trace := [] |}.

End TwoSessions.

Lemma other_sessions_untouched_witness :
  db (Instances.resume_on Demo.accepting TwoSessions.world).2
  !! TwoSessions.other_sk = Some TwoSessions.other_session.
Proof.
  destruct (other_sessions_untouched Demo.partSizeGeneral Demo.partSizeInternal
              Demo.xml (Demo.uploader Demo.accepting)
              (Resume Instances.file "local" "hash" 7)
              TwoSessions.world TwoSessions.other_sk)
    as [_ Hsame].
  destruct (Hsame TwoSessions.other_session eq_refl) as (e' & He' & Heq).
  transitivity (Some e'); [exact He'|].
  f_equal. apply Heq. vm_compute. discriminate.
Defined.

(** ** X13: a part size of zero *)

Section ZeroPartSize.

Variable multipartPartSize : Z.
Variable multipartPartSizeInternal : Z.
Variable this : MultiPartUploader.

(** X13: when the part size of the user's tier is zero,
    [calculatePartCount] raises the error of [ceil] on a non-finite value
    for every file size if multi-part upload is permitted, the quotient
    being infinite or not a number; it returns 1 otherwise, no quotient
    being computed. *)
Theorem calculatePartCount_zero_part_size (fileSize : Z) :
  multipartPartSizeForUpload multipartPartSize multipartPartSizeInternal this
  = 0%Z ->
  calculatePartCount multipartPartSize multipartPartSizeInternal this fileSize
  = if internalUser this
    then Throw (UnsupportedError "Infinity or NaN toInt")
    else Ok 1%Z.
Proof.
  intros Hz. unfold calculatePartCount. rewrite Hz.
  destruct (internalUser this); [|done]. simpl.
  unfold int_div, toDouble at 2. simpl.
  unfold toDouble, round_ratio.
  destruct (fileSize =? 0)%Z; [done|].
  destruct (round_pos _ _) as [m e]. simpl.
  by destruct (_ =? 0)%Z.
Qed.

End ZeroPartSize.

Lemma calculatePartCount_zero_part_size_witness :
  calculatePartCount 0 0 (Demo.uploader Demo.accepting) 30000000
  = Throw (UnsupportedError "Infinity or NaN toInt").
Proof.
  apply (calculatePartCount_zero_part_size 0 0 (Demo.uploader Demo.accepting)
           30000000 eq_refl).
Defined.

(** ** X14: recorded progress is kept *)

Section ProgressKept.

Variable multipartPartSize : Z.
Variable multipartPartSizeInternal : Z.
Variable convertJs2Xml : list (string * list PartETag) -> string.
Variable this : MultiPartUploader.

Local Abbreviation call :=
  (run_call multipartPartSize multipartPartSizeInternal convertJs2Xml this).
Local Abbreviation calls :=
  (run_calls multipartPartSize multipartPartSizeInternal convertJs2Xml this).

(** The row [e'] keeps what [e] has recorded: the part URLs, the part size,
    the number of flags, every flag that is set and an identifier for every
    part that has one. *)
Definition keeps_progress (e e' : TrackUploadsEntry) : Prop :=
  entry_urls e' = entry_urls e
  /\ entry_partSize e' = entry_partSize e
  /\ length (entry_partUploadStatus e') = length (entry_partUploadStatus e)
  /\ (forall j, entry_partUploadStatus e !! j = Some true ->
                entry_partUploadStatus e' !! j = Some true)
  /\ (forall j, is_Some (etag_get j (entry_partETags e)) ->
                is_Some (etag_get j (entry_partETags e'))).

Lemma record_parts_flags_length (k : nat) (ss : list string) (e : TrackUploadsEntry) :
  length (entry_partUploadStatus (record_parts k ss e))
  = length (entry_partUploadStatus e).
Proof.
  revert k e. induction ss as [|s ss IH]; intros k e; simpl; [done|].
  rewrite IH. simpl. apply length_insert.
Qed.

Lemma call_keeps_progress (c : Call) (w : World) (sk : SessionKey)
    (e : TrackUploadsEntry) :
  db w !! sk = Some e ->
  on_session sk e c ->
  exists e', db (call c w).2 !! sk = Some e' /\ keeps_progress e e'.
Proof.
  intros He Hc.
  destruct (call_row multipartPartSize multipartPartSizeInternal convertJs2Xml
              this c w sk e He Hc)
    as (ss & e' & _ & _ & Hdb & (Hu & Hps & Hflags & Hetags) & _).
  exists e'. split; [done|]. unfold keeps_progress.
  rewrite Hu, Hps, Hflags, Hetags, record_parts_urls, record_parts_partSize,
    record_parts_flags_length, record_parts_etags.
  repeat split; try done.
  - intros j Hj.
    destruct (decide (call_start e c <= j < call_start e c + length ss)%nat).
    + apply record_parts_flags_in; [done|]. by eapply lookup_lt_Some.
    + by rewrite record_parts_flags_other.
  - intros j Hj.
    destruct (decide (call_start e c <= j < call_start e c + length ss)%nat).
    + destruct (lookup_lt_is_Some_2 ss (j - call_start e c)) as [s Hs]; [lia|].
      exists s.
      replace j with (call_start e c + (j - call_start e c))%nat at 1 by lia.
      by apply etag_get_put_etags_in.
    + by rewrite etag_get_put_etags_other.
Qed.

(** X14: no call on a session, however it ends, clears a flag that is set,
    removes the identifier of a part, or changes the part URLs, the part
    size or the number of flags of the session; so it is after any sequence
    of such calls. *)
Theorem recorded_progress_is_kept (sk : SessionKey) (e : TrackUploadsEntry)
    (cs : list Call) (w : World) :
  db w !! sk = Some e ->
  Forall (on_session sk e) cs ->
  exists e', db (calls cs w) !! sk = Some e' /\ keeps_progress e e'.
Proof.
  intros He Hcs. revert e w He Hcs.
  induction cs as [|c cs IH]; intros e w He Hcs; simpl.
  - exists e. by repeat split.
  - apply Forall_cons in Hcs as [Hc Hcs].
    destruct (call_keeps_progress c w sk e He Hc)
      as (e1 & He1 & Hu & Hps & Hlen & Hflags & Hetags).
    destruct (IH e1 (call c w).2 He1) as (e2 & He2 & Hu2 & Hps2 & Hlen2 & Hf2 & Het2).
    { eapply Forall_impl; [exact Hcs|]. intros c' Hc'.
      destruct c'; simpl in *; [by rewrite Hu|done]. }
    exists e2. split; [done|]. unfold keeps_progress.
    rewrite Hu2, Hps2, Hlen2. repeat split; try done.
    + intros j Hj. by apply Hf2, Hflags.
    + intros j Hj. by apply Het2, Hetags.
Qed.

End ProgressKept.

Lemma recorded_progress_is_kept_witness :
  exists e',
    db (run_calls Demo.partSizeGeneral Demo.partSizeInternal Demo.xml
          (Demo.uploader Faults.failing_second_part)
          [Resume Instances.file "local" "hash" 7;
           Fresh Demo.urls3 Instances.file]
          (Demo.world Instances.gap_session)) !! Demo.sk = Some e'
    /\ entry_partUploadStatus e' !! 2%nat = Some true.
Proof.
  destruct (recorded_progress_is_kept Demo.partSizeGeneral
              Demo.partSizeInternal Demo.xml
              (Demo.uploader Faults.failing_second_part)
              Demo.sk Instances.gap_session
              [Resume Instances.file "local" "hash" 7;
               Fresh Demo.urls3 Instances.file]
              (Demo.world Instances.gap_session) eq_refl)
    as (e' & Hdb & _ & _ & _ & Hflags & _).
  - repeat constructor.
  - exists e'. split; [exact Hdb|]. apply Hflags. reflexivity.
Defined.

(** ** X15: a pending session with every part flagged *)

Section EveryPartFlagged.

Variable multipartPartSize : Z.
Variable multipartPartSizeInternal : Z.
Variable convertJs2Xml : list (string * list PartETag) -> string.
Variable this : MultiPartUploader.

Local Abbreviation resume :=
  (putExistingMultipartFile multipartPartSize multipartPartSizeInternal
     convertJs2Xml this).

(** X15: resuming a session that is still pending although the flag of
    every part is set (the upload stopped after the last part was recorded
    and before the status was written) sends no part: it makes the finalize
    call with the stored identifiers, and leaves the session [completed] if
    the call succeeds and [uploaded], raising the call's exception, if it
    fails; the parts of the row are as before. *)
Theorem resume_with_every_part_flagged (f : File) (localId fileHash : string)
    (collectionID : Z) (w : World) (e : TrackUploadsEntry) :
  let sk := (localId, fileHash, collectionID) in
  let out := resume f localId fileHash collectionID w in
  db w !! sk = Some e ->
  entry_status e = pending ->
  (length (partsURLs (entry_urls e)) <= first_false (entry_partUploadStatus e))%nat ->
  exists new e',
    trace out.2 = trace w ++ new
    /\ put_indices new = []
    /\ posts new = [completionBody convertJs2Xml (entry_partETags e)]
    /\ db out.2 !! sk = Some e'
    /\ same_parts e e'
    /\ (out.1 = Ok (objectKey (entry_urls e)) /\ entry_status e' = completed
        \/ (exists ex, out.1 = Throw ex) /\ entry_status e' = uploaded).
Proof.
  intros sk out He Hs Hall. subst sk out.
  rewrite (resume_pending_run _ _ _ _ _ _ _ _ _ e He Hs).
  pose proof (uploadAndComplete_run multipartPartSize multipartPartSizeInternal
                convertJs2Xml this (entry_info e) f
                (loaded (localId, fileHash, collectionID) w)) as Hrun.
  change (start_index (entry_info e))
    with (first_false (entry_partUploadStatus e)) in *.
  destruct Hrun as [ss ex w' Hss Hlen Hpart
    |ss ex Hss Hb Hlen Hpost|ss Hss Hb Hlen Hpost];
    unfold start_index in *; simpl in *; [lia| |];
    (assert (ss = []) as -> by (destruct Hb as [->|Hb]; [done|];
                                destruct ss; [done|simpl in Hb; lia])).
  - eexists _, (entry_set_status uploaded e).
    split; [by rewrite <- app_assoc|]. simpl.
    split; [done|]. split; [done|]. split.
    { apply db_update_lookup; [|done].
      exact (db_update_lookup _ (recorded (entry_info e) []) _ _ e He eq_refl). }
    split; [done|]. right. split; [by exists ex|done].
  - eexists _, (entry_set_status completed (entry_set_status uploaded e)).
    split; [by rewrite <- app_assoc|]. simpl.
    split; [done|]. split; [done|]. split.
    { apply db_update_lookup; [apply db_update_lookup; [|done]|done].
      exact (db_update_lookup _ (recorded (entry_info e) []) _ _ e He eq_refl). }
    split; [done|]. by left.
Qed.

End EveryPartFlagged.

Lemma resume_with_every_part_flagged_witness :
  put_indices
    (trace (Instances.resume_on Demo.rejecting_finalize
              (Demo.world (Demo.entry pending [true; true; true]
                             [(0, "a"); (1, "b"); (2, "c")]))).2) = []
  /\ posts
       (trace (Instances.resume_on Demo.rejecting_finalize
                 (Demo.world (Demo.entry pending [true; true; true]
                                [(0, "a"); (1, "b"); (2, "c")]))).2)
     = ["1=a;2=b;3=c"].
Proof.
  destruct (resume_with_every_part_flagged Demo.partSizeGeneral
              Demo.partSizeInternal Demo.xml
              (Demo.uploader Demo.rejecting_finalize)
              Instances.file "local" "hash" 7
              (Demo.world (Demo.entry pending [true; true; true]
                             [(0, "a"); (1, "b"); (2, "c")]))
              (Demo.entry pending [true; true; true]
                 [(0, "a"); (1, "b"); (2, "c")])
              eq_refl eq_refl)
    as (new & e' & Htr & Hput & Hposts & _).
  - simpl. lia.
  - unfold Instances.resume_on. simpl in Htr. rewrite Htr.
    split; [exact Hput|exact Hposts].
Defined.

(** * Key material and the creation of a session *)

Module KeyMaterial.

Abbreviation Uint8List := (list Byte.byte).

(** The fields of [EncryptionResult] ([models/encryption_result.dart]) that
    the uploader reads or sets; all of them are nullable. *)
Record EncryptionResult := {
  encryptedData : option Uint8List;
  key : option Uint8List;
  header : option Uint8List;
  nonce : option Uint8List
}.

(** What the two methods can fail with. *)
Inductive Failure :=
| NullCheck                       (* [x!] on [null] *)
| NoSuchSession
| SessionExists
| Thrown (message : string).      (* thrown by a collaborator *)

Inductive Outcome (A : Type) :=
| Done (a : A)
| Failed (f : Failure).
Arguments Done {A} a.
Arguments Failed {A} f.

(** Modelled from the spec: the key columns of a row of [UploadLocksDB],
    as [getFileEncryptionData] returns them. *)
Record FileEncryptionData := {
  encryptedFileKey : string;
  fileNonce : string;
  keyNonce : string
}.

(** The store: the sessions, and the key columns of each. *)
Record Store := {
  sessions : World;
  encryptionData : gmap SessionKey FileEncryptionData
}.

Definition K (A : Type) : Type := Store -> Outcome A * Store.

Definition kbind {A B} (c : K A) (k : A -> K B) : K B :=
  fun s =>
    match c s with
    | (Done a, s') => k a s'
    | (Failed f, s') => (Failed f, s')
    end.

Definition klift {A} (r : Outcome A) : K A := fun s => (r, s).

(** Modelled from the spec: [createTrackUploadsEntry] of the store, called
    once per session; it creates the pending row of the session with its
    key columns, and fails when the tuple has a session already.  The
    path and the size of the encrypted file are not kept. *)
Definition createTrackUploadsEntry (localId fileHash : string) (collectionID : Z)
    (urls : MultipartUploadURLs) (encryptedFilePath : string) (fileSize : Z)
    (fileKey fileNonce keyNonce : string) (partSize : Z) : K unit :=
  fun s =>
    let sk := (localId, fileHash, collectionID) in
    match db (sessions s) !! sk with
    | Some _ => (Failed SessionExists, s)
    | None =>
        (Done tt,
         {| sessions :=
              {| db := <[sk := new_entry urls partSize]> (db (sessions s));
                 trace := trace (sessions s) |};
            encryptionData :=
              <[sk := {| encryptedFileKey := fileKey; fileNonce := fileNonce;
                         keyNonce := keyNonce |}]> (encryptionData s) |})
    end.

(** Modelled from the spec: [getFileEncryptionData] of the store. *)
Definition getFileEncryptionData (localId fileHash : string) (collectionID : Z)
    : K FileEncryptionData :=
  fun s =>
    match encryptionData s !! (localId, fileHash, collectionID) with
    | Some d => (Done d, s)
    | None => (Failed NoSuchSession, s)
    end.

Section Methods.

(** [CollectionsService.instance.getCollectionKey] and the functions of
    [CryptoUtil], none of which is part of the sources. *)
Variable getCollectionKey : Z -> Outcome Uint8List.
Variable encryptSync : Uint8List -> Uint8List -> Outcome EncryptionResult.
Variable decryptSync : Uint8List -> Uint8List -> Uint8List -> Outcome Uint8List.
Variable bin2base64 : Uint8List -> string.
Variable base642bin : string -> Outcome Uint8List.

Variable multipartPartSize : Z.
Variable multipartPartSizeInternal : Z.
Variable this : MultiPartUploader.

(** [x!] *)
Definition nonNull {A} (x : option A) : Outcome A :=
  match x with Some a => Done a | None => Failed NullCheck end.

Definition getEncryptionResult (localId fileHash : string) (collectionID : Z)
    : K EncryptionResult :=
  kbind (klift (getCollectionKey collectionID)) (fun collectionKey =>
  kbind (getFileEncryptionData localId fileHash collectionID) (fun result =>
  kbind (klift (base642bin (encryptedFileKey result))) (fun encryptedFileKey =>
  kbind (klift (base642bin (fileNonce result))) (fun fileNonce =>
  kbind (klift (base642bin (keyNonce result))) (fun encryptKeyNonce =>
  kbind (klift (decryptSync encryptedFileKey collectionKey encryptKeyNonce))
    (fun key =>
  klift (Done {| encryptedData := None; key := Some key;
                 header := Some fileNonce; nonce := None |}))))))).

Definition createTableEntry (localId fileHash : string) (collectionID : Z)
    (urls : MultipartUploadURLs) (encryptedFilePath : string) (fileSize : Z)
    (fileKey fileNonce : Uint8List) : K unit :=
  kbind (klift (getCollectionKey collectionID)) (fun collectionKey =>
  kbind (klift (encryptSync fileKey collectionKey)) (fun encryptedResult =>
  kbind (klift (nonNull (encryptedData encryptedResult))) (fun data =>
  kbind (klift (nonNull (nonce encryptedResult))) (fun keyNonce =>
  createTrackUploadsEntry localId fileHash collectionID urls
    encryptedFilePath fileSize
    (bin2base64 data) (bin2base64 fileNonce) (bin2base64 keyNonce)
    (multipartPartSizeForUpload multipartPartSize multipartPartSizeInternal
       this))))).

End Methods.

End KeyMaterial.

(** ** X16, X17: a session as created *)

Section CreatedSession.

Import KeyMaterial.

Variable getCollectionKey : Z -> Outcome Uint8List.
Variable encryptSync : Uint8List -> Uint8List -> Outcome EncryptionResult.
Variable decryptSync : Uint8List -> Uint8List -> Uint8List -> Outcome Uint8List.
Variable bin2base64 : Uint8List -> string.
Variable base642bin : string -> Outcome Uint8List.

Variable multipartPartSize : Z.
Variable multipartPartSizeInternal : Z.
Variable convertJs2Xml : list (string * list PartETag) -> string.
Variable this : MultiPartUploader.

Local Abbreviation create :=
  (createTableEntry getCollectionKey encryptSync bin2base64
     multipartPartSize multipartPartSizeInternal this).
Local Abbreviation recover :=
  (getEncryptionResult getCollectionKey decryptSync base642bin).
Local Abbreviation resume :=
  (putExistingMultipartFile multipartPartSize multipartPartSizeInternal
     convertJs2Xml this).
Local Abbreviation P :=
  (multipartPartSizeForUpload multipartPartSize multipartPartSizeInternal this).

(** What a successful [createTableEntry] leaves in the store. *)
Lemma createTableEntry_done (localId fileHash : string) (collectionID : Z)
    (urls : MultipartUploadURLs) (path : string) (fileSize : Z)
    (fileKey fileNonce : Uint8List) (s s' : Store) :
  create localId fileHash collectionID urls path fileSize fileKey fileNonce s
  = (Done tt, s') ->
  let sk := (localId, fileHash, collectionID) in
  exists collectionKey encryptedResult data keyNonce,
    getCollectionKey collectionID = Done collectionKey
    /\ encryptSync fileKey collectionKey = Done encryptedResult
    /\ encryptedData encryptedResult = Some data
    /\ nonce encryptedResult = Some keyNonce
    /\ db (sessions s) !! sk = None
    /\ db (sessions s') = <[sk := new_entry urls P]> (db (sessions s))
    /\ trace (sessions s') = trace (sessions s)
    /\ encryptionData s'
       = <[sk := {| encryptedFileKey := bin2base64 data;
                    fileNonce := bin2base64 fileNonce;
                    keyNonce := bin2base64 keyNonce |}]> (encryptionData s).
Proof.
  intros Hrun sk. subst sk. revert Hrun.
  unfold createTableEntry, kbind, klift, createTrackUploadsEntry, nonNull.
  intros Hrun.
  destruct (getCollectionKey collectionID) as [ck|] eqn:Hck; [|done].
  destruct (encryptSync fileKey ck) as [er|] eqn:Her; [|done].
  destruct (encryptedData er) as [data|] eqn:Hdata; [|done].
  destruct (nonce er) as [kn|] eqn:Hkn; [|done].
  destruct (db (sessions s) !! (localId, fileHash, collectionID)) eqn:He; [done|].
  injection Hrun as <-. by exists ck, er, data, kn.
Qed.

(** X16: when [createTableEntry] succeeds, [getEncryptionResult] for the
    same session returns the file key and the file nonce that were handed to
    [createTableEntry], provided [decryptSync] with the collection key and
    the nonce of the wrapping inverts [encryptSync], and [base642bin]
    inverts [bin2base64]: the wrapped key, the file nonce and the nonce of
    the wrapping are stored and read back each in its own column. *)
Theorem created_key_material_is_recovered (localId fileHash : string)
    (collectionID : Z) (urls : MultipartUploadURLs) (path : string)
    (fileSize : Z) (fileKey fileNonce : Uint8List) (s s' : Store) :
  (forall k ck er data n,
     encryptSync k ck = Done er -> encryptedData er = Some data ->
     nonce er = Some n -> decryptSync data ck n = Done k) ->
  (forall b, base642bin (bin2base64 b) = Done b) ->
  create localId fileHash collectionID urls path fileSize fileKey fileNonce s
  = (Done tt, s') ->
  recover localId fileHash collectionID s'
  = (Done {| encryptedData := None; key := Some fileKey;
             header := Some fileNonce; nonce := None |}, s').
Proof.
  intros Hcrypto Hb64 Hcreate.
  destruct (createTableEntry_done _ _ _ _ _ _ _ _ _ _ Hcreate)
    as (ck & er & data & kn & Hck & Her & Hdata & Hkn & _ & _ & _ & Henc).
  unfold getEncryptionResult, kbind, klift, getFileEncryptionData.
  rewrite Hck, Henc, lookup_insert_eq. simpl.
  rewrite !Hb64. by rewrite (Hcrypto _ _ _ _ _ Her Hdata Hkn).
Qed.

(** X17: a session that [createTableEntry] has just created is pending with
    no part recorded and the part size of the user's tier.  Resuming it
    against an endpoint that accepts everything sends every part, 0 to
    n - 1 in order, each request built with that part size, and returns the
    object key of the URLs the session was created with. *)
Theorem created_session_uploads_every_part (localId fileHash : string)
    (collectionID : Z) (urls : MultipartUploadURLs) (path : string)
    (fileSize : Z) (fileKey fileNonce : Uint8List) (s s' : Store) (f : File) :
  create localId fileHash collectionID urls path fileSize fileKey fileNonce s
  = (Done tt, s') ->
  always_identifies (_s3Dio this) ->
  always_finalizes (_s3Dio this) ->
  P <> 0%Z ->
  let out := resume f localId fileHash collectionID (sessions s') in
  out.1 = Ok (objectKey urls)
  /\ exists new,
       trace out.2 = trace (sessions s) ++ new
       /\ put_indices new = seq 0 (length (partsURLs urls))
       /\ forall i req resp,
            S3Put i req resp ∈ new ->
            req = partRequest (partsURLs urls) P f i (url_at (partsURLs urls) i).
Proof.
  intros Hcreate Hput Hpost HP out. subst out.
  destruct (createTableEntry_done _ _ _ _ _ _ _ _ _ _ Hcreate)
    as (_ & _ & _ & _ & _ & _ & _ & _ & _ & Hdb & Htr & _).
  assert (He : db (sessions s') !! (localId, fileHash, collectionID)
               = Some (new_entry urls P)).
  { by rewrite Hdb, lookup_insert_eq. }
  assert (Hk : start_index (entry_info (new_entry urls P)) = 0%nat).
  { unfold start_index. simpl.
    apply (first_false_replicate 0 (length (partsURLs urls))). }
  rewrite (resume_pending_run _ _ _ _ _ _ _ _ _ _ He eq_refl).
  destruct (upload_run_completes multipartPartSize multipartPartSizeInternal
              convertJs2Xml this (entry_info (new_entry urls P)) f
              (loaded (localId, fileHash, collectionID) (sessions s')) _
              (uploadAndComplete_run _ _ _ _ _ _ _) Hput Hpost HP)
    as (ss & Hss & Hlen & Hout).
  rewrite Hk in Hlen. simpl in Hlen. rewrite Nat.sub_0_r in Hlen.
  pose proof (uploadAndComplete_run multipartPartSize multipartPartSizeInternal
                convertJs2Xml this (entry_info (new_entry urls P)) f
                (loaded (localId, fileHash, collectionID) (sessions s')))
    as Hrun.
  rewrite Hout in Hrun |- *. split; [done|].
  eexists. split; [simpl; rewrite Htr, <- app_assoc; done|].
  unfold recorded_events. rewrite Hk. simpl. split.
  - rewrite put_indices_app, put_indices_parts_events, Hlen. simpl.
    by rewrite app_nil_r.
  - intros i req resp Hin.
    rewrite !elem_of_cons in Hin. destruct Hin as [?|[?|Hin]]; [done..|].
    apply elem_of_app in Hin as [Hin|Hin]; [|no_such_event Hin].
    by apply parts_events_request in Hin.
Qed.

End CreatedSession.

(** Stand-ins for the collaborators of the two methods, on which the
    properties are instantiated: the wrapping prepends the collection key. *)
Module Wrapping.

Import KeyMaterial.

Definition getCollectionKey (collectionID : Z) : Outcome Uint8List :=
  Done [Byte.x01; Byte.x02].

Definition encryptSync (k ck : Uint8List) : Outcome EncryptionResult :=
  Done {| encryptedData := Some (ck ++ k); key := None; header := None;
          nonce := Some [Byte.x09] |}.

Definition decryptSync (data ck n : Uint8List) : Outcome Uint8List :=
  Done (drop (length ck) data).

Definition bin2base64 (b : Uint8List) : string :=
  Stdlib.Strings.String.string_of_list_byte b.

Definition base642bin (s : string) : Outcome Uint8List :=
  Done (Stdlib.Strings.String.list_byte_of_string s).

Definition fileKey : Uint8List := [Byte.x0a; Byte.x0b; Byte.x0c].
Definition fileNonce : Uint8List := [Byte.x07].

Definition empty_store : Store :=
  {| sessions := Demo.empty_world; encryptionData := ∅ |}.

Definition created_store : Store :=
  (createTableEntry getCollectionKey encryptSync bin2base64
     Demo.partSizeGeneral 10000000 (Demo.uploader Demo.accepting)
     "local" "hash" 7 Demo.urls3 "/tmp/encrypted" 25000000 fileKey fileNonce
     empty_store).2.

End Wrapping.

Lemma created_key_material_is_recovered_witness :
  (KeyMaterial.getEncryptionResult Wrapping.getCollectionKey
     Wrapping.decryptSync Wrapping.base642bin "local" "hash" 7
     Wrapping.created_store).1
  = KeyMaterial.Done
      {| KeyMaterial.encryptedData := None;
         KeyMaterial.key := Some Wrapping.fileKey;
         KeyMaterial.header := Some Wrapping.fileNonce;
         KeyMaterial.nonce := None |}.
Proof.
  rewrite (created_key_material_is_recovered Wrapping.getCollectionKey
             Wrapping.encryptSync Wrapping.decryptSync Wrapping.bin2base64
             Wrapping.base642bin Demo.partSizeGeneral 10000000
             (Demo.uploader Demo.accepting)
             "local" "hash" 7 Demo.urls3 "/tmp/encrypted" 25000000
             Wrapping.fileKey Wrapping.fileNonce Wrapping.empty_store
             Wrapping.created_store).
  - reflexivity.
  - intros k ck er data n [= <-] [= <-] _.
    unfold Wrapping.decryptSync. by rewrite drop_app_length.
  - intros b. unfold Wrapping.base642bin, Wrapping.bin2base64.
    by rewrite Stdlib.Strings.String.list_byte_of_string_of_list_byte.
  - reflexivity.
Defined.

Lemma created_session_uploads_every_part_witness :
  (putExistingMultipartFile Demo.partSizeGeneral 10000000 Demo.xml
     (Demo.uploader Demo.accepting) Instances.file "local" "hash" 7
     (KeyMaterial.sessions Wrapping.created_store)).1 = Ok "obj".
Proof.
  destruct (created_session_uploads_every_part Wrapping.getCollectionKey
              Wrapping.encryptSync Wrapping.bin2base64
              Demo.partSizeGeneral 10000000 Demo.xml
              (Demo.uploader Demo.accepting)
              "local" "hash" 7 Demo.urls3 "/tmp/encrypted" 25000000
              Wrapping.fileKey Wrapping.fileNonce Wrapping.empty_store
              Wrapping.created_store Instances.file)
    as [Hres _].
  - reflexivity.
  - intros h req. eexists. split; [reflexivity|discriminate].
  - intros h req. reflexivity.
  - discriminate.
  - exact Hres.
Defined.

(** * The share dialog *)

(** The handlers [collectionShare] and [collectionUnshare] of the component
    [CollectionShare]: the first submits the form that shares a collection
    by email, the second removes a sharee. *)
Module ShareDialog.

(** The fields of [User] and [Collection] that the handler reads. *)
Record User := { email : string }.
Record Collection := { sharees : option (list User) }.

Section Handlers.

(** Values that can be thrown, with the [TypeError] of reading a property of
    [null] or [undefined]. *)
Variable JsError : Type.
Variable typeError : JsError.

(** [handleSharingErrors] of [utils/error] and the strings of
    [utils/strings/constants], none of which is part of the sources. *)
Variable handleSharingErrors : JsError -> string.
Variable SHARE_WITH_SELF : string.
Variable ALREADY_SHARED : string -> string.

(** The calls the handler makes, in order.  A call of a service carries the
    error it was rejected with, if any. *)
Inductive UiEvent :=
| SetLoading (b : bool)
| StartLoading
| FinishLoading
| SetFieldError (field message : string)
| ResetForm
| ShareCollection (collection : option Collection) (email : string)
    (rejected : option JsError)
| UnshareCollection (collection : option Collection) (email : string)
    (rejected : option JsError)
| Sleep (ms : Z)
| SyncWithRemote (force silent : bool) (rejected : option JsError).

(** The services answer as a function of what happened before. *)
Record Services := {
  shareCollection : list UiEvent -> option Collection -> string -> option JsError;
  unshareCollection : list UiEvent -> option Collection -> string -> option JsError;
  syncWithRemote : list UiEvent -> bool -> bool -> option JsError
}.

Variable services : Services.

(** A computation over the log of calls that returns or throws. *)
Definition J (A : Type) : Type := list UiEvent -> (A + JsError) * list UiEvent.

Definition jret {A} (a : A) : J A := fun t => (inl a, t).
Definition jthrow {A} (e : JsError) : J A := fun t => (inr e, t).
Definition jbind {A B} (c : J A) (k : A -> J B) : J B :=
  fun t =>
    match c t with
    | (inl a, t') => k a t'
    | (inr e, t') => (inr e, t')
    end.

(** A call of the user interface, which returns. *)
Definition ui (ev : UiEvent) : J unit := fun t => (inl tt, t ++ [ev]).

(** An awaited call of a service. *)
Definition await (answer : list UiEvent -> option JsError)
    (ev : option JsError -> UiEvent) : J unit :=
  fun t =>
    match answer t with
    | None => (inl tt, t ++ [ev None])
    | Some e => (inr e, t ++ [ev (Some e)])
    end.

(** [try { body } catch (e) { handler(e) } finally { last }] *)
Definition try_catch_finally (body : J unit) (handler : JsError -> J unit)
    (last : J unit) : J unit :=
  fun t =>
    match body t with
    | (inl _, t1) => last t1
    | (inr e, t1) =>
        match handler e t1 with
        | (inl _, t2) => last t2
        | (inr e', t2) =>
            match last t2 with
            | (inl _, t3) => (inr e', t3)
            | (inr e'', t3) => (inr e'', t3)
            end
        end
    end.

(** [props.collection?.sharees?.find((value) => value.email === email)] is
    truthy. *)
Definition already_shared (collection : option Collection) (address : string)
    : bool :=
  match collection ≫= sharees with
  | Some l => existsb (fun value => bool_decide (email value = address)) l
  | None => false
  end.

(** [collection] is [props.collection], [user] is what
    [getData(LS_KEYS.USER)] returns and [address] is the form's email. *)
Definition collectionShare (collection : option Collection) (user : option User)
    (address : string) : J unit :=
  try_catch_finally
    (jbind (ui (SetLoading true)) (fun _ =>
     jbind (ui StartLoading) (fun _ =>
     match user with
     | None => jthrow typeError
     | Some user =>
         if bool_decide (address = email user)
         then ui (SetFieldError "email" SHARE_WITH_SELF)
         else if already_shared collection address
         then ui (SetFieldError "email" (ALREADY_SHARED address))
         else
           jbind (await (fun t => shareCollection services t collection address)
                    (ShareCollection collection address)) (fun _ =>
           jbind (ui (Sleep 2000)) (fun _ =>
           jbind (await (fun t => syncWithRemote services t false true)
                    (SyncWithRemote false true)) (fun _ =>
           ui ResetForm)))
     end)))
    (fun e => ui (SetFieldError "email" (handleSharingErrors e)))
    (jbind (ui (SetLoading false)) (fun _ => ui FinishLoading)).

(** [try { body } finally { last }] *)
Definition try_finally (body : J unit) (last : J unit) : J unit :=
  fun t =>
    match body t with
    | (inl _, t1) => last t1
    | (inr e, t1) =>
        match last t1 with
        | (inl _, t2) => (inr e, t2)
        | (inr e', t2) => (inr e', t2)
        end
    end.

(** The handler of the button that removes a sharee. *)
Definition collectionUnshare (collection : option Collection) (sharee : User)
    : J unit :=
  try_finally
    (jbind (ui StartLoading) (fun _ =>
     jbind (await (fun t => unshareCollection services t collection (email sharee))
              (UnshareCollection collection (email sharee))) (fun _ =>
     jbind (ui (Sleep 2000)) (fun _ =>
     await (fun t => syncWithRemote services t false true)
       (SyncWithRemote false true)))))
    (ui FinishLoading).

(** The outcomes a submission reports to the form. *)
Definition reports (ev : UiEvent) : bool :=
  match ev with
  | SetFieldError _ _ | ResetForm => true
  | _ => false
  end.

Definition share_requests (ev : UiEvent) : bool :=
  match ev with ShareCollection _ _ _ => true | _ => false end.

End Handlers.

End ShareDialog.

(** ** X18, X19, X20: the handlers of the share dialog *)

Section ShareForm.

Import ShareDialog.

Variable JsError : Type.
Variable typeError : JsError.
Variable handleSharingErrors : JsError -> string.
Variable SHARE_WITH_SELF : string.
Variable ALREADY_SHARED : string -> string.
Variable services : Services JsError.

Local Abbreviation submit :=
  (collectionShare JsError typeError handleSharingErrors SHARE_WITH_SELF
     ALREADY_SHARED services).

(** The ways a submission can go, by what it appends to the log. *)
Lemma collectionShare_cases (collection : option Collection) (user : option User)
    (address : string) (t : list (UiEvent JsError)) :
  exists mid,
    submit collection user address t
    = (inl tt,
       t ++ [SetLoading JsError true; StartLoading JsError] ++ mid
         ++ [SetLoading JsError false; FinishLoading JsError])
    /\ ((user = None
         /\ mid = [SetFieldError JsError "email" (handleSharingErrors typeError)])
        \/ (exists u, user = Some u /\ address = email u
            /\ mid = [SetFieldError JsError "email" SHARE_WITH_SELF])
        \/ (exists u, user = Some u /\ address <> email u
            /\ already_shared collection address = true
            /\ mid = [SetFieldError JsError "email" (ALREADY_SHARED address)])
        \/ (exists u, user = Some u /\ address <> email u
            /\ already_shared collection address = false
            /\ ((exists e,
                   mid = [ShareCollection JsError collection address (Some e);
                          SetFieldError JsError "email" (handleSharingErrors e)])
                \/ (exists e,
                      mid = [ShareCollection JsError collection address None;
                             Sleep JsError 2000;
                             SyncWithRemote JsError false true (Some e);
                             SetFieldError JsError "email" (handleSharingErrors e)])
                \/ mid = [ShareCollection JsError collection address None;
                          Sleep JsError 2000;
                          SyncWithRemote JsError false true None;
                          ResetForm JsError]))).
Proof.
  unfold collectionShare, try_catch_finally, jbind, ui, await, jthrow.
  destruct user as [u|]; simpl.
  - case_bool_decide as Hself; simpl.
    + exists [SetFieldError JsError "email" SHARE_WITH_SELF].
      split; [by rewrite <- !app_assoc|]. right. left. by exists u.
    + destruct (already_shared collection address) eqn:Hshared; simpl.
      * exists [SetFieldError JsError "email" (ALREADY_SHARED address)].
        split; [by rewrite <- !app_assoc|]. right. right. left.
        by exists u.
      * destruct (shareCollection JsError services _ collection address)
          as [e|] eqn:Hshare; simpl.
        -- exists [ShareCollection JsError collection address (Some e);
                   SetFieldError JsError "email" (handleSharingErrors e)].
           split; [by rewrite <- !app_assoc|]. do 3 right.
           exists u. repeat split; try done. left. by exists e.
        -- destruct (syncWithRemote JsError services _ false true)
             as [e|] eqn:Hsync; simpl.
           ++ exists [ShareCollection JsError collection address None;
                      Sleep JsError 2000;
                      SyncWithRemote JsError false true (Some e);
                      SetFieldError JsError "email" (handleSharingErrors e)].
              split; [by rewrite <- !app_assoc|]. do 3 right.
              exists u. repeat split; try done. right. left. by exists e.
           ++ exists [ShareCollection JsError collection address None;
                      Sleep JsError 2000;
                      SyncWithRemote JsError false true None;
                      ResetForm JsError].
              split; [by rewrite <- !app_assoc|]. do 3 right.
              exists u. repeat split; try done. by right; right.
  - exists [SetFieldError JsError "email" (handleSharingErrors typeError)].
    split; [by rewrite <- !app_assoc|]. by left.
Qed.

(** X18: a submission asks the service to share the collection only when
    the stored user is there, the address is not the user's own and no
    sharee of the collection has the address; it then asks once, for the
    collection of the dialog and the submitted address, before anything is
    reported to the form.  In all other cases no request is made. *)
Theorem share_requested_only_for_new_sharee (collection : option Collection)
    (user : option User) (address : string) (t : list (UiEvent JsError)) :
  exists new,
    (submit collection user address t).2 = t ++ new
    /\ ((exists u, user = Some u /\ address <> email u
                   /\ already_shared collection address = false)
        -> exists r rest,
             new = [SetLoading JsError true; StartLoading JsError;
                    ShareCollection JsError collection address r] ++ rest
             /\ List.filter (share_requests JsError) rest = [])
    /\ (~ (exists u, user = Some u /\ address <> email u
                     /\ already_shared collection address = false)
        -> List.filter (share_requests JsError) new = []).
Proof.
  destruct (collectionShare_cases collection user address t)
    as (mid & -> & Hmid).
  eexists. split; [simpl; done|].
  destruct Hmid as [[-> ->]|[(u & -> & Hself & ->)|[(u & -> & Hne & Hsh & ->)
    |(u & -> & Hne & Hsh & [(e & ->)|[(e & ->)| ->]])]]].
  - split; [by intros (u & ? & _)|done].
  - split; [intros (u' & [= <-] & ? & _); done|done].
  - split; [intros (u' & _ & _ & ?); congruence|done].
  - split; [intros _; by eexists _, _|].
    intros Hno. destruct Hno. by exists u.
  - split; [intros _; by eexists _, _|].
    intros Hno. destruct Hno. by exists u.
  - split; [intros _; by eexists _, _|].
    intros Hno. destruct Hno. by exists u.
Qed.

(** X19: a submission never throws; whatever the services answer, it first
    sets the loading state and last clears it, and in between it reports to
    the form exactly once: it resets the form when the collection was
    shared and the gallery synced, and sets an error on the email field
    otherwise; the loading state is not touched in between. *)
Theorem submission_reports_once_and_clears_loading
    (collection : option Collection) (user : option User) (address : string)
    (t : list (UiEvent JsError)) :
  exists mid,
    submit collection user address t
    = (inl tt,
       t ++ [SetLoading JsError true; StartLoading JsError] ++ mid
         ++ [SetLoading JsError false; FinishLoading JsError])
    /\ length (List.filter (reports JsError) mid) = 1%nat
    /\ (In (ResetForm JsError) mid
        <-> In (ShareCollection JsError collection address None) mid
            /\ In (SyncWithRemote JsError false true None) mid)
    /\ (forall b, ~ In (SetLoading JsError b) mid)
    /\ ~ In (StartLoading JsError) mid
    /\ ~ In (FinishLoading JsError) mid.
Proof.
  destruct (collectionShare_cases collection user address t)
    as (mid & Hrun & Hmid).
  exists mid. split; [done|].
  destruct Hmid as [[_ ->]|[(u & _ & _ & ->)|[(u & _ & _ & _ & ->)
    |(u & _ & _ & _ & [(e & ->)|[(e & ->)| ->]])]]];
    (split; [reflexivity|]); simpl; intuition (discriminate || auto).
Qed.

(** X20: removing a sharee starts the loading state first and finishes it
    last, whatever the services answer.  An error of the services is not
    caught: the handler throws it, after finishing the loading state, and
    nothing is reported to a form; the handler returns when the collection
    was unshared and the gallery synced. *)
Theorem unshare_always_finishes_loading (collection : option Collection)
    (sharee : User) (t : list (UiEvent JsError)) :
  let run :=
    collectionUnshare JsError services collection sharee t in
  exists mid,
    run.2 = t ++ [StartLoading JsError] ++ mid ++ [FinishLoading JsError]
    /\ List.filter (reports JsError) mid = []
    /\ ~ In (StartLoading JsError) mid
    /\ ~ In (FinishLoading JsError) mid
    /\ (run.1 = inl tt
        /\ mid = [UnshareCollection JsError collection (email sharee) None;
                  Sleep JsError 2000;
                  SyncWithRemote JsError false true None]
        \/ exists e,
             run.1 = inr e
             /\ (mid = [UnshareCollection JsError collection (email sharee)
                          (Some e)]
                 \/ mid = [UnshareCollection JsError collection (email sharee)
                             None;
                           Sleep JsError 2000;
                           SyncWithRemote JsError false true (Some e)])).
Proof.
  unfold collectionUnshare, try_finally, jbind, ui, await. simpl.
  destruct (unshareCollection JsError services _ collection (email sharee))
    as [e|] eqn:Hunshare; simpl.
  - exists [UnshareCollection JsError collection (email sharee) (Some e)].
    split; [by rewrite <- !app_assoc|]. simpl.
    intuition (discriminate || eauto).
  - destruct (syncWithRemote JsError services _ false true)
      as [e|] eqn:Hsync; simpl.
    + exists [UnshareCollection JsError collection (email sharee) None;
              Sleep JsError 2000;
              SyncWithRemote JsError false true (Some e)].
      split; [by rewrite <- !app_assoc|]. simpl.
      intuition (discriminate || eauto).
    + exists [UnshareCollection JsError collection (email sharee) None;
              Sleep JsError 2000;
              SyncWithRemote JsError false true None].
      split; [by rewrite <- !app_assoc|]. simpl.
      intuition (discriminate || eauto).
Qed.

End ShareForm.

(** Two submissions against services that accept everything: the user's own
    address is refused without a request; a new address is shared. *)
Example share_form_submissions :
  let services :=
    {| ShareDialog.shareCollection := fun _ _ _ => @None string;
       ShareDialog.unshareCollection := fun _ _ _ => None;
       ShareDialog.syncWithRemote := fun _ _ _ => None |} in
  let submit :=
    ShareDialog.collectionShare string "TypeError" (fun e => e)
      "You cannot share with yourself" (fun a => "Already shared with " +:+ a)
      services
      (Some {| ShareDialog.sharees := Some [ {| ShareDialog.email := "b@x" |} ] |})
      (Some {| ShareDialog.email := "a@x" |}) in
  (submit "a@x" []).2
  = [ShareDialog.SetLoading string true; ShareDialog.StartLoading string;
     ShareDialog.SetFieldError string "email" "You cannot share with yourself";
     ShareDialog.SetLoading string false; ShareDialog.FinishLoading string]
  /\ List.filter (ShareDialog.share_requests string) (submit "b@x" []).2 = []
  /\ List.filter (ShareDialog.share_requests string) (submit "c@x" []).2
     = [ShareDialog.ShareCollection string
          (Some {| ShareDialog.sharees := Some [ {| ShareDialog.email := "b@x" |} ] |})
          "c@x" None].
Proof. vm_compute. repeat split; reflexivity. Qed.
